(** * Badminton scoreboard: the match reducer, the position resolver and the
    statistics engine, embedded from

    - [src/types/match.ts]           (PointSnapshot, GameSnapshot, Players,
                                      MatchState, MatchAction)
    - [src/utils/getTeamPositions]   (getTeamPositions)
    - [src/utils/getMaxPoint]        (getMaxPoint)
    - [src/utils/matchReducer.ts]    (initialState, createSnapshot, matchReducer)
    - [src/utils/statsUtils.ts]      (calculateGameStats, calculateMatchStats)
    - [src/components/GameStatsView.tsx] (the displayed "Total Points Played")

    Conventions of the embedding.

    - A JavaScript [number] holding a score, an index, a count or a time is an
      integer [Z]; [%] is the truncating remainder [Z.rem]; [Math.max] is
      [Z.max].
    - A value of type [string | null] that may also be [undefined] at run time
      (an array read out of range) is a [jsval].
    - An array is a [list]; [arr[i]] is [at_ arr i], which is [Undefined]
      outside the array; [indexOf]/[findIndex] return [-1] when nothing
      matches.
    - An object spread [{...state, f: v}] is written as the full record with
      the untouched fields copied from [state]. *)

From Stdlib Require Import ZArith List String Bool Lia Permutation.
From Stdlib Require Import Ascii DecimalString.
Import ListNotations.
Open Scope Z_scope.

(* ------------------------------------------------------------------ *)
(** ** JavaScript values and arrays *)
(* ------------------------------------------------------------------ *)

Inductive jsval : Type :=
  | Undefined
  | Null
  | Str (s : string).

Definition jsval_eq_dec (x y : jsval) : {x = y} + {x <> y}.
Proof. decide equality. apply string_dec. Defined.

(** [x === y] on names. *)
Definition strictEq (x y : jsval) : bool :=
  if jsval_eq_dec x y then true else false.

(** [v ?? d] *)
Definition nullish (v d : jsval) : jsval :=
  match v with
  | Undefined | Null => d
  | Str _ => v
  end.

(** The two sides of the court, ["A"] and ["B"]. *)
Inductive Side : Type := A | B.

Definition Side_eq_dec (x y : Side) : {x = y} + {x <> y}.
Proof. decide equality. Defined.

Definition side_eqb (x y : Side) : bool :=
  if Side_eq_dec x y then true else false.

(** [x === "A"] for a side that may be [null]. *)
Definition isSide (x : option Side) (y : Side) : bool :=
  match x with
  | Some z => side_eqb z y
  | None => false
  end.

(** [arr.length] *)
Definition len {T : Type} (l : list T) : Z := Z.of_nat (List.length l).

(** [arr[i]] on an array of names. *)
Definition at_ (l : list jsval) (i : Z) : jsval :=
  if i <? 0 then Undefined else nth (Z.to_nat i) l Undefined.

(** [arr.findIndex(p)] *)
Fixpoint findIndex {T : Type} (p : T -> bool) (l : list T) : Z :=
  match l with
  | [] => -1
  | x :: r =>
      if p x then 0
      else let k := findIndex p r in if k <? 0 then -1 else k + 1
  end.

(** [arr.indexOf(v)] *)
Definition indexOf (l : list jsval) (v : jsval) : Z :=
  findIndex (fun p => strictEq p v) l.

(** [arr.includes(v)] *)
Definition includes (l : list jsval) (v : jsval) : bool :=
  existsb (fun p => strictEq p v) l.

(** [arr.slice(0, -1)] *)
Definition slice_0_m1 {T : Type} (l : list T) : list T := removelast l.

(** [arr.slice(-2)] *)
Definition slice_m2 {T : Type} (l : list T) : list T :=
  skipn (List.length l - 2)%nat l.

(** [arr[arr.length - 1]] on a non-empty array. *)
Definition lastElem {T : Type} (l : list T) (d : T) : T := last l d.

(** [n % 2 === 0] *)
Definition isEven (n : Z) : bool := Z.rem n 2 =? 0.

(* ------------------------------------------------------------------ *)
(** ** Data model ([src/types/match.ts]) *)
(* ------------------------------------------------------------------ *)

Record Players : Type := mkPlayers {
  teamA : list jsval;
  teamB : list jsval
}.

(** The fields of [PointSnapshot] and [GameSnapshot] carry the source's
    names inside a module each, since [MatchState] has fields of the same
    names. *)
Module PointSnapshot.
Record t : Type := mk {
  pointsA : Z;
  setsA : Z;
  pointsB : Z;
  setsB : Z;
  serverSide : option Side;
  currentServer : jsval;
  currentReceiver : jsval;
  nextServer : jsval;
  serveIndex : Z;
  players : Players
}.
End PointSnapshot.

Module GameSnapshot.
Record t : Type := mk {
  gameNumber : Z;
  pointsA : Z;
  pointsB : Z;
  winnerSide : option Side;
  duration : Z;
  pointHistory : list PointSnapshot.t
}.
End GameSnapshot.

Record MatchState : Type := mkState {
  pointsA : Z;
  setsA : Z;
  pointsB : Z;
  setsB : Z;
  players : Players;
  currentSetPointHistory : list PointSnapshot.t;
  matchHistory : list GameSnapshot.t;
  serverSide : option Side;
  currentServer : jsval;
  currentReceiver : jsval;
  nextServer : jsval;
  serveOrder : list jsval;
  serveIndex : Z;
  scoringSystem : Z;
  currentSetStartTime : Z;
  setFinishData : option GameSnapshot.t;
  receiverOffsetA : Z;
  receiverOffsetB : Z;
  lastTwoPointWinners : list Side
}.

(** [MatchAction], one constructor per [type] tag. *)
Inductive MatchAction : Type :=
  | START_MATCH (newPlayers : Players) (firstServe : Side)
                (firstServerName opponentReceiverName : jsval)
                (scoringSystemParam : option Z) (startTime : Z)
  | INCREMENT (side : Side) (maxPoint : Z) (time : Z)
  | CONTINUE_NEXT_SET (startTime : Z) (nextServerName nextReceiverName : jsval)
  | UNDO
  | RESET_HISTORY
  | SET_SET_FINISH_DATA (payload : option GameSnapshot.t)
  | CLEAR_POINT_HISTORY
  | SET_NEXT_SERVER (payload : jsval)
  | SET_NEXT_RECEIVER (payload : jsval).

(* ------------------------------------------------------------------ *)
(** ** [getMaxPoint] *)
(* ------------------------------------------------------------------ *)

Definition getMaxPoint (system : Z) : Z :=
  if system =? 15 then 21
  else if system =? 21 then 30
  else 30.

(* ------------------------------------------------------------------ *)
(** ** [getTeamPositions]

    [teamA] of the result is [[left, right]], [teamB] is [[right, left]].
    [servingSide] is typed ["A" | "B"], but [CONTINUE_NEXT_SET] passes
    [state.serverSide!], which is [null] before any match has started:
    hence [option Side]. *)
(* ------------------------------------------------------------------ *)

Definition getTeamPositions (servingSide : option Side) (team : Players)
    (serverName receiverName : jsval) (ptsA ptsB : Z) : Players :=
  let tA := teamA team in
  let tB := teamB team in
  let isSingle := (len tA =? 1) && (len tB =? 1) in
  if isSingle then
    mkPlayers [at_ tA 0; at_ tA 0] [at_ tB 0; at_ tB 0]
  else
    let servingSiderTeam := if isSide servingSide A then tA else tB in
    let opponentTeam := if isSide servingSide A then tB else tA in
    let sIdx := Z.max 0 (indexOf servingSiderTeam serverName) in
    let oIdx := Z.max 0 (indexOf opponentTeam receiverName) in
    let server := at_ servingSiderTeam sIdx in
    let partnerServer := at_ servingSiderTeam (1 - sIdx) in
    let receiver := at_ opponentTeam oIdx in
    let partnerReceiver := at_ opponentTeam (1 - oIdx) in
    let isEvenA := isEven ptsA in
    let isEvenB := isEven ptsB in
    if (ptsA =? 0) && (ptsB =? 0) then
      if isSide servingSide A then
        mkPlayers [partnerServer; server] [receiver; partnerReceiver]
      else
        mkPlayers [partnerReceiver; receiver] [server; partnerServer]
    else
      if isSide servingSide A && isEvenA then
        mkPlayers [partnerServer; server] [at_ tB 0; at_ tB 1]
      else if isSide servingSide A && negb isEvenA then
        mkPlayers [server; partnerServer] [at_ tB 0; at_ tB 1]
      else if isSide servingSide B && isEvenB then
        mkPlayers [at_ tA 0; at_ tA 1] [server; partnerServer]
      else if isSide servingSide B && negb isEvenB then
        mkPlayers [at_ tA 0; at_ tA 1] [partnerServer; server]
      else
        mkPlayers [at_ tA 0; at_ tA 1] [at_ tB 0; at_ tB 1].

(** Court slots of a position pair, as the [TeamPositions] type documents
    them: side A is stored [[left, right]], side B [[right, left]]. *)
Definition rightSlot (sd : Side) (pos : Players) : jsval :=
  match sd with
  | A => at_ (teamA pos) 1
  | B => at_ (teamB pos) 0
  end.

Definition leftSlot (sd : Side) (pos : Players) : jsval :=
  match sd with
  | A => at_ (teamA pos) 0
  | B => at_ (teamB pos) 1
  end.

Definition teamOf (sd : Side) (pos : Players) : list jsval :=
  match sd with
  | A => teamA pos
  | B => teamB pos
  end.

Definition otherSide (sd : Side) : Side :=
  match sd with
  | A => B
  | B => A
  end.

(* ------------------------------------------------------------------ *)
(** ** [initialState] and [createSnapshot] ([src/utils/matchReducer.ts]) *)
(* ------------------------------------------------------------------ *)

Definition initialState : MatchState :=
  {| pointsA := 0;
     setsA := 0;
     pointsB := 0;
     setsB := 0;
     players := mkPlayers [] [];
     currentSetPointHistory := [];
     matchHistory := [];
     serverSide := None;
     currentServer := Null;
     currentReceiver := Null;
     nextServer := Null;
     serveOrder := [];
     serveIndex := 0;
     scoringSystem := 21;
     currentSetStartTime := 0;
     setFinishData := None;
     receiverOffsetA := 0;
     receiverOffsetB := 0;
     lastTwoPointWinners := [] |}.

Definition createSnapshot (state : MatchState) : PointSnapshot.t :=
  {| PointSnapshot.pointsA := pointsA state;
     PointSnapshot.setsA := setsA state;
     PointSnapshot.pointsB := pointsB state;
     PointSnapshot.setsB := setsB state;
     PointSnapshot.serverSide := serverSide state;
     PointSnapshot.currentServer := currentServer state;
     PointSnapshot.currentReceiver := currentReceiver state;
     PointSnapshot.nextServer := nextServer state;
     PointSnapshot.serveIndex := serveIndex state;
     PointSnapshot.players :=
       mkPlayers (teamA (players state)) (teamB (players state)) |}.

(* ------------------------------------------------------------------ *)
(** ** [matchReducer], case [START_MATCH] *)
(* ------------------------------------------------------------------ *)

(** The [rotation] array built by [START_MATCH]. *)
Definition startRotation (newPlayers : Players) (firstServe : Side)
    (firstServerName opponentReceiverName : jsval) : list jsval :=
  let tA := teamA newPlayers in
  let tB := teamB newPlayers in
  let single := len tA =? 1 in
  if single then
    let server := if side_eqb firstServe A then at_ tA 0 else at_ tB 0 in
    let receiver := if side_eqb firstServe A then at_ tB 0 else at_ tA 0 in
    [server; receiver]
  else
    let firstServerTeam := if side_eqb firstServe A then tA else tB in
    let opponentTeam := if side_eqb firstServe A then tB else tA in
    let sIdx := Z.max 0 (indexOf firstServerTeam firstServerName) in
    let oIdx := Z.max 0 (indexOf opponentTeam opponentReceiverName) in
    let a := at_ firstServerTeam sIdx in
    let b := at_ opponentTeam oIdx in
    let c := at_ firstServerTeam (1 - sIdx) in
    let d := at_ opponentTeam (1 - oIdx) in
    [a; d; c; b].

Definition startMatch (newPlayers : Players) (firstServe : Side)
    (firstServerName opponentReceiverName : jsval)
    (scoringSystemParam : option Z) (startTime : Z) : MatchState :=
  let tA := teamA newPlayers in
  let tB := teamB newPlayers in
  let single := len tA =? 1 in
  let teamPositions :=
    if single then newPlayers
    else getTeamPositions (Some firstServe) newPlayers
           firstServerName opponentReceiverName 0 0 in
  let rotation :=
    startRotation newPlayers firstServe firstServerName opponentReceiverName in
  let server :=
    if single then (if side_eqb firstServe A then at_ tA 0 else at_ tB 0)
    else firstServerName in
  let receiver :=
    if single then (if side_eqb firstServe A then at_ tB 0 else at_ tA 0)
    else opponentReceiverName in
  let initIndex := findIndex (fun p => strictEq p firstServerName) rotation in
  let startIndex := if initIndex >=? 0 then initIndex else 0 in
  {| pointsA := pointsA initialState;
     setsA := setsA initialState;
     pointsB := pointsB initialState;
     setsB := setsB initialState;
     players := teamPositions;
     currentSetPointHistory := currentSetPointHistory initialState;
     matchHistory := matchHistory initialState;
     serverSide := Some firstServe;
     currentServer := server;
     currentReceiver := receiver;
     nextServer := at_ rotation (Z.rem (startIndex + 1) (len rotation));
     serveOrder := rotation;
     serveIndex := startIndex;
     scoringSystem :=
       match scoringSystemParam with
       | Some v => v
       | None => scoringSystem initialState
       end;
     currentSetStartTime := startTime;
     setFinishData := setFinishData initialState;
     receiverOffsetA := receiverOffsetA initialState;
     receiverOffsetB := receiverOffsetB initialState;
     lastTwoPointWinners := lastTwoPointWinners initialState |}.

(* ------------------------------------------------------------------ *)
(** ** [matchReducer], case [INCREMENT] *)
(* ------------------------------------------------------------------ *)

Definition newPointsA (state : MatchState) (side : Side) : Z :=
  if side_eqb side A then pointsA state + 1 else pointsA state.

Definition newPointsB (state : MatchState) (side : Side) : Z :=
  if side_eqb side B then pointsB state + 1 else pointsB state.

Definition isSetFinished (state : MatchState) (side : Side) (maxPoint : Z)
    : bool :=
  let nA := newPointsA state side in
  let nB := newPointsB state side in
  ((nA >=? scoringSystem state) && (nA - nB >=? 2))
  || ((nB >=? scoringSystem state) && (nB - nA >=? 2))
  || (nA =? maxPoint)
  || (nB =? maxPoint).

(** [winnerSide] of the finishing branch. *)
Definition winnerSide (state : MatchState) (side : Side) : Side :=
  if newPointsA state side >? newPointsB state side then A else B.

(** The loop [for (let i = 1; i < gameHistory.length; i++)] collecting the
    winner of every recorded point; [prev] is [gameHistory[i - 1]]. *)
Fixpoint winnersFrom (prev : PointSnapshot.t) (rest : list PointSnapshot.t)
    : list Side :=
  match rest with
  | [] => []
  | cur :: tl =>
      (if PointSnapshot.pointsA cur >? PointSnapshot.pointsA prev then [A]
       else if PointSnapshot.pointsB cur >? PointSnapshot.pointsB prev then [B]
       else [])
      ++ winnersFrom cur tl
  end.

Definition winners (gameHistory : list PointSnapshot.t) : list Side :=
  match gameHistory with
  | [] => []
  | first :: rest => winnersFrom first rest
  end.

Definition finalPointSnapshot (state : MatchState) (side : Side)
    : PointSnapshot.t :=
  let snap := createSnapshot state in
  let w := winnerSide state side in
  {| PointSnapshot.pointsA := newPointsA state side;
     PointSnapshot.setsA := setsA state + (if side_eqb w A then 1 else 0);
     PointSnapshot.pointsB := newPointsB state side;
     PointSnapshot.setsB := setsB state + (if side_eqb w B then 1 else 0);
     PointSnapshot.serverSide := PointSnapshot.serverSide snap;
     PointSnapshot.currentServer := PointSnapshot.currentServer snap;
     PointSnapshot.currentReceiver := PointSnapshot.currentReceiver snap;
     PointSnapshot.nextServer := PointSnapshot.nextServer snap;
     PointSnapshot.serveIndex := PointSnapshot.serveIndex snap;
     PointSnapshot.players := PointSnapshot.players snap |}.

Definition gameHistory (state : MatchState) (side : Side)
    : list PointSnapshot.t :=
  currentSetPointHistory state
  ++ [createSnapshot state; finalPointSnapshot state side].

(** The [GameSnapshot] called [data] in the finishing branch. *)
Definition finishData (state : MatchState) (side : Side) (time : Z)
    : GameSnapshot.t :=
  {| GameSnapshot.gameNumber := len (matchHistory state) + 1;
     GameSnapshot.pointsA := newPointsA state side;
     GameSnapshot.pointsB := newPointsB state side;
     GameSnapshot.winnerSide := Some (winnerSide state side);
     GameSnapshot.duration := time - currentSetStartTime state;
     GameSnapshot.pointHistory := gameHistory state side |}.

Definition defaultNextServer (state : MatchState) (side : Side) : jsval :=
  let w := winnerSide state side in
  let winnerTeam := teamOf w (players state) in
  let lastTwo := slice_m2 (winners (gameHistory state side)) in
  let chosen :=
    if (len lastTwo =? 2) && (len (serveOrder state) >? 0) then
      let sameWinner :=
        match lastTwo with
        | [x; y] => side_eqb x y
        | _ => false
        end in
      if sameWinner then nullish (currentServer state) (at_ winnerTeam 0)
      else
        let lastServerIndex := indexOf (serveOrder state) (currentServer state) in
        if negb (lastServerIndex =? -1) then
          let partnerIndex :=
            Z.rem (lastServerIndex + 2) (len (serveOrder state)) in
          at_ (serveOrder state) partnerIndex
        else at_ winnerTeam 0
    else nullish (currentServer state) (at_ winnerTeam 0) in
  if negb (includes winnerTeam chosen) then at_ winnerTeam 0 else chosen.

Definition defaultNextReceiver (state : MatchState) (side : Side) : jsval :=
  let w := winnerSide state side in
  let loserTeam := teamOf (otherSide w) (players state) in
  if side_eqb w A then at_ loserTeam 0 else at_ loserTeam 1.

Definition incrementFinished (state : MatchState) (side : Side) (time : Z)
    : MatchState :=
  let w := winnerSide state side in
  let data := finishData state side time in
  let server := defaultNextServer state side in
  let isSingle := len (teamA (players state)) =? 1 in
  let teamPositions :=
    if isSingle then players state
    else getTeamPositions (Some w) (players state) server
           (currentReceiver state)
           (newPointsA state side) (newPointsB state side) in
  {| pointsA := newPointsA state side;
     setsA := setsA state + (if side_eqb w A then 1 else 0);
     pointsB := newPointsB state side;
     setsB := setsB state + (if side_eqb w B then 1 else 0);
     players := teamPositions;
     currentSetPointHistory := [];
     matchHistory := matchHistory state ++ [data];
     serverSide := serverSide state;
     currentServer := server;
     currentReceiver := defaultNextReceiver state side;
     nextServer := nextServer state;
     serveOrder := serveOrder state;
     serveIndex := serveIndex state;
     scoringSystem := scoringSystem state;
     currentSetStartTime := currentSetStartTime state;
     setFinishData := Some data;
     receiverOffsetA := receiverOffsetA state;
     receiverOffsetB := receiverOffsetB state;
     lastTwoPointWinners := slice_m2 (winners (gameHistory state side)) |}.

(** [isServeChange && state.serveOrder.length > 0] *)
Definition rotates (state : MatchState) (side : Side) : bool :=
  negb (isSide (serverSide state) side) && (len (serveOrder state) >? 0).

Definition newServeIndex (state : MatchState) (side : Side) : Z :=
  if rotates state side
  then Z.rem (serveIndex state + 1) (len (serveOrder state))
  else serveIndex state.

Definition newServer (state : MatchState) (side : Side) : jsval :=
  if rotates state side
  then at_ (serveOrder state) (newServeIndex state side)
  else currentServer state.

Definition newNext (state : MatchState) (side : Side) : jsval :=
  if rotates state side
  then at_ (serveOrder state)
         (Z.rem (newServeIndex state side + 1) (len (serveOrder state)))
  else nextServer state.

Definition newServerSide (state : MatchState) (side : Side) : Side :=
  if rotates state side
  then (if includes (teamA (players state)) (newServer state side)
        then A else B)
  else match serverSide state with
       | Some p => p
       | None => side
       end.

Definition incrementInProgress (state : MatchState) (side : Side)
    : MatchState :=
  let nA := newPointsA state side in
  let nB := newPointsB state side in
  let isEvenA := isEven nA in
  let isEvenB := isEven nB in
  let nss := newServerSide state side in
  let isSingle := len (teamA (players state)) =? 1 in
  let teamPositions :=
    if isSingle then players state
    else getTeamPositions (Some side) (players state)
           (newServer state side) (currentReceiver state) nA nB in
  let newReceiver :=
    if isSingle then
      (if side_eqb nss A then at_ (teamB teamPositions) 0
       else if side_eqb nss B then at_ (teamA teamPositions) 0
       else Null)
    else
      (if side_eqb nss A && isEvenA then at_ (teamB teamPositions) 0
       else if side_eqb nss A && negb isEvenA then at_ (teamB teamPositions) 1
       else if side_eqb nss B && isEvenB then at_ (teamA teamPositions) 1
       else if side_eqb nss B && negb isEvenB then at_ (teamA teamPositions) 0
       else Null) in
  {| pointsA := nA;
     setsA := setsA state;
     pointsB := nB;
     setsB := setsB state;
     players := teamPositions;
     currentSetPointHistory :=
       currentSetPointHistory state ++ [createSnapshot state];
     matchHistory := matchHistory state;
     serverSide := Some nss;
     currentServer := newServer state side;
     currentReceiver := newReceiver;
     nextServer := newNext state side;
     serveOrder := serveOrder state;
     serveIndex := newServeIndex state side;
     scoringSystem := scoringSystem state;
     currentSetStartTime := currentSetStartTime state;
     setFinishData := setFinishData state;
     receiverOffsetA := receiverOffsetA state;
     receiverOffsetB := receiverOffsetB state;
     lastTwoPointWinners := lastTwoPointWinners state |}.

Definition increment (state : MatchState) (side : Side) (maxPoint time : Z)
    : MatchState :=
  if isSetFinished state side maxPoint
  then incrementFinished state side time
  else incrementInProgress state side.

(* ------------------------------------------------------------------ *)
(** ** [matchReducer], cases [UNDO] and [CONTINUE_NEXT_SET] *)
(* ------------------------------------------------------------------ *)

(** [{...state, ...lastState, currentSetPointHistory: history}] *)
Definition restore (state : MatchState) (lastState : PointSnapshot.t)
    (history : list PointSnapshot.t) : MatchState :=
  {| pointsA := PointSnapshot.pointsA lastState;
     setsA := PointSnapshot.setsA lastState;
     pointsB := PointSnapshot.pointsB lastState;
     setsB := PointSnapshot.setsB lastState;
     players := PointSnapshot.players lastState;
     currentSetPointHistory := history;
     matchHistory := matchHistory state;
     serverSide := PointSnapshot.serverSide lastState;
     currentServer := PointSnapshot.currentServer lastState;
     currentReceiver := PointSnapshot.currentReceiver lastState;
     nextServer := PointSnapshot.nextServer lastState;
     serveOrder := serveOrder state;
     serveIndex := PointSnapshot.serveIndex lastState;
     scoringSystem := scoringSystem state;
     currentSetStartTime := currentSetStartTime state;
     setFinishData := setFinishData state;
     receiverOffsetA := receiverOffsetA state;
     receiverOffsetB := receiverOffsetB state;
     lastTwoPointWinners := lastTwoPointWinners state |}.

Definition undo (state : MatchState) : MatchState :=
  if len (currentSetPointHistory state) =? 0 then state
  else
    let lastState :=
      lastElem (currentSetPointHistory state) (createSnapshot state) in
    restore state lastState (slice_0_m1 (currentSetPointHistory state)).

(** [newServeOrder] of [CONTINUE_NEXT_SET]. *)
Definition nextServeOrder (state : MatchState)
    (nextServerName nextReceiverName : jsval) : list jsval :=
  let tA := teamA (players state) in
  let tB := teamB (players state) in
  let isSingle := len tA =? 1 in
  if isSingle then [nextServerName; nextReceiverName]
  else if len tA >? 1 then
    let serverTeam := if includes tA nextServerName then tA else tB in
    let receiverTeam := if includes tA nextReceiverName then tA else tB in
    let sIdx := Z.max 0 (indexOf serverTeam nextServerName) in
    let oIdx := Z.max 0 (indexOf receiverTeam nextReceiverName) in
    let serverPartner := at_ serverTeam (1 - sIdx) in
    let receiverPartner := at_ receiverTeam (1 - oIdx) in
    [nextServerName; receiverPartner; serverPartner; nextReceiverName]
  else serveOrder state.

Definition continueNextSet (state : MatchState) (startTime : Z)
    (nextServerName nextReceiverName : jsval) : MatchState :=
  let isSingle := len (teamA (players state)) =? 1 in
  let newServeOrder := nextServeOrder state nextServerName nextReceiverName in
  let teamPositions :=
    if isSingle then players state
    else getTeamPositions (serverSide state) (players state)
           nextServerName nextReceiverName 0 0 in
  {| pointsA := 0;
     setsA := setsA state;
     pointsB := 0;
     setsB := setsB state;
     players := teamPositions;
     currentSetPointHistory := [];
     matchHistory := matchHistory state;
     serverSide :=
       Some (if includes (teamA (players state)) nextServerName then A else B);
     currentServer := nextServerName;
     currentReceiver := nextReceiverName;
     nextServer := nullish (at_ newServeOrder 1) Null;
     serveOrder := newServeOrder;
     serveIndex := 0;
     scoringSystem := scoringSystem state;
     currentSetStartTime := startTime;
     setFinishData := None;
     receiverOffsetA := receiverOffsetA state;
     receiverOffsetB := receiverOffsetB state;
     lastTwoPointWinners := [] |}.

(* ------------------------------------------------------------------ *)
(** ** [matchReducer], the remaining cases *)
(* ------------------------------------------------------------------ *)

Definition resetHistory (state : MatchState) : MatchState :=
  {| pointsA := pointsA state;
     setsA := setsA state;
     pointsB := pointsB state;
     setsB := setsB state;
     players := players state;
     currentSetPointHistory := currentSetPointHistory state;
     matchHistory := [];
     serverSide := serverSide state;
     currentServer := currentServer state;
     currentReceiver := currentReceiver state;
     nextServer := nextServer state;
     serveOrder := serveOrder state;
     serveIndex := serveIndex state;
     scoringSystem := scoringSystem state;
     currentSetStartTime := currentSetStartTime state;
     setFinishData := setFinishData state;
     receiverOffsetA := receiverOffsetA state;
     receiverOffsetB := receiverOffsetB state;
     lastTwoPointWinners := lastTwoPointWinners state |}.

Definition setSetFinishData (state : MatchState)
    (payload : option GameSnapshot.t) : MatchState :=
  {| pointsA := pointsA state;
     setsA := setsA state;
     pointsB := pointsB state;
     setsB := setsB state;
     players := players state;
     currentSetPointHistory := currentSetPointHistory state;
     matchHistory := matchHistory state;
     serverSide := serverSide state;
     currentServer := currentServer state;
     currentReceiver := currentReceiver state;
     nextServer := nextServer state;
     serveOrder := serveOrder state;
     serveIndex := serveIndex state;
     scoringSystem := scoringSystem state;
     currentSetStartTime := currentSetStartTime state;
     setFinishData := payload;
     receiverOffsetA := receiverOffsetA state;
     receiverOffsetB := receiverOffsetB state;
     lastTwoPointWinners := lastTwoPointWinners state |}.

Definition clearPointHistory (state : MatchState) : MatchState :=
  {| pointsA := pointsA state;
     setsA := setsA state;
     pointsB := pointsB state;
     setsB := setsB state;
     players := players state;
     currentSetPointHistory := [];
     matchHistory := matchHistory state;
     serverSide := serverSide state;
     currentServer := currentServer state;
     currentReceiver := currentReceiver state;
     nextServer := nextServer state;
     serveOrder := serveOrder state;
     serveIndex := serveIndex state;
     scoringSystem := scoringSystem state;
     currentSetStartTime := currentSetStartTime state;
     setFinishData := setFinishData state;
     receiverOffsetA := receiverOffsetA state;
     receiverOffsetB := receiverOffsetB state;
     lastTwoPointWinners := lastTwoPointWinners state |}.

Definition setNextServer (state : MatchState) (payload : jsval) : MatchState :=
  {| pointsA := pointsA state;
     setsA := setsA state;
     pointsB := pointsB state;
     setsB := setsB state;
     players := players state;
     currentSetPointHistory := currentSetPointHistory state;
     matchHistory := matchHistory state;
     serverSide := serverSide state;
     currentServer := payload;
     currentReceiver := currentReceiver state;
     nextServer := nextServer state;
     serveOrder := serveOrder state;
     serveIndex := serveIndex state;
     scoringSystem := scoringSystem state;
     currentSetStartTime := currentSetStartTime state;
     setFinishData := setFinishData state;
     receiverOffsetA := receiverOffsetA state;
     receiverOffsetB := receiverOffsetB state;
     lastTwoPointWinners := lastTwoPointWinners state |}.

Definition setNextReceiver (state : MatchState) (payload : jsval)
    : MatchState :=
  {| pointsA := pointsA state;
     setsA := setsA state;
     pointsB := pointsB state;
     setsB := setsB state;
     players := players state;
     currentSetPointHistory := currentSetPointHistory state;
     matchHistory := matchHistory state;
     serverSide := serverSide state;
     currentServer := currentServer state;
     currentReceiver := payload;
     nextServer := nextServer state;
     serveOrder := serveOrder state;
     serveIndex := serveIndex state;
     scoringSystem := scoringSystem state;
     currentSetStartTime := currentSetStartTime state;
     setFinishData := setFinishData state;
     receiverOffsetA := receiverOffsetA state;
     receiverOffsetB := receiverOffsetB state;
     lastTwoPointWinners := lastTwoPointWinners state |}.

(* ------------------------------------------------------------------ *)
(** ** [matchReducer] *)
(* ------------------------------------------------------------------ *)

Definition matchReducer (state : MatchState) (action : MatchAction)
    : MatchState :=
  match action with
  | START_MATCH newPlayers firstServe firstServerName opponentReceiverName
                scoringSystemParam startTime =>
      startMatch newPlayers firstServe firstServerName opponentReceiverName
                 scoringSystemParam startTime
  | INCREMENT side maxPoint time => increment state side maxPoint time
  | UNDO => undo state
  | CONTINUE_NEXT_SET startTime nextServerName nextReceiverName =>
      continueNextSet state startTime nextServerName nextReceiverName
  | RESET_HISTORY => resetHistory state
  | SET_SET_FINISH_DATA payload => setSetFinishData state payload
  | CLEAR_POINT_HISTORY => clearPointHistory state
  | SET_NEXT_SERVER payload => setNextServer state payload
  | SET_NEXT_RECEIVER payload => setNextReceiver state payload
  end.

(** Replaying a list of actions, oldest first. *)
Definition replay (state : MatchState) (actions : list MatchAction)
    : MatchState :=
  fold_left matchReducer actions state.

(* ------------------------------------------------------------------ *)
(** ** [calculateGameStats], [calculateMatchStats] ([src/utils/statsUtils.ts]) *)
(* ------------------------------------------------------------------ *)

Record GameStats : Type := mkStats {
  totalPointsWonA : Z;
  totalPointsWonB : Z;
  totalPointsPlayed : Z;
  mostConsecutivePointsA : Z;
  mostConsecutivePointsB : Z;
  gamePointsA : Z;
  gamePointsB : Z
}.

(** The mutable variables of the loop of [calculateGameStats]. *)
Record StatsLoop : Type := mkLoop {
  stats : GameStats;
  currentStreakA : Z;
  currentStreakB : Z
}.

Definition bump (c : bool) (n : Z) : Z := if c then n + 1 else n.

(** One iteration of the loop body, on [prev = pointHistory[i - 1]] and
    [curr = pointHistory[i]]. *)
Definition statsStep (scoringSystemV : Z) (st : StatsLoop)
    (prev curr : PointSnapshot.t) : StatsLoop :=
  let s0 := stats st in
  let cA := PointSnapshot.pointsA curr in
  let cB := PointSnapshot.pointsB curr in
  let scoredA := cA >? PointSnapshot.pointsA prev in
  let scoredB := cB >? PointSnapshot.pointsB prev in
  let streakA :=
    if scoredA then currentStreakA st + 1
    else if scoredB then 0 else currentStreakA st in
  let streakB :=
    if scoredA then 0
    else if scoredB then currentStreakB st + 1 else currentStreakB st in
  let mostA :=
    if scoredA && (streakA >? mostConsecutivePointsA s0)
    then streakA else mostConsecutivePointsA s0 in
  let mostB :=
    if negb scoredA && scoredB && (streakB >? mostConsecutivePointsB s0)
    then streakB else mostConsecutivePointsB s0 in
  let gamePointThreshold := scoringSystemV - 1 in
  let deuceThreshold := scoringSystemV in
  let gpA1 :=
    bump ((cA =? gamePointThreshold) && (cB <? gamePointThreshold))
         (gamePointsA s0) in
  let gpB1 :=
    bump ((cB =? gamePointThreshold) && (cA <? gamePointThreshold))
         (gamePointsB s0) in
  let gpA2 := bump ((cA >=? deuceThreshold) && (cA =? cB + 1)) gpA1 in
  let gpB2 := bump ((cB >=? deuceThreshold) && (cB =? cA + 1)) gpB1 in
  {| stats :=
       {| totalPointsWonA := totalPointsWonA s0;
          totalPointsWonB := totalPointsWonB s0;
          totalPointsPlayed := totalPointsPlayed s0;
          mostConsecutivePointsA := mostA;
          mostConsecutivePointsB := mostB;
          gamePointsA := gpA2;
          gamePointsB := gpB2 |};
     currentStreakA := streakA;
     currentStreakB := streakB |}.

Fixpoint statsLoopFrom (scoringSystemV : Z) (st : StatsLoop)
    (prev : PointSnapshot.t) (rest : list PointSnapshot.t) : StatsLoop :=
  match rest with
  | [] => st
  | curr :: tl =>
      statsLoopFrom scoringSystemV (statsStep scoringSystemV st prev curr)
                    curr tl
  end.

Definition calculateGameStats (game : GameSnapshot.t) (scoringSystemV : Z)
    : GameStats :=
  let init :=
    {| stats :=
         {| totalPointsWonA := GameSnapshot.pointsA game;
            totalPointsWonB := GameSnapshot.pointsB game;
            totalPointsPlayed := len (GameSnapshot.pointHistory game);
            mostConsecutivePointsA := 0;
            mostConsecutivePointsB := 0;
            gamePointsA := 0;
            gamePointsB := 0 |};
       currentStreakA := 0;
       currentStreakB := 0 |} in
  match GameSnapshot.pointHistory game with
  | [] => stats init
  | first :: rest => stats (statsLoopFrom scoringSystemV init first rest)
  end.

Definition emptyStats : GameStats :=
  {| totalPointsWonA := 0;
     totalPointsWonB := 0;
     totalPointsPlayed := 0;
     mostConsecutivePointsA := 0;
     mostConsecutivePointsB := 0;
     gamePointsA := 0;
     gamePointsB := 0 |}.

(** The callback of [allGameStats.reduce]. *)
Definition mergeStats (acc st : GameStats) : GameStats :=
  {| totalPointsWonA := totalPointsWonA acc + totalPointsWonA st;
     totalPointsWonB := totalPointsWonB acc + totalPointsWonB st;
     totalPointsPlayed := totalPointsPlayed acc + totalPointsPlayed st;
     mostConsecutivePointsA :=
       if mostConsecutivePointsA st >? mostConsecutivePointsA acc
       then mostConsecutivePointsA st else mostConsecutivePointsA acc;
     mostConsecutivePointsB :=
       if mostConsecutivePointsB st >? mostConsecutivePointsB acc
       then mostConsecutivePointsB st else mostConsecutivePointsB acc;
     gamePointsA := gamePointsA acc + gamePointsA st;
     gamePointsB := gamePointsB acc + gamePointsB st |}.

Definition calculateMatchStats (history : list GameSnapshot.t)
    (scoringSystemV : Z) : GameStats :=
  fold_left mergeStats
    (map (fun game => calculateGameStats game scoringSystemV) history)
    emptyStats.

(** The number rendered under "Total Points Played" by [GameStatsView]:
    [game.winnerSide === null && stats.totalPointsPlayed > 0
       ? stats.totalPointsPlayed : stats.totalPointsPlayed - 1]. *)
Definition displayedTotalPointsPlayed (game : GameSnapshot.t)
    (scoringSystemV : Z) : Z :=
  let st := calculateGameStats game scoringSystemV in
  match GameSnapshot.winnerSide game with
  | None =>
      if totalPointsPlayed st >? 0 then totalPointsPlayed st
      else totalPointsPlayed st - 1
  | Some _ => totalPointsPlayed st - 1
  end.

(* ================================================================== *)
(** * Vocabulary of the properties *)
(* ================================================================== *)

(** One side completes the set with provisional score [mine] against
    [theirs]: target reached with a margin of two, or the hard cap hit. *)
Definition sideCompletes (target cap mine theirs : Z) : Prop :=
  (mine >= target /\ mine - theirs >= 2) \/ mine = cap.

(** The set-completion predicate on the provisional scores of an
    [INCREMENT] for [side], with hard cap [cap]. *)
Definition completionPredicate (s : MatchState) (side : Side) (cap : Z)
    : Prop :=
  sideCompletes (scoringSystem s) cap (newPointsA s side) (newPointsB s side)
  \/ sideCompletes (scoringSystem s) cap (newPointsB s side) (newPointsA s side).

Definition setsOf (sd : Side) (s : MatchState) : Z :=
  match sd with
  | A => setsA s
  | B => setsB s
  end.

(** The score of the side [sd] once the side [scorer] has been given the
    point, written out: one more for the scorer, the score as it stands for
    the other side. *)
Definition scoreAfterPoint (s : MatchState) (scorer sd : Side) : Z :=
  match scorer, sd with
  | A, A => pointsA s + 1
  | A, B => pointsB s
  | B, A => pointsA s
  | B, B => pointsB s + 1
  end.

(** The set is complete at the score [a]-[b]: one of the two sides has
    reached the target with a margin of two, or the hard cap. *)
Definition setCompleteAt (target cap a b : Z) : Prop :=
  sideCompletes target cap a b \/ sideCompletes target cap b a.

(** [s'] marks the set played in [s] as finished: the transient slot holds
    a game snapshot, that snapshot was appended to the completed sets, and
    the set counter of its winner went up by one (the other one kept). *)
Definition markedFinished (s s' : MatchState) : Prop :=
  exists data w,
    setFinishData s' = Some data
    /\ matchHistory s' = matchHistory s ++ [data]
    /\ GameSnapshot.winnerSide data = Some w
    /\ setsOf w s' = setsOf w s + 1
    /\ setsOf (otherSide w) s' = setsOf (otherSide w) s.

(** The player a name stands for on a roster: the name itself when the
    roster has it, the roster's first entry otherwise. *)
Definition resolveName (team : list jsval) (name : jsval) : jsval :=
  if includes team name then name else at_ team 0.

(** The other player of a pair. *)
Definition partnerOf (team : list jsval) (name : jsval) : jsval :=
  match team with
  | [x; y] => if strictEq x name then y else x
  | _ => Undefined
  end.

(** Rosters of a singles or of a doubles match. *)
Definition singlesRoster (p : Players) : Prop :=
  List.length (teamA p) = 1%nat /\ List.length (teamB p) = 1%nat.

Definition doublesRoster (p : Players) : Prop :=
  List.length (teamA p) = 2%nat /\ List.length (teamB p) = 2%nat.

(** The point history of a game starts with the snapshot taken at 0-0. *)
Definition startsAtZero (g : GameSnapshot.t) : Prop :=
  match GameSnapshot.pointHistory g with
  | p :: _ => PointSnapshot.pointsA p = 0 /\ PointSnapshot.pointsB p = 0
  | [] => False
  end.

(* ------------------------------------------------------------------ *)
(** ** Valid matches and the events of the host *)
(* ------------------------------------------------------------------ *)

(** A player name is a string. *)
Definition isName (v : jsval) : Prop :=
  match v with
  | Str _ => True
  | Undefined | Null => False
  end.

(** Rosters of one or of two players per side, all names different. *)
Definition validRosters (r : Players) : Prop :=
  (singlesRoster r \/ doublesRoster r)
  /\ Forall isName (teamA r ++ teamB r)
  /\ NoDup (teamA r ++ teamB r).

(** A valid [START_MATCH]: valid rosters, the first server on the roster of
    the side serving first, the first receiver on the other roster. *)
Definition validStart (r : Players) (firstServe : Side)
    (firstServerName firstReceiverName : jsval) : Prop :=
  validRosters r
  /\ In firstServerName (teamOf firstServe r)
  /\ In firstReceiverName (teamOf (otherSide firstServe) r).

(** The four events of the specification, with any payload. *)
Definition isMatchEvent (a : MatchAction) : bool :=
  match a with
  | INCREMENT _ _ _ | UNDO | CONTINUE_NEXT_SET _ _ _ | RESET_HISTORY => true
  | _ => false
  end.

(** The same events as the host dispatches them: a point is scored only
    while no finished set waits for its acknowledgement, and the next set is
    started with two different players of the match. *)
Inductive hostStep (s : MatchState) : MatchAction -> Prop :=
  | host_increment (side : Side) (cap time : Z) :
      setFinishData s = None -> hostStep s (INCREMENT side cap time)
  | host_undo : hostStep s UNDO
  | host_reset : hostStep s RESET_HISTORY
  | host_continue (time : Z) (server receiver : jsval) :
      server <> receiver ->
      In server (teamA (players s) ++ teamB (players s)) ->
      In receiver (teamA (players s) ++ teamB (players s)) ->
      hostStep s (CONTINUE_NEXT_SET time server receiver).

Inductive reachableByHost (start : MatchState) : MatchState -> Prop :=
  | reach_start : reachableByHost start start
  | reach_step (s : MatchState) (a : MatchAction) :
      reachableByHost start s -> hostStep s a ->
      reachableByHost start (matchReducer s a).

(** A position pair holds the players of a roster, in either order. *)
Definition samePair (t r : list jsval) : Prop := t = r \/ t = rev r.

Definition sameTeams (p r : Players) : Prop :=
  samePair (teamA p) (teamA r) /\ samePair (teamB p) (teamB r).

(** [v] plays on the side [sd] of the rosters [r]. *)
Definition onSide (r : Players) (sd : option Side) (v : jsval) : Prop :=
  match sd with
  | Some x => In v (teamOf x r)
  | None => False
  end.

(** What every recorded snapshot satisfies, for the rosters [r] of the match
    and the serve order of the set. *)
Definition snapshotOk (r : Players) (order : list jsval)
    (p : PointSnapshot.t) : Prop :=
  sameTeams (PointSnapshot.players p) r
  /\ PointSnapshot.currentServer p <> PointSnapshot.currentReceiver p
  /\ onSide r (PointSnapshot.serverSide p) (PointSnapshot.currentServer p)
  /\ 0 <= PointSnapshot.serveIndex p < len order.

(** The invariant of a match played on the rosters [r]. *)
Definition stateOk (r : Players) (s : MatchState) : Prop :=
  sameTeams (players s) r
  /\ currentServer s <> currentReceiver s
  /\ (setFinishData s = None -> onSide r (serverSide s) (currentServer s))
  /\ Forall (fun v => In v (teamA r ++ teamB r)) (serveOrder s)
  /\ 0 <= serveIndex s < len (serveOrder s)
  /\ Forall (snapshotOk r (serveOrder s)) (currentSetPointHistory s).

(* ------------------------------------------------------------------ *)
(** ** Concrete matches used as examples *)
(* ------------------------------------------------------------------ *)

Definition singlesPlayers : Players :=
  mkPlayers [Str "Alice"] [Str "Bob"].

Definition doublesPlayers : Players :=
  mkPlayers [Str "Ann"; Str "Ben"] [Str "Cat"; Str "Dan"].

(** Singles to 21, Alice serving first. *)
Definition singlesStart : MatchState :=
  matchReducer initialState
    (START_MATCH singlesPlayers A (Str "Alice") (Str "Bob") (Some 21) 0).

(** Doubles to 15, Ann serving to Cat. *)
Definition doublesStart : MatchState :=
  matchReducer initialState
    (START_MATCH doublesPlayers A (Str "Ann") (Str "Cat") (Some 15) 0).

(** Doubles to 15, Ben serving to Cat. *)
Definition doublesStartBen : MatchState :=
  matchReducer initialState
    (START_MATCH doublesPlayers A (Str "Ben") (Str "Cat") (Some 15) 0).

(** A rally won by [sd], dispatched as the host does it: the cap is
    [getMaxPoint] of the state's target. *)
Definition rally (target : Z) (sd : Side) : MatchAction :=
  INCREMENT sd (getMaxPoint target) 60.

(** Scenario A of the specification: 21 straight points for side A. *)
Definition scenarioA : MatchState :=
  replay singlesStart (repeat (rally 21 A) 21).

(** Doubles to 15 with Ben serving first: side B has won the first 14
    rallies. *)
Definition beforeLastPointB : MatchState :=
  replay doublesStartBen (repeat (rally 15 B) 14).

(** Doubles to 15, Ann serving to Cat: 12-12, then A, A, B, A: the set
    ends 15-13 on a rally that side B served. *)
Definition setWonOnReturn : list MatchAction :=
  repeat (rally 15 A) 12 ++ repeat (rally 15 B) 12
  ++ [rally 15 A; rally 15 A; rally 15 B; rally 15 A].

(** The same, followed by two more rallies for side B before any
    [CONTINUE_NEXT_SET]. *)
Definition playedOn : list MatchAction :=
  setWonOnReturn ++ [rally 15 B; rally 15 B].

(* ------------------------------------------------------------------ *)
(** ** Runs of rallies *)
(* ------------------------------------------------------------------ *)

(** A rally is the side that wins it and the clock reading passed along. *)
Definition rallyAction (cap : Z) (r : Side * Z) : MatchAction :=
  INCREMENT (fst r) cap (snd r).

(** None of the rallies of the run completes the set. *)
Fixpoint staysInProgress (s : MatchState) (cap : Z) (run : list (Side * Z))
    : Prop :=
  match run with
  | [] => True
  | r :: rest =>
      ~ completionPredicate s (fst r) cap
      /\ staysInProgress (matchReducer s (rallyAction cap r)) cap rest
  end.

(** The numbers 1, 2, ..., n. *)
Definition countingFromOne (n : nat) : list Z := map Z.of_nat (seq 1 n).

(* ------------------------------------------------------------------ *)
(** ** Vocabulary of the statistics *)
(* ------------------------------------------------------------------ *)

(** The game [g] with one more snapshot recorded. *)
Definition extendGame (g : GameSnapshot.t) (p : PointSnapshot.t)
    : GameSnapshot.t :=
  {| GameSnapshot.gameNumber := GameSnapshot.gameNumber g;
     GameSnapshot.pointsA := GameSnapshot.pointsA g;
     GameSnapshot.pointsB := GameSnapshot.pointsB g;
     GameSnapshot.winnerSide := GameSnapshot.winnerSide g;
     GameSnapshot.duration := GameSnapshot.duration g;
     GameSnapshot.pointHistory := GameSnapshot.pointHistory g ++ [p] |}.

Definition sumOver {T : Type} (f : T -> Z) (l : list T) : Z :=
  fold_right Z.add 0 (map f l).

Definition maxOver {T : Type} (f : T -> Z) (l : list T) : Z :=
  fold_right Z.max 0 (map f l).

(** The number of rallies a point history records: one less than its
    snapshots, none for an empty history. *)
Definition ralliesRecorded (g : GameSnapshot.t) : Z :=
  Z.max 0 (len (GameSnapshot.pointHistory g) - 1).

(** What every iteration of the statistics loop keeps, after [k] rallies:
    streaks within their maxima, nothing negative, at most one game point
    counted per rally. *)
Definition loopBound (k : Z) (st : StatsLoop) : Prop :=
  0 <= currentStreakA st <= mostConsecutivePointsA (stats st)
  /\ 0 <= currentStreakB st <= mostConsecutivePointsB (stats st)
  /\ mostConsecutivePointsA (stats st) <= k
  /\ mostConsecutivePointsB (stats st) <= k
  /\ 0 <= gamePointsA (stats st)
  /\ 0 <= gamePointsB (stats st)
  /\ gamePointsA (stats st) + gamePointsB (stats st) <= k.

(** Two loop states that agree on every counter the loop updates. *)
Definition sameCounters (x y : StatsLoop) : Prop :=
  currentStreakA x = currentStreakA y
  /\ currentStreakB x = currentStreakB y
  /\ mostConsecutivePointsA (stats x) = mostConsecutivePointsA (stats y)
  /\ mostConsecutivePointsB (stats x) = mostConsecutivePointsB (stats y)
  /\ gamePointsA (stats x) = gamePointsA (stats y)
  /\ gamePointsB (stats x) = gamePointsB (stats y).

(* ------------------------------------------------------------------ *)
(** ** The host of the reducer: [useMatchLogic], [SetFinishModal],
       [PointGraph], [MatchHistoryModal] *)
(* ------------------------------------------------------------------ *)

(** [v || d] on a name: [null], [undefined] and the empty string are
    falsy. *)
Definition orElse (v d : jsval) : jsval :=
  match v with
  | Str EmptyString => d
  | Str (String _ _) => v
  | Undefined | Null => d
  end.

(** [handleIncrement]: the cap passed along is [getMaxPoint] of the target
    of the state. *)
Definition handleIncrement (state : MatchState) (side : Side) (time : Z)
    : MatchAction :=
  INCREMENT side (getMaxPoint (scoringSystem state)) time.

(** [handleStartMatch]: the clock starts at 0. *)
Definition handleStartMatch (newPlayers : Players) (firstServe : Side)
    (firstServerName opponentReceiverName : jsval)
    (scoringSystemParam : option Z) : MatchAction :=
  START_MATCH newPlayers firstServe firstServerName opponentReceiverName
              scoringSystemParam 0.

Definition handleUndo : MatchAction := UNDO.

Definition resetMatchHistory : MatchAction := RESET_HISTORY.

Definition setCurrentServer (serverName : jsval) : MatchAction :=
  SET_NEXT_SERVER serverName.

Definition setCurrentReceiver (receiverName : jsval) : MatchAction :=
  SET_NEXT_RECEIVER receiverName.

(** [winnerTeam] and [loserTeam] as [continueNextSet] and [SetFinishModal]
    compute them from the finished game and the positions. *)
Definition winnerTeamOf (gameData : GameSnapshot.t) (p : Players)
    : list jsval :=
  if isSide (GameSnapshot.winnerSide gameData) A then teamA p else teamB p.

Definition loserTeamOf (gameData : GameSnapshot.t) (p : Players)
    : list jsval :=
  if isSide (GameSnapshot.winnerSide gameData) A then teamB p else teamA p.

(** [continueNextSet]: nothing is dispatched without a finished set;
    otherwise the next set starts with the server and the receiver the
    state holds, or the first player of the winning and of the losing side
    where the state holds none. *)
Definition continueNextSetAction (state : MatchState) (time : Z)
    : option MatchAction :=
  match setFinishData state with
  | None => None
  | Some gameData =>
      let winnerTeam := winnerTeamOf gameData (players state) in
      let loserTeam := loserTeamOf gameData (players state) in
      let nextServerName := orElse (currentServer state) (at_ winnerTeam 0) in
      let nextReceiverName :=
        orElse (currentReceiver state) (at_ loserTeam 0) in
      Some (CONTINUE_NEXT_SET time nextServerName nextReceiverName)
  end.

(** [isDoubles] of [SetFinishModal]: the pickers are shown in doubles
    only. *)
Definition modalIsDoubles (p : Players) : bool :=
  (len (teamA p) >? 1) || (len (teamB p) >? 1).

Definition isMatchStarted (state : MatchState) : bool :=
  len (teamA (players state)) >? 0.

(** [currentPointSnapshot] of the hook. *)
Definition currentPointSnapshot (state : MatchState) : PointSnapshot.t :=
  {| PointSnapshot.pointsA := pointsA state;
     PointSnapshot.setsA := setsA state;
     PointSnapshot.pointsB := pointsB state;
     PointSnapshot.setsB := setsB state;
     PointSnapshot.serverSide := serverSide state;
     PointSnapshot.currentServer := currentServer state;
     PointSnapshot.currentReceiver := currentReceiver state;
     PointSnapshot.nextServer := nextServer state;
     PointSnapshot.serveIndex := serveIndex state;
     PointSnapshot.players :=
       mkPlayers (teamA (players state)) (teamB (players state)) |}.

Definition completePointHistory (state : MatchState)
    : list PointSnapshot.t :=
  currentSetPointHistory state ++ [currentPointSnapshot state].

Definition inProgressGame (state : MatchState) (time : Z)
    : option GameSnapshot.t :=
  if isMatchStarted state && (len (currentSetPointHistory state) >? 0)
  then Some {| GameSnapshot.gameNumber := len (matchHistory state) + 1;
               GameSnapshot.pointsA := pointsA state;
               GameSnapshot.pointsB := pointsB state;
               GameSnapshot.winnerSide := None;
               GameSnapshot.duration := time - currentSetStartTime state;
               GameSnapshot.pointHistory := completePointHistory state |}
  else None.

Definition historyForModal (state : MatchState) (time : Z)
    : list GameSnapshot.t :=
  match inProgressGame state time with
  | Some game => matchHistory state ++ [game]
  | None => matchHistory state
  end.

(** [pointWinners] of [PointGraph]: the winner of every recorded rally, by
    the same loop over neighbouring snapshots as the reducer's. *)
Definition pointWinners (pointHistory : list PointSnapshot.t) : list Side :=
  match pointHistory with
  | [] => []
  | first :: rest => winnersFrom first rest
  end.

(** "Total Points Played" of the match tab of [MatchHistoryModal]:
    [matchStats.totalPointsPlayed - 1]. *)
Definition displayedMatchTotalPointsPlayed (history : list GameSnapshot.t)
    (scoringSystemV : Z) : Z :=
  totalPointsPlayed (calculateMatchStats history scoringSystemV) - 1.

(** What the host dispatches after [START_MATCH].  A point is scored only
    while no finished set waits behind the set-finish modal, which covers
    the score boards; the pickers of that modal offer the players of the
    winning side as server and those of the losing side as receiver, in
    doubles. *)
Inductive hookStep (s : MatchState) : MatchAction -> Prop :=
  | hook_point (side : Side) (time : Z) :
      setFinishData s = None -> hookStep s (handleIncrement s side time)
  | hook_undo : hookStep s handleUndo
  | hook_reset : hookStep s resetMatchHistory
  | hook_continue (time : Z) (a : MatchAction) :
      continueNextSetAction s time = Some a -> hookStep s a
  | hook_pick_server (gameData : GameSnapshot.t) (v : jsval) :
      setFinishData s = Some gameData ->
      modalIsDoubles (players s) = true ->
      In v (winnerTeamOf gameData (players s)) ->
      hookStep s (setCurrentServer v)
  | hook_pick_receiver (gameData : GameSnapshot.t) (v : jsval) :
      setFinishData s = Some gameData ->
      modalIsDoubles (players s) = true ->
      In v (loserTeamOf gameData (players s)) ->
      hookStep s (setCurrentReceiver v).

Inductive hookReachable (start : MatchState) : MatchState -> Prop :=
  | hook_start : hookReachable start start
  | hook_next (s : MatchState) (a : MatchAction) :
      hookReachable start s -> hookStep s a ->
      hookReachable start (matchReducer s a).

(* ------------------------------------------------------------------ *)
(** ** Vocabulary of the score invariant *)
(* ------------------------------------------------------------------ *)

Definition snapPoints (sd : Side) (p : PointSnapshot.t) : Z :=
  match sd with
  | A => PointSnapshot.pointsA p
  | B => PointSnapshot.pointsB p
  end.

Definition gamePoints (sd : Side) (g : GameSnapshot.t) : Z :=
  match sd with
  | A => GameSnapshot.pointsA g
  | B => GameSnapshot.pointsB g
  end.

Definition statePoints (sd : Side) (s : MatchState) : Z :=
  match sd with
  | A => pointsA s
  | B => pointsB s
  end.

(** From [p] to [q] exactly one rally was played, won by [sd]. *)
Definition rallyWonBy (sd : Side) (p q : PointSnapshot.t) : Prop :=
  snapPoints sd q = snapPoints sd p + 1
  /\ snapPoints (otherSide sd) q = snapPoints (otherSide sd) p.

Fixpoint chained (prev : PointSnapshot.t) (rest : list PointSnapshot.t)
    : Prop :=
  match rest with
  | [] => True
  | q :: tl => (exists sd : Side, rallyWonBy sd prev q) /\ chained q tl
  end.

(** A history that starts at 0-0 and records one rally per step. *)
Definition scoreTrail (l : list PointSnapshot.t) : Prop :=
  match l with
  | [] => False
  | p :: rest =>
      PointSnapshot.pointsA p = 0 /\ PointSnapshot.pointsB p = 0
      /\ chained p rest
  end.

(** A set is being played at [a]-[b]: both scores below the cap, neither
    side has completed the set. *)
Definition inPlay (target a b : Z) : Prop :=
  0 <= a < getMaxPoint target
  /\ 0 <= b < getMaxPoint target
  /\ ~ sideCompletes target (getMaxPoint target) a b
  /\ ~ sideCompletes target (getMaxPoint target) b a.

(** A completed set as the reducer records it under the host: a trail from
    0-0 whose last rally was won by the recorded winner, from a score still
    in play to the final score, which completes the set for the winner. *)
Definition gameOk (target : Z) (g : GameSnapshot.t) : Prop :=
  exists (l : list PointSnapshot.t) (p q : PointSnapshot.t) (w : Side),
    GameSnapshot.pointHistory g = l ++ [p; q]
    /\ scoreTrail (l ++ [p; q])
    /\ GameSnapshot.winnerSide g = Some w
    /\ rallyWonBy w p q
    /\ gamePoints A g = snapPoints A q
    /\ gamePoints B g = snapPoints B q
    /\ inPlay target (snapPoints A p) (snapPoints B p)
    /\ sideCompletes target (getMaxPoint target)
         (gamePoints w g) (gamePoints (otherSide w) g).

(** The score invariant of a match driven by the host. *)
Definition scoreOk (s : MatchState) : Prop :=
  (setFinishData s = None ->
     inPlay (scoringSystem s) (pointsA s) (pointsB s)
     /\ scoreTrail (currentSetPointHistory s ++ [createSnapshot s]))
  /\ (forall g : GameSnapshot.t,
        setFinishData s = Some g ->
        gameOk (scoringSystem s) g
        /\ pointsA s = GameSnapshot.pointsA g
        /\ pointsB s = GameSnapshot.pointsB g
        /\ currentSetPointHistory s = [])
  /\ Forall (fun p => inPlay (scoringSystem s) (snapPoints A p)
                             (snapPoints B p))
            (currentSetPointHistory s)
  /\ Forall (gameOk (scoringSystem s)) (matchHistory s).

(** The number of rallies a list of point winners gives to a side. *)
Definition ralliesWonBy (sd : Side) (l : list Side) : Z :=
  Z.of_nat (count_occ Side_eq_dec l sd).

(** The history of a game holds one snapshot more than the points of its
    final score. *)
Definition historyMatchesScore (g : GameSnapshot.t) : Prop :=
  len (GameSnapshot.pointHistory g)
  = GameSnapshot.pointsA g + GameSnapshot.pointsB g + 1.

(** A run of rallies dispatched through [handleIncrement], with the clock
    at 60. *)
Fixpoint hookPlay (s : MatchState) (sides : list Side) : MatchState :=
  match sides with
  | [] => s
  | sd :: rest => hookPlay (matchReducer s (handleIncrement s sd 60)) rest
  end.

(** No rally of the run is dispatched behind the set-finish modal. *)
Fixpoint scoringAllowed (s : MatchState) (sides : list Side) : bool :=
  match sides with
  | [] => true
  | sd :: rest =>
      match setFinishData s with
      | None => scoringAllowed (matchReducer s (handleIncrement s sd 60)) rest
      | Some _ => false
      end
  end.

(* ------------------------------------------------------------------ *)
(** ** Vocabulary of the rotation invariant *)
(* ------------------------------------------------------------------ *)

(** The serve order alternates between the sides: its even positions hold
    players of the side [x], its odd positions players of the other side,
    and it has an even number of entries. *)
Definition alternates (r : Players) (x : Side) (order : list jsval) : Prop :=
  Z.even (len order) = true
  /\ forall k : Z,
       0 <= k < len order ->
       In (at_ order k) (teamOf (if Z.even k then x else otherSide x) r).

(** What the state holds while the set-finish modal is up, for the finished
    game [g]: a server of the winning side, a receiver of the losing side
    (or none), and an empty undo stack. *)
Definition awaitingNextSet (r : Players) (s : MatchState)
    (g : GameSnapshot.t) : Prop :=
  exists w : Side,
    GameSnapshot.winnerSide g = Some w
    /\ In (currentServer s) (teamOf w r)
    /\ (In (currentReceiver s) (teamOf (otherSide w) r)
        \/ currentReceiver s = Undefined)
    /\ currentSetPointHistory s = [].

(** The rotation invariant of a match on the rosters [r], driven by the
    host. *)
Definition rotationOk (r : Players) (s : MatchState) : Prop :=
  stateOk r s
  /\ (exists x : Side, alternates r x (serveOrder s))
  /\ Permutation (serveOrder s) (teamA r ++ teamB r)
  /\ (setFinishData s = None ->
      currentServer s = at_ (serveOrder s) (serveIndex s))
  /\ Forall (fun p => PointSnapshot.currentServer p
                      = at_ (serveOrder s) (PointSnapshot.serveIndex p))
            (currentSetPointHistory s)
  /\ (forall g : GameSnapshot.t,
        setFinishData s = Some g -> awaitingNextSet r s g).

(** The court a player stands in, chosen by a parity: right on even, left
    on odd. *)
Definition slotByParity (even : bool) (sd : Side) (pos : Players) : jsval :=
  if even then rightSlot sd pos else leftSlot sd pos.

(* ------------------------------------------------------------------ *)
(** ** Vocabulary of the serving invariant *)
(* ------------------------------------------------------------------ *)

(** From [p] to [q] one rally was played, and its winner serves in [q]. *)
Definition servedBy (p q : PointSnapshot.t) : Prop :=
  exists sd : Side,
    PointSnapshot.serverSide q = Some sd /\ rallyWonBy sd p q.

Fixpoint servedChain (prev : PointSnapshot.t) (rest : list PointSnapshot.t)
    : Prop :=
  match rest with
  | [] => True
  | q :: tl => servedBy prev q /\ servedChain q tl
  end.

Definition servedTrail (l : list PointSnapshot.t) : Prop :=
  match l with
  | [] => True
  | p :: rest => servedChain p rest
  end.

(** While a set is being played, every recorded rally of the set was won by
    the side that served the next one. *)
Definition servingOk (s : MatchState) : Prop :=
  setFinishData s = None ->
  servedTrail (currentSetPointHistory s ++ [createSnapshot s]).

(* ------------------------------------------------------------------ *)
(** ** The new-match wizard ([NewMatchModal]) *)
(* ------------------------------------------------------------------ *)

Module NewMatchModal.

Inductive Mode : Type := single | ganda.

Record FormData : Type := mkFormData {
  teamA1 : string;
  teamA2 : string;
  teamB1 : string;
  teamB2 : string
}.

(** [name || fallback] on strings: the empty string is falsy. *)
Definition orDefault (name fallback : string) : string :=
  match name with
  | EmptyString => fallback
  | String _ _ => name
  end.

(** [!name] on a string. *)
Definition isBlank (name : string) : bool :=
  match name with
  | EmptyString => true
  | String _ _ => false
  end.

(** [!scoringSystem] on a [number | null]. *)
Definition noScoring (scoringSystem : option Z) : bool :=
  match scoringSystem with
  | None => true
  | Some n => n =? 0
  end.

(** The [players] object built by [handleStart]. *)
Definition formPlayers (mode : Mode) (formData : FormData) : Players :=
  match mode with
  | single =>
      {| teamA := [Str (orDefault (teamA1 formData) "Player 1")];
         teamB := [Str (orDefault (teamB1 formData) "Player 2")] |}
  | ganda =>
      {| teamA := [Str (orDefault (teamA1 formData) "Team A.1");
                   Str (orDefault (teamA2 formData) "Team A.2")];
         teamB := [Str (orDefault (teamB1 formData) "Team B.1");
                   Str (orDefault (teamB2 formData) "Team B.2")] |}
  end.

(** The names offered by the first-server picker of the last step. *)
Definition serverOptions (firstServe : option Side) (formData : FormData)
    : list string :=
  if isSide firstServe A
  then [orDefault (teamA1 formData) "Team A.1";
        orDefault (teamA2 formData) "Team A.2"]
  else [orDefault (teamB1 formData) "Team B.1";
        orDefault (teamB2 formData) "Team B.2"].

(** The names offered by the first-receiver picker of the last step. *)
Definition receiverOptions (firstServe : option Side) (formData : FormData)
    : list string :=
  if isSide firstServe A
  then [orDefault (teamB1 formData) "Team B.1";
        orDefault (teamB2 formData) "Team B.2"]
  else [orDefault (teamA1 formData) "Team A.1";
        orDefault (teamA2 formData) "Team A.2"].

(** [handleStart]: the action dispatched through [onStartMatch], which the
    page wires to [handleStartMatch]; [None] when the handler returns
    without calling it. *)
Definition handleStart (mode : Mode) (firstServe : option Side)
    (scoringSystem : option Z) (formData : FormData)
    (firstServerName firstReceiverName : string) : option MatchAction :=
  match firstServe with
  | None => None
  | Some side =>
      if noScoring scoringSystem then None
      else
        let players := formPlayers mode formData in
        match mode with
        | single =>
            let serveName :=
              if side_eqb side A then at_ (teamA players) 0
              else at_ (teamB players) 0 in
            let receiverName :=
              if side_eqb side A then at_ (teamB players) 0
              else at_ (teamA players) 0 in
            Some (handleStartMatch players side serveName receiverName
                                   scoringSystem)
        | ganda =>
            if isBlank firstServerName || isBlank firstReceiverName
            then None
            else Some (handleStartMatch players side (Str firstServerName)
                                        (Str firstReceiverName)
                                        scoringSystem)
        end
  end.

End NewMatchModal.

(* ------------------------------------------------------------------ *)
(** ** The clock ([useTimer.formatTime], [formatDuration]) *)
(* ------------------------------------------------------------------ *)

(** [String(n)] for an integer [n] (below the magnitude at which a JS
    number is printed with an exponent). *)
Definition jsString (n : Z) : string := NilZero.string_of_int (Z.to_int n).

(** [s.padStart(targetLength, c)] for a one-character filler [c]. *)
Definition padStart (targetLength : nat) (c : ascii) (s : string) : string :=
  string_of_list_ascii (List.repeat c (targetLength - String.length s))
  ++ s.

Definition formatTime (seconds : Z) : string :=
  let hrs := padStart 2 "0" (jsString (seconds / 3600)) in
  let mins := padStart 2 "0" (jsString (Z.rem seconds 3600 / 60)) in
  let secs := padStart 2 "0" (jsString (Z.rem seconds 60)) in
  hrs ++ ":" ++ mins ++ ":" ++ secs.

Definition formatDuration (seconds : Z) : string :=
  let hrs := padStart 2 "0" (jsString (seconds / 3600)) in
  let mins := padStart 2 "0" (jsString (Z.rem seconds 3600 / 60)) in
  hrs ++ ":" ++ mins.

(** Reading a clock back: the value of a decimal digit, of two digits, and
    of a string [HH:MM:SS] in seconds. *)
Definition digitValue (c : ascii) : option Z :=
  let n := Z.of_nat (nat_of_ascii c) in
  if (48 <=? n) && (n <=? 57) then Some (n - 48) else None.

Definition twoDigits (hi lo : ascii) : option Z :=
  match digitValue hi, digitValue lo with
  | Some h, Some l => Some (10 * h + l)
  | _, _ => None
  end.

Definition readClock (s : string) : option Z :=
  match s with
  | String h1 (String h2 (String sep1 (String m1 (String m2
      (String sep2 (String s1 (String s2 EmptyString))))))) =>
      if Ascii.eqb sep1 ":" && Ascii.eqb sep2 ":" then
        match twoDigits h1 h2, twoDigits m1 m2, twoDigits s1 s2 with
        | Some h, Some m, Some sec => Some (h * 3600 + m * 60 + sec)
        | _, _, _ => None
        end
      else None
  | _ => None
  end.

(** The decimal digit of a value below ten. *)
Definition digitChar (d : Z) : ascii := ascii_of_nat (48 + Z.to_nat d).

(* ------------------------------------------------------------------ *)
(** ** Vocabulary of the set counters *)
(* ------------------------------------------------------------------ *)

(** The number of recorded games won by the side [sd]. *)
Definition setsWonBy (sd : Side) (history : list GameSnapshot.t) : Z :=
  len (filter (fun g => isSide (GameSnapshot.winnerSide g) sd) history).

Definition isReset (a : MatchAction) : bool :=
  match a with
  | RESET_HISTORY => true
  | _ => false
  end.

(** The set counters against the match history: equal to the recorded wins
    ([exact]) or at least the recorded wins; every recorded game has a
    winner; every snapshot of the undo stack carries the current set
    counters. *)
Definition setsLedger (exact : bool) (s : MatchState) : Prop :=
  (if exact
   then setsA s = setsWonBy A (matchHistory s)
        /\ setsB s = setsWonBy B (matchHistory s)
   else setsWonBy A (matchHistory s) <= setsA s
        /\ setsWonBy B (matchHistory s) <= setsB s)
  /\ setsWonBy A (matchHistory s) + setsWonBy B (matchHistory s)
     = len (matchHistory s)
  /\ Forall (fun p => PointSnapshot.setsA p = setsA s
                      /\ PointSnapshot.setsB p = setsB s)
            (currentSetPointHistory s).

(** A doubles match to 15: side A wins the first set 15-13, then [UNDO]. *)
Definition setCounterRun : list MatchAction :=
  START_MATCH doublesPlayers A (Str "Ann") (Str "Cat") (Some 15) 0
  :: setWonOnReturn ++ [UNDO].

(* ================================================================== *)
(** * Properties *)
(* ================================================================== *)

(* ------------------------------------------------------------------ *)
(** ** Basic facts about the array helpers *)
(* ------------------------------------------------------------------ *)

Lemma strictEq_true (x y : jsval) : strictEq x y = true <-> x = y.
Proof.
  unfold strictEq. destruct (jsval_eq_dec x y); split; congruence.
Qed.

Lemma strictEq_refl (x : jsval) : strictEq x x = true.
Proof. apply strictEq_true. reflexivity. Qed.

Lemma strictEq_false (x y : jsval) : strictEq x y = false <-> x <> y.
Proof.
  unfold strictEq. destruct (jsval_eq_dec x y); split; congruence.
Qed.

Lemma side_eqb_true (x y : Side) : side_eqb x y = true <-> x = y.
Proof.
  unfold side_eqb. destruct (Side_eq_dec x y); split; congruence.
Qed.

Lemma includes_In (l : list jsval) (v : jsval) :
  includes l v = true <-> In v l.
Proof.
  unfold includes. rewrite existsb_exists. split.
  - intros [x [Hin Heq]]. apply strictEq_true in Heq. now subst.
  - intros Hin. exists v. split; [assumption | apply strictEq_refl].
Qed.

Lemma isEven_even (n : Z) : isEven n = Z.even n.
Proof.
  unfold isEven. destruct (Z.even n) eqn:E.
  - apply Z.even_spec in E. destruct E as [k ->].
    apply Z.eqb_eq. rewrite Z.mul_comm. apply Z.rem_mul. lia.
  - apply Z.eqb_neq. intros R.
    assert (Hq : n = 2 * Z.quot n 2 + Z.rem n 2) by (apply Z.quot_rem'; lia).
    rewrite R, Z.add_0_r in Hq.
    assert (Z.even n = true) by (apply Z.even_spec; now exists (Z.quot n 2)).
    congruence.
Qed.

Lemma len_app {T : Type} (l r : list T) : len (l ++ r) = len l + len r.
Proof. unfold len. rewrite length_app. lia. Qed.

Lemma len_nonneg {T : Type} (l : list T) : 0 <= len l.
Proof. unfold len. lia. Qed.

Lemma len_zero {T : Type} (l : list T) : len l = 0 <-> l = [].
Proof.
  unfold len. destruct l; simpl; split; intros; try reflexivity;
    try discriminate; lia.
Qed.

Lemma players_eta (p : Players) : mkPlayers (teamA p) (teamB p) = p.
Proof. destruct p; reflexivity. Qed.

(* ------------------------------------------------------------------ *)
(** ** Set completion *)
(* ------------------------------------------------------------------ *)

Lemma isSetFinished_spec (s : MatchState) (side : Side) (cap : Z) :
  isSetFinished s side cap = true <-> completionPredicate s side cap.
Proof.
  unfold isSetFinished, completionPredicate, sideCompletes.
  rewrite !orb_true_iff, !andb_true_iff, !Z.geb_le, !Z.eqb_eq.
  lia.
Qed.

Lemma isSetFinished_false (s : MatchState) (side : Side) (cap : Z) :
  isSetFinished s side cap = false <-> ~ completionPredicate s side cap.
Proof.
  rewrite <- isSetFinished_spec.
  destruct (isSetFinished s side cap); split; congruence.
Qed.

Lemma incrementFinished_marked (s : MatchState) (side : Side) (time : Z) :
  markedFinished s (incrementFinished s side time).
Proof.
  exists (finishData s side time), (winnerSide s side).
  unfold incrementFinished, finishData, setsOf.
  cbn [setFinishData matchHistory setsA setsB GameSnapshot.winnerSide].
  destruct (winnerSide s side); cbn; repeat split; lia.
Qed.

Lemma incrementInProgress_not_marked (s : MatchState) (side : Side) :
  ~ markedFinished s (incrementInProgress s side).
Proof.
  intros (data & w & _ & Hhist & _). simpl in Hhist.
  apply (f_equal (@List.length _)) in Hhist.
  rewrite length_app in Hhist. simpl in Hhist. lia.
Qed.

Lemma newPoints_scoreAfterPoint (s : MatchState) (side : Side) :
  newPointsA s side = scoreAfterPoint s side A
  /\ newPointsB s side = scoreAfterPoint s side B.
Proof. destruct side; split; reflexivity. Qed.

Lemma completionPredicate_scores (s : MatchState) (side : Side) (cap : Z) :
  completionPredicate s side cap
  <-> setCompleteAt (scoringSystem s) cap
        (scoreAfterPoint s side A) (scoreAfterPoint s side B).
Proof.
  unfold completionPredicate, setCompleteAt.
  destruct (newPoints_scoreAfterPoint s side) as [-> ->]. tauto.
Qed.

(** C1. An [INCREMENT] for the side [side] marks the set as finished
    (set-finished slot filled, the game snapshot appended to the completed
    sets, the winner's set counter incremented) exactly when the scores with
    the point added, [pointsA + 1]-[pointsB] for side A and
    [pointsA]-[pointsB + 1] for side B, satisfy the completion predicate:
    target reached with a margin of two, or the hard cap reached, by either
    side.  Either way the stored scores are the scores with the point added.
    When the set is finished, the game snapshot holds these scores and names
    as winner the side with the higher of them, and that side's counter
    alone goes up by one; when it is not, the slot, the completed sets and
    both counters stay as they were.  If the set was not yet complete at
    the score before the point (target not above the cap), the winner is
    the side that scored, and it is this side that satisfies the
    predicate. *)
Theorem C1_set_finished_iff_completion
    (s : MatchState) (side : Side) (cap time : Z) :
  let s' := matchReducer s (INCREMENT side cap time) in
  let a := scoreAfterPoint s side A in
  let b := scoreAfterPoint s side B in
  let complete := setCompleteAt (scoringSystem s) cap a b in
  let w := if a >? b then A else B in
  pointsA s' = a /\ pointsB s' = b
  /\ (markedFinished s s' <-> complete)
  /\ (complete ->
      exists data : GameSnapshot.t,
        setFinishData s' = Some data
        /\ matchHistory s' = matchHistory s ++ [data]
        /\ GameSnapshot.pointsA data = a
        /\ GameSnapshot.pointsB data = b
        /\ GameSnapshot.winnerSide data = Some w
        /\ setsOf w s' = setsOf w s + 1
        /\ setsOf (otherSide w) s' = setsOf (otherSide w) s)
  /\ (~ complete ->
      setFinishData s' = setFinishData s
      /\ matchHistory s' = matchHistory s
      /\ setsA s' = setsA s
      /\ setsB s' = setsB s)
  /\ (complete ->
      ~ setCompleteAt (scoringSystem s) cap (pointsA s) (pointsB s) ->
      scoringSystem s <= cap ->
      w = side
      /\ sideCompletes (scoringSystem s) cap
           (scoreAfterPoint s side side)
           (scoreAfterPoint s side (otherSide side))).
Proof.
  intros s' a b complete w.
  destruct (newPoints_scoreAfterPoint s side) as [HA HB].
  fold a in HA. fold b in HB.
  assert (Hfin : isSetFinished s side cap = true <-> complete).
  { rewrite isSetFinished_spec. apply completionPredicate_scores. }
  assert (Hs' : s' = if isSetFinished s side cap
                     then incrementFinished s side time
                     else incrementInProgress s side) by reflexivity.
  assert (Hw : winnerSide s side = w).
  { unfold winnerSide. now rewrite HA, HB. }
  destruct (isSetFinished s side cap) eqn:Fin.
  - assert (Hc : complete) by now apply Hfin.
    rewrite Hs'.
    split; [exact HA|]. split; [exact HB|].
    split; [split; [intros _; exact Hc
                   | intros _; apply incrementFinished_marked]|].
    split.
    { intros _. exists (finishData s side time).
      cbn [incrementFinished setFinishData matchHistory finishData
           GameSnapshot.pointsA GameSnapshot.pointsB
           GameSnapshot.winnerSide].
      rewrite Hw.
      split; [reflexivity|]. split; [reflexivity|].
      split; [exact HA|]. split; [exact HB|]. split; [reflexivity|].
      unfold setsOf. cbn [incrementFinished setsA setsB]. rewrite Hw.
      destruct w; cbn; split; lia. }
    split; [intros Hnot; contradiction|].
    intros _ Hbefore Hcap.
    unfold complete, setCompleteAt, sideCompletes in Hc.
    unfold setCompleteAt, sideCompletes in Hbefore.
    subst w a b. unfold sideCompletes.
    destruct side; cbn [scoreAfterPoint otherSide] in *.
    + destruct (Z.gtb_spec (pointsA s + 1) (pointsB s));
        split; try reflexivity; lia.
    + destruct (Z.gtb_spec (pointsA s) (pointsB s + 1));
        split; try reflexivity; lia.
  - assert (Hc : ~ complete).
    { intros Hc. apply Hfin in Hc. discriminate Hc. }
    rewrite Hs'.
    split; [exact HA|]. split; [exact HB|].
    split; [split; [intros Hm; exfalso;
                    exact (incrementInProgress_not_marked s side Hm)
                   | intros H; contradiction]|].
    split; [intros H; contradiction|].
    split; [intros _; repeat split | intros H; contradiction].
Qed.

Lemma C1_set_finished_iff_completion_witness :
  setCompleteAt (scoringSystem beforeLastPointB) 21
    (scoreAfterPoint beforeLastPointB B A)
    (scoreAfterPoint beforeLastPointB B B)
  /\ exists data : GameSnapshot.t,
       setFinishData (matchReducer beforeLastPointB (INCREMENT B 21 60))
       = Some data
       /\ GameSnapshot.winnerSide data = Some B.
Proof.
  assert (Htarget : scoringSystem beforeLastPointB = 15)
    by (vm_compute; reflexivity).
  assert (HA : scoreAfterPoint beforeLastPointB B A = 0)
    by (vm_compute; reflexivity).
  assert (HB : scoreAfterPoint beforeLastPointB B B = 15)
    by (vm_compute; reflexivity).
  assert (Hc : setCompleteAt (scoringSystem beforeLastPointB) 21
                 (scoreAfterPoint beforeLastPointB B A)
                 (scoreAfterPoint beforeLastPointB B B)).
  { rewrite Htarget, HA, HB. right. left. lia. }
  split; [exact Hc|].
  destruct (proj1 (proj2 (proj2 (proj2
              (C1_set_finished_iff_completion beforeLastPointB B 21 60))))
              Hc)
    as (data & Hslot & _ & _ & _ & Hwinner & _).
  exists data. split; [exact Hslot|].
  rewrite Hwinner, HA, HB. reflexivity.
Defined.

(* ------------------------------------------------------------------ *)
(** ** Undo *)
(* ------------------------------------------------------------------ *)

Lemma restore_createSnapshot (s s' : MatchState) :
  matchHistory s' = matchHistory s ->
  serveOrder s' = serveOrder s ->
  scoringSystem s' = scoringSystem s ->
  currentSetStartTime s' = currentSetStartTime s ->
  setFinishData s' = setFinishData s ->
  receiverOffsetA s' = receiverOffsetA s ->
  receiverOffsetB s' = receiverOffsetB s ->
  lastTwoPointWinners s' = lastTwoPointWinners s ->
  restore s' (createSnapshot s) (currentSetPointHistory s) = s.
Proof.
  intros. unfold restore, createSnapshot. simpl.
  rewrite players_eta. destruct s; simpl in *. congruence.
Qed.

(** C2. Undoing a point that did not complete the set gives back the state
    before the point, in every field. *)
Theorem C2_undo_after_increment
    (s : MatchState) (side : Side) (cap time : Z) :
  ~ completionPredicate s side cap ->
  matchReducer (matchReducer s (INCREMENT side cap time)) UNDO = s.
Proof.
  intros Hnot. apply isSetFinished_false in Hnot.
  simpl. unfold increment. rewrite Hnot.
  unfold undo. cbn [currentSetPointHistory incrementInProgress].
  rewrite len_app.
  pose proof (len_nonneg (currentSetPointHistory s)) as Hlen.
  destruct (Z.eqb_spec (len (currentSetPointHistory s)
                        + len [createSnapshot s]) 0) as [E|_].
  - unfold len in E. simpl in E. unfold len in Hlen. lia.
  - unfold lastElem, slice_0_m1.
    rewrite last_last, removelast_last.
    apply restore_createSnapshot; reflexivity.
Qed.

(** C9. With an empty current-set history [UNDO] returns the state as it
    is, and so does a second [UNDO]. *)
Theorem C9_undo_empty_history (s : MatchState) :
  currentSetPointHistory s = [] ->
  matchReducer s UNDO = s
  /\ matchReducer (matchReducer s UNDO) UNDO = matchReducer s UNDO.
Proof.
  intros Hempty.
  assert (Hundo : undo s = s) by (unfold undo; now rewrite Hempty).
  simpl. now rewrite !Hundo.
Qed.

(* ------------------------------------------------------------------ *)
(** ** The receiver offsets *)
(* ------------------------------------------------------------------ *)

Lemma offsets_step (s : MatchState) (a : MatchAction) :
  receiverOffsetA s = 0 /\ receiverOffsetB s = 0 ->
  receiverOffsetA (matchReducer s a) = 0
  /\ receiverOffsetB (matchReducer s a) = 0.
Proof.
  intros [HA HB]. destruct a; simpl; auto.
  - unfold increment. destruct (isSetFinished s side maxPoint); simpl; auto.
  - unfold undo. destruct (len (currentSetPointHistory s) =? 0); simpl; auto.
Qed.

(** C10. Whatever actions are replayed from [initialState], both receiver
    offsets are 0: no case of the reducer assigns them. *)
Theorem C10_receiver_offsets_stay_zero (actions : list MatchAction) :
  receiverOffsetA (replay initialState actions) = 0
  /\ receiverOffsetB (replay initialState actions) = 0.
Proof.
  unfold replay.
  assert (Hinit : receiverOffsetA initialState = 0
                  /\ receiverOffsetB initialState = 0) by (split; reflexivity).
  revert Hinit. generalize initialState as s.
  induction actions as [|a rest IH]; intros s Hs; simpl.
  - exact Hs.
  - apply IH. now apply offsets_step.
Qed.

Lemma C2_undo_after_increment_witness :
  ~ completionPredicate doublesStart B 21
  /\ matchReducer (matchReducer doublesStart (INCREMENT B 21 7)) UNDO
     = doublesStart.
Proof.
  assert (H : ~ completionPredicate doublesStart B 21).
  { unfold completionPredicate, sideCompletes. cbn. lia. }
  split; [exact H | exact (C2_undo_after_increment doublesStart B 21 7 H)].
Defined.

Lemma C9_undo_empty_history_witness :
  currentSetPointHistory doublesStart = []
  /\ matchReducer doublesStart UNDO = doublesStart
  /\ matchReducer (matchReducer doublesStart UNDO) UNDO
     = matchReducer doublesStart UNDO.
Proof.
  split; [reflexivity | apply C9_undo_empty_history; reflexivity].
Defined.

(* ------------------------------------------------------------------ *)
(** ** Statistics *)
(* ------------------------------------------------------------------ *)

Lemma statsStep_total (t : Z) (st : StatsLoop) (prev curr : PointSnapshot.t) :
  totalPointsPlayed (stats (statsStep t st prev curr))
  = totalPointsPlayed (stats st).
Proof. reflexivity. Qed.

Lemma statsLoopFrom_total (t : Z) (rest : list PointSnapshot.t) :
  forall (st : StatsLoop) (prev : PointSnapshot.t),
    totalPointsPlayed (stats (statsLoopFrom t st prev rest))
    = totalPointsPlayed (stats st).
Proof.
  induction rest as [|curr tl IH]; intros st prev; simpl.
  - reflexivity.
  - rewrite IH. apply statsStep_total.
Qed.

Lemma calculateGameStats_total (g : GameSnapshot.t) (t : Z) :
  totalPointsPlayed (calculateGameStats g t) = len (GameSnapshot.pointHistory g).
Proof.
  unfold calculateGameStats.
  destruct (GameSnapshot.pointHistory g) as [|first rest] eqn:Hist.
  - reflexivity.
  - now rewrite statsLoopFrom_total.
Qed.

(** C5 fails on the code.  On the completed set of scenario A (21-0) the
    point history starts at 0-0 and holds 22 snapshots, so 21 points were
    played, as many as the two sides won together; [calculateGameStats]
    reports the 22 snapshots as the total of points played, the initial
    snapshot that its own loop skips included. *)
Lemma C5_total_counts_initial_snapshot :
  exists g : GameSnapshot.t,
    setFinishData scenarioA = Some g
    /\ startsAtZero g
    /\ len (GameSnapshot.pointHistory g) - 1 = 21
    /\ totalPointsWonA (calculateGameStats g 21)
       + totalPointsWonB (calculateGameStats g 21) = 21
    /\ totalPointsPlayed (calculateGameStats g 21) = 22
    /\ totalPointsPlayed (calculateGameStats g 21)
       <> len (GameSnapshot.pointHistory g) - 1.
Proof.
  eexists. split; [vm_compute; reflexivity|].
  vm_compute. repeat split; discriminate.
Qed.

(* ------------------------------------------------------------------ *)
(** ** The position resolver during play *)
(* ------------------------------------------------------------------ *)

(** Case analysis on every name comparison of a goal. *)
Ltac case_names :=
  repeat (cbn;
          match goal with
          | |- context [strictEq ?x ?x] => rewrite (strictEq_refl x)
          | |- context [strictEq ?x ?y] =>
              let E := fresh "E" in
              destruct (strictEq x y) eqn:E;
              [apply strictEq_true in E; subst
              |apply strictEq_false in E]
          end);
  vm_compute.

Ltac two_players team :=
  let tA := fresh "tA" in
  let tB := fresh "tB" in
  destruct team as [tA tB];
  destruct tA as [|? [|? [|? ?]]]; try discriminate;
  destruct tB as [|? [|? [|? ?]]]; try discriminate.

(** C3. In doubles, away from 0-0, the resolver recomputes the pair of the
    serving side only: with an even score of that side its server stands in
    the right slot, with an odd score in the left slot, the partner in the
    other one; the pair of the other side comes back as it was passed in. *)
Theorem C3_positions_during_play
    (sd : Side) (team : Players) (serverName receiverName : jsval)
    (ptsA ptsB : Z) :
  doublesRoster team ->
  ~ (ptsA = 0 /\ ptsB = 0) ->
  let pos := getTeamPositions (Some sd) team serverName receiverName ptsA ptsB in
  let score := match sd with A => ptsA | B => ptsB end in
  let server := resolveName (teamOf sd team) serverName in
  let partner := partnerOf (teamOf sd team) server in
  teamOf (otherSide sd) pos = teamOf (otherSide sd) team
  /\ rightSlot sd pos = (if Z.even score then server else partner)
  /\ leftSlot sd pos = (if Z.even score then partner else server).
Proof.
  intros [HA HB] Hplay. two_players team. clear HA HB.
  unfold getTeamPositions. rewrite !isEven_even.
  cbn [teamA teamB len List.length Z.of_nat Z.eqb Pos.of_succ_nat Pos.succ
       Pos.eqb andb].
  destruct ((ptsA =? 0) && (ptsB =? 0)) eqn:Zero.
  { exfalso. apply Hplay. apply andb_true_iff in Zero.
    rewrite !Z.eqb_eq in Zero. exact Zero. }
  clear Zero Hplay.
  unfold resolveName, partnerOf, indexOf, includes.
  destruct sd; cbv beta zeta iota delta [teamOf otherSide teamA teamB];
    destruct (Z.even ptsA), (Z.even ptsB); case_names;
    repeat split; congruence.
Qed.

Lemma C3_positions_during_play_witness :
  doublesRoster doublesPlayers
  /\ ~ (3 = 0 /\ 2 = 0)
  /\ (let pos :=
        getTeamPositions (Some A) doublesPlayers (Str "Ben") (Str "Cat") 3 2 in
      teamB pos = [Str "Cat"; Str "Dan"]
      /\ rightSlot A pos = Str "Ann"
      /\ leftSlot A pos = Str "Ben").
Proof.
  assert (HD : doublesRoster doublesPlayers) by (split; reflexivity).
  assert (HP : ~ (3 = 0 /\ 2 = 0)) by lia.
  split; [exact HD|]. split; [exact HP|].
  exact (C3_positions_during_play A doublesPlayers (Str "Ben") (Str "Cat") 3 2
           HD HP).
Defined.

(* ------------------------------------------------------------------ *)
(** ** Serve rotation on a point in progress *)
(* ------------------------------------------------------------------ *)

Lemma rem_is_mod (a b : Z) : 0 <= a -> 0 < b -> Z.rem a b = a mod b.
Proof. intros Ha Hb. apply Z.rem_mod_nonneg; lia. Qed.

Lemma rotates_true (s : MatchState) (side : Side) :
  serveOrder s <> [] -> serverSide s <> Some side -> rotates s side = true.
Proof.
  intros Hord Hside. unfold rotates. apply andb_true_iff. split.
  - apply negb_true_iff. unfold isSide.
    destruct (serverSide s) as [p|]; [|reflexivity].
    unfold side_eqb. destruct (Side_eq_dec p side); congruence.
  - apply Z.gtb_lt. pose proof (len_nonneg (serveOrder s)) as Hlen.
    assert (len (serveOrder s) <> 0) by (now rewrite len_zero). lia.
Qed.

Lemma rotates_false (s : MatchState) (side : Side) :
  serverSide s = Some side -> rotates s side = false.
Proof.
  intros Hside. unfold rotates, isSide. rewrite Hside.
  unfold side_eqb. destruct (Side_eq_dec side side); [reflexivity|congruence].
Qed.

(** C4. On a point that does not complete the set, with a non-empty serve
    order: when the scoring side is not the serving side, the rotation index
    advances by one modulo the length of the order, the new server is the
    entry of the order at the new index, and the new serving side is the
    side whose roster holds that server (side A when roster A has it, side B
    otherwise); when the scoring side is the serving side, index and server
    stay. *)
Theorem C4_serve_rotation
    (s : MatchState) (side : Side) (cap time : Z) :
  serveOrder s <> [] ->
  ~ completionPredicate s side cap ->
  let s' := matchReducer s (INCREMENT side cap time) in
  (serverSide s <> Some side ->
     serveIndex s' = Z.rem (serveIndex s + 1) (len (serveOrder s))
     /\ (0 <= serveIndex s ->
         serveIndex s' = (serveIndex s + 1) mod len (serveOrder s))
     /\ currentServer s' = at_ (serveOrder s) (serveIndex s')
     /\ serverSide s'
        = Some (if includes (teamA (players s)) (currentServer s')
                then A else B)
     /\ (forall sd : Side,
           In (currentServer s') (teamOf sd (players s)) ->
           ~ In (currentServer s') (teamOf (otherSide sd) (players s)) ->
           serverSide s' = Some sd))
  /\ (serverSide s = Some side ->
        serveIndex s' = serveIndex s
        /\ currentServer s' = currentServer s
        /\ serverSide s' = Some side).
Proof.
  intros Hord Hnot s'. apply isSetFinished_false in Hnot.
  assert (Hs' : s' = incrementInProgress s side).
  { subst s'. simpl. unfold increment. now rewrite Hnot. }
  rewrite Hs'. clear s' Hs'.
  cbn [incrementInProgress serveIndex currentServer serverSide].
  split.
  - intros Hside. pose proof (rotates_true s side Hord Hside) as Hrot.
    unfold newServerSide, newServer, newServeIndex. rewrite Hrot.
    repeat split.
    + intros Hidx. apply rem_is_mod; [lia|].
      pose proof (len_nonneg (serveOrder s)).
      assert (len (serveOrder s) <> 0) by (now rewrite len_zero). lia.
    + intros sd Hin Hout.
      destruct (includes (teamA (players s)) _) eqn:Inc.
      * apply includes_In in Inc. destruct sd; [reflexivity|].
        exfalso. apply Hout. exact Inc.
      * destruct sd; [|reflexivity].
        apply includes_In in Hin. simpl in Hin. congruence.
  - intros Hside. pose proof (rotates_false s side Hside) as Hrot.
    unfold newServerSide, newServer, newServeIndex. rewrite Hrot, Hside.
    repeat split.
Qed.

Lemma C4_serve_rotation_witness :
  serveOrder doublesStart <> []
  /\ ~ completionPredicate doublesStart B 21
  /\ (let s' := matchReducer doublesStart (INCREMENT B 21 9) in
      serveIndex s' = 1
      /\ currentServer s' = Str "Dan"
      /\ serverSide s' = Some B).
Proof.
  assert (HO : serveOrder doublesStart <> []) by discriminate.
  assert (HN : ~ completionPredicate doublesStart B 21).
  { unfold completionPredicate, sideCompletes. cbn. lia. }
  split; [exact HO|]. split; [exact HN|].
  destruct (C4_serve_rotation doublesStart B 21 9 HO HN) as [Hchange _].
  assert (HS : serverSide doublesStart <> Some B) by discriminate.
  destruct (Hchange HS) as (Hidx & _ & Hsrv & Hside & _).
  split; [exact Hidx|]. split; [exact Hsrv | exact Hside].
Defined.

(* ------------------------------------------------------------------ *)
(** ** The rotation order built by [START_MATCH] *)
(* ------------------------------------------------------------------ *)

Lemma at_cons_succ (x : jsval) (l : list jsval) (k : Z) :
  0 <= k -> at_ (x :: l) (k + 1) = at_ l k.
Proof.
  intros Hk. unfold at_.
  destruct (Z.ltb_spec (k + 1) 0); [lia|].
  destruct (Z.ltb_spec k 0); [lia|].
  replace (Z.to_nat (k + 1)) with (S (Z.to_nat k)) by lia. reflexivity.
Qed.

Lemma indexOf_absent (l : list jsval) (v : jsval) :
  ~ In v l -> indexOf l v = -1.
Proof.
  unfold indexOf. induction l as [|x r IH]; intros Hout; simpl.
  - reflexivity.
  - destruct (strictEq x v) eqn:E.
    + apply strictEq_true in E. exfalso. apply Hout. now left.
    + rewrite IH; [reflexivity|]. intros Hin. apply Hout. now right.
Qed.

Lemma indexOf_found (l : list jsval) (v : jsval) :
  In v l ->
  0 <= indexOf l v < len l
  /\ at_ l (indexOf l v) = v
  /\ forall j : Z, 0 <= j < indexOf l v -> at_ l j <> v.
Proof.
  unfold indexOf. induction l as [|x r IH]; intros Hin; [destruct Hin|].
  simpl. destruct (strictEq x v) eqn:E.
  - apply strictEq_true in E. subst x.
    unfold len. simpl List.length. repeat split; try lia.
  - apply strictEq_false in E.
    destruct Hin as [Hx|Hin]; [congruence|].
    destruct (IH Hin) as (Hrange & Hat & Hfirst).
    destruct (Z.ltb_spec (findIndex (fun p => strictEq p v) r) 0); [lia|].
    unfold len in *. simpl List.length. repeat split; try lia.
    + rewrite at_cons_succ by lia. exact Hat.
    + intros j Hj. destruct (Z.eq_dec j 0) as [->|Hnz].
      * exact E.
      * replace j with ((j - 1) + 1) by lia.
        rewrite at_cons_succ by lia. apply Hfirst. lia.
Qed.

(** Permutations of short explicit lists: the head of the left list is
    looked up in the right one. *)
Lemma perm_ins1 (a x : jsval) (l r : list jsval) :
  Permutation l (x :: r) -> Permutation (a :: l) (x :: a :: r).
Proof. intros H. exact (Permutation_cons_app [x] r a H). Qed.

Lemma perm_ins2 (a x y : jsval) (l r : list jsval) :
  Permutation l (x :: y :: r) -> Permutation (a :: l) (x :: y :: a :: r).
Proof. intros H. exact (Permutation_cons_app [x; y] r a H). Qed.

Lemma perm_ins3 (a x y z : jsval) (l r : list jsval) :
  Permutation l (x :: y :: z :: r) ->
  Permutation (a :: l) (x :: y :: z :: a :: r).
Proof. intros H. exact (Permutation_cons_app [x; y; z] r a H). Qed.

Ltac perm_short :=
  repeat first
    [ apply Permutation_refl
    | apply perm_skip
    | apply perm_ins1
    | apply perm_ins2
    | apply perm_ins3 ].

Lemma startRotation_doubles (newPlayers : Players) (firstServe : Side)
    (firstServerName firstReceiverName : jsval) :
  doublesRoster newPlayers ->
  let serving := teamOf firstServe newPlayers in
  let receiving := teamOf (otherSide firstServe) newPlayers in
  let server := resolveName serving firstServerName in
  let receiver := resolveName receiving firstReceiverName in
  startRotation newPlayers firstServe firstServerName firstReceiverName
  = [server; partnerOf receiving receiver; partnerOf serving server; receiver]
  /\ Permutation
       (startRotation newPlayers firstServe firstServerName firstReceiverName)
       (teamA newPlayers ++ teamB newPlayers).
Proof.
  intros [HA HB]. two_players newPlayers. clear HA HB.
  unfold startRotation, resolveName, partnerOf, indexOf, includes.
  destruct firstServe;
    cbv beta zeta iota delta [teamOf otherSide teamA teamB];
    case_names; (split; [congruence | perm_short]).
Qed.

Lemma startRotation_singles (newPlayers : Players) (firstServe : Side)
    (firstServerName firstReceiverName : jsval) :
  singlesRoster newPlayers ->
  startRotation newPlayers firstServe firstServerName firstReceiverName
  = [resolveName (teamOf firstServe newPlayers) firstServerName;
     resolveName (teamOf (otherSide firstServe) newPlayers) firstReceiverName]
  /\ startRotation newPlayers firstServe firstServerName firstReceiverName
     = [at_ (teamOf firstServe newPlayers) 0;
        at_ (teamOf (otherSide firstServe) newPlayers) 0].
Proof.
  intros [HA HB].
  destruct newPlayers as [tA tB].
  destruct tA as [|x [|? ?]]; try discriminate.
  destruct tB as [|y [|? ?]]; try discriminate.
  unfold startRotation, resolveName, includes.
  destruct firstServe; cbv beta zeta iota delta [teamOf otherSide teamA teamB];
    case_names; split; congruence.
Qed.

(** The index kept by [START_MATCH]: [initIndex >= 0 ? initIndex : 0]. *)
Lemma startIndex_range (order : list jsval) (v : jsval) :
  order <> [] ->
  0 <= (if indexOf order v >=? 0 then indexOf order v else 0) < len order.
Proof.
  intros Hne.
  assert (Hlen : 0 < len order).
  { pose proof (len_nonneg order). assert (len order <> 0) by
      (now rewrite len_zero). lia. }
  destruct (Z.geb_spec (indexOf order v) 0) as [Hge | Hlt]; [|lia].
  destruct (in_dec jsval_eq_dec v order) as [Hin | Hout].
  - now destruct (indexOf_found order v Hin) as (Hr & _).
  - rewrite (indexOf_absent order v Hout) in Hge. lia.
Qed.

(** C7. [START_MATCH] builds, in doubles, the order
    [[Server, PartnerOfReceiver, PartnerOfServer, Receiver]]: four entries,
    the four roster players once each; in singles, [[Server, Receiver]].
    The serve index is the first position of [firstServerName] in that
    order, and 0 when the order does not have it.  [Server] and [Receiver]
    are the named players when the serving and the receiving roster have
    them, and the first entry of the roster otherwise. *)
Theorem C7_start_match_rotation
    (s0 : MatchState) (newPlayers : Players) (firstServe : Side)
    (firstServerName firstReceiverName : jsval)
    (target : option Z) (startTime : Z) :
  let s := matchReducer s0
             (START_MATCH newPlayers firstServe firstServerName
                          firstReceiverName target startTime) in
  let serving := teamOf firstServe newPlayers in
  let receiving := teamOf (otherSide firstServe) newPlayers in
  let server := resolveName serving firstServerName in
  let receiver := resolveName receiving firstReceiverName in
  (doublesRoster newPlayers ->
     serveOrder s
     = [server; partnerOf receiving receiver; partnerOf serving server;
        receiver]
     /\ len (serveOrder s) = 4
     /\ Permutation (serveOrder s) (teamA newPlayers ++ teamB newPlayers)
     /\ (NoDup (teamA newPlayers ++ teamB newPlayers) -> NoDup (serveOrder s)))
  /\ (singlesRoster newPlayers -> serveOrder s = [server; receiver])
  /\ (In firstServerName (serveOrder s) ->
        0 <= serveIndex s < len (serveOrder s)
        /\ at_ (serveOrder s) (serveIndex s) = firstServerName
        /\ forall j : Z,
             0 <= j < serveIndex s -> at_ (serveOrder s) j <> firstServerName)
  /\ (~ In firstServerName (serveOrder s) -> serveIndex s = 0).
Proof.
  cbn zeta. cbn [matchReducer startMatch serveOrder serveIndex].
  set (order := startRotation newPlayers firstServe firstServerName
                              firstReceiverName).
  fold (indexOf order firstServerName).
  split; [|split; [|split]].
  - intros HD.
    destruct (startRotation_doubles newPlayers firstServe firstServerName
                firstReceiverName HD) as [Heq HP].
    fold order in Heq, HP.
    split; [exact Heq|]. split; [rewrite Heq; reflexivity|].
    split; [exact HP|].
    intros Hnd. apply Permutation_sym in HP.
    exact (Permutation_NoDup HP Hnd).
  - intros HS.
    now destruct (startRotation_singles newPlayers firstServe firstServerName
                    firstReceiverName HS) as [Heq _].
  - intros Hin.
    destruct (indexOf_found order firstServerName Hin) as (Hr & Hat & Hfirst).
    destruct (Z.geb_spec (indexOf order firstServerName) 0); [|lia].
    split; [exact Hr|]. split; [exact Hat | exact Hfirst].
  - intros Hout.
    rewrite (indexOf_absent order firstServerName Hout). reflexivity.
Qed.

Lemma C7_start_match_rotation_witness :
  doublesRoster doublesPlayers
  /\ serveOrder doublesStart = [Str "Ann"; Str "Dan"; Str "Ben"; Str "Cat"]
  /\ len (serveOrder doublesStart) = 4
  /\ serveIndex doublesStart = 0.
Proof.
  assert (HD : doublesRoster doublesPlayers) by (split; reflexivity).
  destruct (C7_start_match_rotation initialState doublesPlayers A
              (Str "Ann") (Str "Cat") (Some 15) 0) as (Hdbl & _ & _ & _).
  destruct (Hdbl HD) as (Horder & Hlen & _).
  split; [exact HD|]. split; [exact Horder|]. split; [exact Hlen|reflexivity].
Defined.

(* ------------------------------------------------------------------ *)
(** ** Defaults stored when a set finishes *)
(* ------------------------------------------------------------------ *)

(** C6, as the code has it. When a set finishes, the default next receiver
    is taken from the losing side's pair as it stood before the point: its
    entry 0 when side A has won (side B is stored [[right, left]]), and, in
    doubles, its entry 1 when side B has won (side A is stored
    [[left, right]]): the right-court player both times. *)
Theorem C6_default_next_receiver
    (s : MatchState) (side : Side) (cap time : Z) :
  completionPredicate s side cap ->
  let s' := matchReducer s (INCREMENT side cap time) in
  exists (g : GameSnapshot.t) (w : Side),
    setFinishData s' = Some g
    /\ GameSnapshot.winnerSide g = Some w
    /\ (w = A -> currentReceiver s' = at_ (teamB (players s)) 0)
    /\ (w = B -> doublesRoster (players s) ->
        currentReceiver s' = at_ (teamA (players s)) 1)
    /\ (w = A \/ doublesRoster (players s) ->
        currentReceiver s' = rightSlot (otherSide w) (players s)).
Proof.
  intros Hfin s'. apply isSetFinished_spec in Hfin.
  assert (Hs' : s' = incrementFinished s side time).
  { subst s'. simpl. unfold increment. now rewrite Hfin. }
  rewrite Hs'. clear s' Hs'.
  exists (finishData s side time), (winnerSide s side).
  cbn [incrementFinished setFinishData currentReceiver finishData
       GameSnapshot.winnerSide].
  unfold defaultNextReceiver.
  destruct (winnerSide s side); cbn; repeat split; intros; congruence.
Qed.

Lemma C6_default_next_receiver_witness :
  completionPredicate beforeLastPointB B 21
  /\ currentReceiver (matchReducer beforeLastPointB (INCREMENT B 21 60))
     = at_ (teamA (players beforeLastPointB)) 1.
Proof.
  assert (HF : completionPredicate beforeLastPointB B 21).
  { apply isSetFinished_spec. vm_compute. reflexivity. }
  split; [exact HF|].
  destruct (C6_default_next_receiver beforeLastPointB B 21 60 HF)
    as (g & w & Hg & Hw & _ & HB & _).
  apply HB.
  - vm_compute in Hg. injection Hg as <-. vm_compute in Hw. congruence.
  - split; reflexivity.
Defined.

(** C6, as the specification has it, fails when side B wins a doubles set:
    here Ann and Ben stand [[Ann, Ben]] and have lost 0-15; the stored
    receiver is Ben, entry 1 of their pair, not Ann, its first entry. *)
Lemma C6_first_entry_counterexample :
  completionPredicate beforeLastPointB B (getMaxPoint 15)
  /\ teamA (players beforeLastPointB) = [Str "Ann"; Str "Ben"]
  /\ teamA doublesPlayers = [Str "Ann"; Str "Ben"]
  /\ currentReceiver (matchReducer beforeLastPointB (rally 15 B)) = Str "Ben"
  /\ currentReceiver (matchReducer beforeLastPointB (rally 15 B))
     <> at_ (teamA (players beforeLastPointB)) 0.
Proof.
  split.
  - apply isSetFinished_spec. vm_compute. reflexivity.
  - vm_compute. repeat split; discriminate.
Qed.

(* ------------------------------------------------------------------ *)
(** ** Server and receiver differ: the invariant of a match *)
(* ------------------------------------------------------------------ *)

Lemma samePair_In (t r : list jsval) (v : jsval) :
  samePair t r -> (In v t <-> In v r).
Proof.
  intros [-> | ->]; [reflexivity|]. symmetry. apply in_rev.
Qed.

Lemma samePair_length (t r : list jsval) :
  samePair t r -> List.length t = List.length r.
Proof. intros [-> | ->]; [reflexivity | apply length_rev]. Qed.

Lemma sameTeams_In (p r : Players) (sd : Side) (v : jsval) :
  sameTeams p r -> (In v (teamOf sd p) <-> In v (teamOf sd r)).
Proof. intros [HA HB]. destruct sd; simpl; now apply samePair_In. Qed.

Lemma sameTeams_refl (r : Players) : sameTeams r r.
Proof. split; now left. Qed.

Lemma sameTeams_singles (p r : Players) :
  sameTeams p r -> singlesRoster r -> singlesRoster p.
Proof.
  intros [HA HB] [LA LB].
  apply samePair_length in HA, HB. split; congruence.
Qed.

Lemma sameTeams_doubles (p r : Players) :
  sameTeams p r -> doublesRoster r -> doublesRoster p.
Proof.
  intros [HA HB] [LA LB].
  apply samePair_length in HA, HB. split; congruence.
Qed.

Lemma at_In (l : list jsval) (k : Z) : 0 <= k < len l -> In (at_ l k) l.
Proof.
  intros Hk. unfold at_, len in *.
  destruct (Z.ltb_spec k 0); [lia|]. apply nth_In. lia.
Qed.

Lemma at_samePair (t r : list jsval) (k : Z) :
  samePair t r -> 0 <= k < len r -> In (at_ t k) r.
Proof.
  intros HP Hk. apply (samePair_In t r (at_ t k) HP). apply at_In.
  unfold len in *. rewrite (samePair_length t r HP). exact Hk.
Qed.

Lemma at_outside (l : list jsval) (k : Z) : len l <= k -> at_ l k = Undefined.
Proof.
  intros Hk. unfold at_, len in *.
  destruct (Z.ltb_spec k 0); [reflexivity|]. apply nth_overflow. lia.
Qed.

Lemma teamOf_app (r : Players) (sd : Side) (v : jsval) :
  In v (teamOf sd r) -> In v (teamA r ++ teamB r).
Proof. destruct sd; simpl; intros H; apply in_or_app; auto. Qed.

Lemma roster_isName (r : Players) (sd : Side) (v : jsval) :
  validRosters r -> In v (teamOf sd r) -> isName v.
Proof.
  intros (_ & Hnames & _) Hin. rewrite Forall_forall in Hnames.
  apply Hnames. now apply teamOf_app with sd.
Qed.

Lemma sides_disjoint (r : Players) (sd : Side) (x y : jsval) :
  validRosters r ->
  In x (teamOf sd r) -> In y (teamOf (otherSide sd) r) -> x <> y.
Proof.
  intros (_ & _ & Hnd) Hx Hy Heq. subst y.
  destruct r as [tA tB]. simpl in Hnd.
  assert (Hboth : In x tA -> In x tB -> False).
  { intros HA HB. apply in_split in HA. destruct HA as (l1 & l2 & ->).
    rewrite <- app_assoc in Hnd. simpl in Hnd.
    apply NoDup_remove_2 in Hnd. apply Hnd.
    rewrite app_assoc. apply in_or_app. now right. }
  destruct sd; simpl in Hx, Hy; auto.
Qed.

Lemma roster_shape (p r : Players) :
  validRosters r -> sameTeams p r ->
  (len (teamA p) =? 1) = true /\ singlesRoster r
  \/ (len (teamA p) =? 1) = false /\ doublesRoster r.
Proof.
  intros ([HS | HD] & _) HT.
  - left. split; [|exact HS].
    destruct (sameTeams_singles p r HT HS) as [LA _].
    unfold len. now rewrite LA.
  - right. split; [|exact HD].
    destruct (sameTeams_doubles p r HT HD) as [LA _].
    unfold len. now rewrite LA.
Qed.

Ltac pair_orders :=
  unfold sameTeams, samePair; cbn [teamA teamB rev app]; auto.

Lemma getTeamPositions_sameTeams (sd : option Side) (p r : Players)
    (serverName receiverName : jsval) (ptsA ptsB : Z) :
  doublesRoster r -> sameTeams p r ->
  sameTeams (getTeamPositions sd p serverName receiverName ptsA ptsB) r.
Proof.
  intros [LA LB] [HA HB]. two_players r. clear LA LB.
  destruct p as [pA pB]. cbn [teamA teamB] in HA, HB.
  cbv beta zeta delta [getTeamPositions].
  generalize (isEven ptsA) (isEven ptsB) ((ptsA =? 0) && (ptsB =? 0)).
  intros evenA evenB zero.
  unfold indexOf.
  destruct HA as [-> | ->], HB as [-> | ->];
    destruct sd as [[|]|], evenA, evenB, zero;
    case_names; pair_orders.
Qed.

Lemma order_entry (r : Players) (order : list jsval) (k : Z) :
  Forall (fun v => In v (teamA r ++ teamB r)) order ->
  0 <= k < len order ->
  In (at_ order k) (teamA r ++ teamB r).
Proof.
  intros Hall Hk. rewrite Forall_forall in Hall. apply Hall. now apply at_In.
Qed.

Lemma rem_range (i n : Z) : 0 <= i -> 0 < n -> 0 <= Z.rem (i + 1) n < n.
Proof.
  intros Hi Hn. rewrite rem_is_mod by lia. apply Z.mod_pos_bound. exact Hn.
Qed.

(** The side computed from a player of the match is the side of that
    player. *)
Lemma side_of_player (r p : Players) (v : jsval) :
  sameTeams p r ->
  In v (teamA r ++ teamB r) ->
  onSide r (Some (if includes (teamA p) v then A else B)) v.
Proof.
  intros HT Hin. destruct (includes (teamA p) v) eqn:Inc; simpl.
  - apply includes_In in Inc. now apply (sameTeams_In p r A v HT).
  - apply in_app_or in Hin. destruct Hin as [HA | HB]; [|exact HB].
    apply (sameTeams_In p r A v HT) in HA. apply includes_In in HA.
    simpl in HA. congruence.
Qed.

Lemma newServer_onSide (r : Players) (s : MatchState) (side : Side) :
  stateOk r s -> setFinishData s = None ->
  onSide r (Some (newServerSide s side)) (newServer s side)
  /\ 0 <= newServeIndex s side < len (serveOrder s).
Proof.
  intros (HT & _ & Hside & Hord & Hidx & _) Hnone. specialize (Hside Hnone).
  unfold newServerSide, newServer, newServeIndex.
  destruct (rotates s side) eqn:Rot.
  - assert (Hnew : 0 <= Z.rem (serveIndex s + 1) (len (serveOrder s))
                   < len (serveOrder s)) by (apply rem_range; lia).
    split; [|exact Hnew].
    apply side_of_player; [exact HT|]. now apply order_entry.
  - split; [|exact Hidx].
    destruct (serverSide s) as [x|]; [exact Hside | destruct Hside].
Qed.

(** The receiver of a point in progress stands on the side opposite to the
    new serving side. *)
Lemma newReceiver_otherSide (r : Players) (s : MatchState) (side : Side) :
  validRosters r -> stateOk r s ->
  sameTeams (players (incrementInProgress s side)) r
  /\ In (currentReceiver (incrementInProgress s side))
        (teamOf (otherSide (newServerSide s side)) r).
Proof.
  intros Hvalid Hok. destruct Hok as (HT & _).
  cbn [incrementInProgress players currentReceiver].
  destruct (roster_shape (players s) r Hvalid HT) as [[-> HS] | [-> HD]].
  - split; [exact HT|]. destruct HT as [HA HB], HS as [LA LB].
    destruct (newServerSide s side); cbn -[at_];
      apply at_samePair; try assumption; unfold len; lia.
  - pose proof (getTeamPositions_sameTeams (Some side) (players s) r
                  (newServer s side) (currentReceiver s)
                  (newPointsA s side) (newPointsB s side) HD HT) as HT'.
    split; [exact HT'|]. destruct HT' as [HA HB], HD as [LA LB].
    destruct (newServerSide s side),
             (isEven (newPointsA s side)), (isEven (newPointsB s side));
      cbn -[at_];
      apply at_samePair; try assumption; unfold len; lia.
Qed.

Lemma createSnapshot_ok (r : Players) (s : MatchState) :
  stateOk r s -> setFinishData s = None ->
  snapshotOk r (serveOrder s) (createSnapshot s).
Proof.
  intros (HT & Hneq & Hside & _ & Hidx & _) Hnone.
  unfold snapshotOk, createSnapshot. simpl. rewrite players_eta.
  split; [exact HT|]. split; [exact Hneq|]. split; [now apply Hside|exact Hidx].
Qed.

Lemma incrementInProgress_ok (r : Players) (s : MatchState) (side : Side) :
  validRosters r -> stateOk r s -> setFinishData s = None ->
  stateOk r (incrementInProgress s side).
Proof.
  intros Hvalid Hok Hnone.
  destruct (newServer_onSide r s side Hok Hnone) as [Hsrv Hidx'].
  destruct (newReceiver_otherSide r s side Hvalid Hok) as [HT' Hrcv].
  pose proof (createSnapshot_ok r s Hok Hnone) as Hsnap.
  destruct Hok as (HT & Hneq & Hside & Hord & Hidx & Hhist).
  unfold stateOk. split; [exact HT'|].
  cbn [incrementInProgress currentServer currentReceiver serverSide
       setFinishData serveOrder serveIndex currentSetPointHistory] in *.
  split; [|split; [|split; [|split]]].
  - exact (sides_disjoint r _ _ _ Hvalid Hsrv Hrcv).
  - intros _. exact Hsrv.
  - exact Hord.
  - exact Hidx'.
  - apply Forall_app. split; [exact Hhist | now constructor].
Qed.

Lemma sameTeams_teamOf (p r : Players) (sd : Side) :
  sameTeams p r -> samePair (teamOf sd p) (teamOf sd r).
Proof. intros [HA HB]. now destruct sd. Qed.

Lemma roster_nonempty (r : Players) (sd : Side) :
  validRosters r -> 0 < len (teamOf sd r).
Proof.
  intros ([[LA LB] | [LA LB]] & _); destruct sd; unfold len; simpl; lia.
Qed.

Lemma defaultNextServer_winner (r : Players) (s : MatchState) (side : Side) :
  validRosters r -> sameTeams (players s) r ->
  In (defaultNextServer s side) (teamOf (winnerSide s side) r).
Proof.
  intros Hvalid HT. unfold defaultNextServer. cbv zeta.
  match goal with
  | |- context [includes ?team ?chosen] =>
      destruct (includes team chosen) eqn:Inc
  end; cbn [negb].
  - apply includes_In in Inc.
    now apply (sameTeams_In (players s) r (winnerSide s side) _ HT).
  - apply at_samePair; [now apply sameTeams_teamOf|].
    pose proof (roster_nonempty r (winnerSide s side) Hvalid). lia.
Qed.

Lemma defaultNextReceiver_differs (r : Players) (s : MatchState)
    (side : Side) (v : jsval) :
  validRosters r -> sameTeams (players s) r ->
  In v (teamOf (winnerSide s side) r) ->
  v <> defaultNextReceiver s side.
Proof.
  intros Hvalid HT Hin. unfold defaultNextReceiver. cbv zeta.
  pose proof (sameTeams_teamOf (players s) r (otherSide (winnerSide s side)) HT)
    as HP.
  destruct (winnerSide s side) eqn:W; cbn -[at_] in *.
  - apply (sides_disjoint r A _ _ Hvalid Hin).
    apply at_samePair; [exact HP|].
    pose proof (roster_nonempty r B Hvalid). simpl in *. lia.
  - destruct Hvalid as ([[LA LB] | [LA LB]] & Hrest).
    + rewrite at_outside.
      * pose proof (roster_isName r B v
                      (conj (or_introl (conj LA LB)) Hrest) Hin) as Hname.
        intros ->. exact Hname.
      * pose proof (samePair_length _ _ HP) as HL. cbn in HL.
        unfold len. lia.
    + apply (sides_disjoint r B _ _
               (conj (or_intror (conj LA LB)) Hrest) Hin).
      apply at_samePair; [exact HP|].
      cbn [teamOf otherSide]. unfold len. lia.
Qed.

Lemma incrementFinished_ok (r : Players) (s : MatchState) (side : Side)
    (time : Z) :
  validRosters r -> stateOk r s -> stateOk r (incrementFinished s side time).
Proof.
  intros Hvalid (HT & _ & _ & Hord & Hidx & _).
  unfold stateOk.
  cbn [incrementFinished players currentServer currentReceiver serverSide
       setFinishData serveOrder serveIndex currentSetPointHistory].
  split; [|split; [|split; [|split; [|split]]]].
  - destruct (roster_shape (players s) r Hvalid HT) as [[-> _] | [-> HD]].
    + exact HT.
    + now apply getTeamPositions_sameTeams.
  - apply defaultNextReceiver_differs with r; try assumption.
    now apply defaultNextServer_winner.
  - discriminate.
  - exact Hord.
  - exact Hidx.
  - constructor.
Qed.

Lemma increment_ok (r : Players) (s : MatchState) (side : Side)
    (cap time : Z) :
  validRosters r -> stateOk r s -> setFinishData s = None ->
  stateOk r (increment s side cap time).
Proof.
  intros Hvalid Hok Hnone. unfold increment.
  destruct (isSetFinished s side cap).
  - now apply incrementFinished_ok.
  - now apply incrementInProgress_ok.
Qed.

Lemma undo_ok (r : Players) (s : MatchState) :
  stateOk r s -> stateOk r (undo s).
Proof.
  intros Hok. unfold undo.
  destruct (len (currentSetPointHistory s) =? 0) eqn:Empty; [exact Hok|].
  destruct Hok as (_ & _ & _ & Hord & _ & Hhist).
  assert (Hne : currentSetPointHistory s <> []).
  { intros E. rewrite E in Empty. discriminate. }
  destruct (exists_last Hne) as (rest & p0 & Hist).
  rewrite Hist in Hhist |- *. clear Empty Hne Hist.
  apply Forall_app in Hhist. destruct Hhist as [Hrest Hlast].
  inversion Hlast as [|? ? (HT & Hneq & Hside & Hidx) _]; subst.
  unfold lastElem, slice_0_m1. rewrite last_last, removelast_last.
  unfold stateOk, restore. simpl.
  split; [exact HT|]. split; [exact Hneq|]. split; [intros _; exact Hside|].
  split; [exact Hord|]. split; [exact Hidx | exact Hrest].
Qed.

Lemma resetHistory_ok (r : Players) (s : MatchState) :
  stateOk r s -> stateOk r (resetHistory s).
Proof. intros Hok. exact Hok. Qed.

Lemma members_same (p r : Players) (v : jsval) :
  sameTeams p r ->
  (In v (teamA p ++ teamB p) <-> In v (teamA r ++ teamB r)).
Proof.
  intros [HA HB]. rewrite !in_app_iff.
  rewrite (samePair_In (teamA p) (teamA r) v HA).
  rewrite (samePair_In (teamB p) (teamB r) v HB). reflexivity.
Qed.

Lemma indexOf_bounds (l : list jsval) (v : jsval) :
  -1 <= indexOf l v < len l \/ (indexOf l v = -1 /\ l = []).
Proof.
  destruct (in_dec jsval_eq_dec v l) as [Hin | Hout].
  - left. destruct (indexOf_found l v Hin) as (Hr & _). lia.
  - rewrite (indexOf_absent l v Hout). destruct l as [|x rest].
    + right. now split.
    + left. unfold len. simpl List.length. lia.
Qed.

(** The partner read at [1 - idx] is a player of the pair. *)
Lemma partner_in_pair (team : list jsval) (v : jsval) :
  List.length team = 2%nat ->
  In (at_ team (1 - Z.max 0 (indexOf team v))) team.
Proof.
  intros L2. apply at_In.
  destruct (indexOf_bounds team v) as [Hb | [_ ->]]; [|discriminate].
  unfold len in *. rewrite L2 in *. lia.
Qed.

Lemma nextServeOrder_members (r : Players) (s : MatchState)
    (server receiver : jsval) :
  validRosters r -> sameTeams (players s) r ->
  In server (teamA r ++ teamB r) -> In receiver (teamA r ++ teamB r) ->
  Forall (fun v => In v (teamA r ++ teamB r))
         (nextServeOrder s server receiver)
  /\ 0 < len (nextServeOrder s server receiver).
Proof.
  intros Hvalid HT Hsrv Hrcv. unfold nextServeOrder. cbv zeta.
  destruct (roster_shape (players s) r Hvalid HT) as [[-> _] | [-> HD]].
  - split; [|reflexivity]. repeat constructor; assumption.
  - destruct (sameTeams_doubles (players s) r HT HD) as [LA LB].
    assert (Hgt : (len (teamA (players s)) >? 1) = true).
    { unfold len. now rewrite LA. }
    rewrite Hgt. split; [|reflexivity].
    assert (Hpartner : forall (pick : bool) (v : jsval),
              In (at_ (if pick then teamA (players s) else teamB (players s))
                      (1 - Z.max 0
                             (indexOf (if pick then teamA (players s)
                                       else teamB (players s)) v)))
                 (teamA r ++ teamB r)).
    { intros pick v. apply (members_same (players s) r _ HT).
      apply in_or_app.
      destruct pick; [left | right]; now apply partner_in_pair. }
    repeat constructor; try assumption; apply Hpartner.
Qed.

Lemma continueNextSet_ok (r : Players) (s : MatchState) (time : Z)
    (server receiver : jsval) :
  validRosters r -> stateOk r s ->
  server <> receiver ->
  In server (teamA (players s) ++ teamB (players s)) ->
  In receiver (teamA (players s) ++ teamB (players s)) ->
  stateOk r (continueNextSet s time server receiver).
Proof.
  intros Hvalid (HT & _) Hneq Hsrv Hrcv.
  apply (members_same (players s) r _ HT) in Hsrv, Hrcv.
  destruct (nextServeOrder_members r s server receiver Hvalid HT Hsrv Hrcv)
    as [Hall Hlen].
  unfold stateOk.
  cbn [continueNextSet players currentServer currentReceiver serverSide
       setFinishData serveOrder serveIndex currentSetPointHistory].
  split; [|split; [|split; [|split; [|split]]]].
  - destruct (roster_shape (players s) r Hvalid HT) as [[-> _] | [-> HD]].
    + exact HT.
    + now apply getTeamPositions_sameTeams.
  - exact Hneq.
  - intros _. now apply side_of_player.
  - exact Hall.
  - lia.
  - constructor.
Qed.

Lemma startMatch_ok (r : Players) (firstServe : Side)
    (firstServerName firstReceiverName : jsval)
    (target : option Z) (startTime : Z) :
  validStart r firstServe firstServerName firstReceiverName ->
  stateOk r (startMatch r firstServe firstServerName firstReceiverName
                        target startTime).
Proof.
  intros (Hvalid & Hsrv & Hrcv).
  assert (Hfirst : forall sd : Side, In (at_ (teamOf sd r) 0) (teamOf sd r)).
  { intros sd. apply at_In. pose proof (roster_nonempty r sd Hvalid). lia. }
  unfold stateOk.
  cbn [startMatch players currentServer currentReceiver serverSide
       setFinishData serveOrder serveIndex currentSetPointHistory
       initialState].
  fold (indexOf (startRotation r firstServe firstServerName firstReceiverName)
                firstServerName).
  destruct (roster_shape r r Hvalid (sameTeams_refl r)) as [[-> HS] | [-> HD]].
  - destruct (startRotation_singles r firstServe firstServerName
                firstReceiverName HS) as [_ Horder].
    rewrite Horder.
    assert (Hserver : (if side_eqb firstServe A then at_ (teamA r) 0
                       else at_ (teamB r) 0) = at_ (teamOf firstServe r) 0)
      by now destruct firstServe.
    assert (Hreceiver : (if side_eqb firstServe A then at_ (teamB r) 0
                         else at_ (teamA r) 0)
                        = at_ (teamOf (otherSide firstServe) r) 0)
      by now destruct firstServe.
    rewrite Hserver, Hreceiver.
    split; [apply sameTeams_refl|].
    split; [apply (sides_disjoint r firstServe); auto|].
    split; [intros _; apply Hfirst|].
    split; [repeat constructor; eapply teamOf_app; apply Hfirst|].
    split; [apply startIndex_range; discriminate | constructor].
  - destruct (startRotation_doubles r firstServe firstServerName
                firstReceiverName HD) as [Horder Hperm].
    split; [apply getTeamPositions_sameTeams;
            [exact HD | apply sameTeams_refl]|].
    split; [apply (sides_disjoint r firstServe); auto|].
    split; [intros _; exact Hsrv|].
    split.
    + apply Forall_forall. intros v Hv.
      exact (Permutation_in v Hperm Hv).
    + split; [|constructor].
      apply startIndex_range. rewrite Horder. discriminate.
Qed.

Lemma hostStep_ok (r : Players) (s : MatchState) (a : MatchAction) :
  validRosters r -> stateOk r s -> hostStep s a ->
  stateOk r (matchReducer s a).
Proof.
  intros Hvalid Hok Hstep.
  destruct Hstep as [side cap time Hnone | | | time server receiver Hneq Hs Hr];
    simpl.
  - now apply increment_ok.
  - now apply undo_ok.
  - now apply resetHistory_ok.
  - now apply continueNextSet_ok.
Qed.

Lemma reachableByHost_ok (r : Players) (start s : MatchState) :
  validRosters r -> stateOk r start -> reachableByHost start s ->
  stateOk r s.
Proof.
  intros Hvalid Hstart Hreach.
  induction Hreach as [|s a _ IH Hstep].
  - exact Hstart.
  - now apply hostStep_ok.
Qed.

(** C8, as the code has it. After a valid [START_MATCH] (distinct names, one
    or two players on both sides, first server and first receiver on their
    rosters), the receiver differs from the server in every state reached by
    [INCREMENT], [UNDO], [CONTINUE_NEXT_SET] and [RESET_HISTORY] events,
    provided a point is scored only while no finished set waits for its
    [CONTINUE_NEXT_SET], and [CONTINUE_NEXT_SET] names two different players
    of the match. *)
Theorem C8_server_differs_from_receiver
    (s0 s : MatchState) (r : Players) (firstServe : Side)
    (firstServerName firstReceiverName : jsval)
    (target : option Z) (startTime : Z) :
  validStart r firstServe firstServerName firstReceiverName ->
  reachableByHost
    (matchReducer s0 (START_MATCH r firstServe firstServerName
                                  firstReceiverName target startTime)) s ->
  currentServer s <> currentReceiver s.
Proof.
  intros Hstart Hreach.
  assert (Hok : stateOk r s).
  { apply reachableByHost_ok with (2 := startMatch_ok r firstServe
             firstServerName firstReceiverName target startTime Hstart)
          (3 := Hreach).
    now destruct Hstart. }
  now destruct Hok as (_ & Hneq & _).
Qed.

Lemma doublesStart_valid :
  validStart doublesPlayers A (Str "Ann") (Str "Cat").
Proof.
  split; [|split; simpl; auto].
  split; [right; split; reflexivity|]. split.
  - repeat constructor.
  - repeat constructor; simpl; intuition discriminate.
Defined.

Lemma C8_server_differs_from_receiver_witness :
  validStart doublesPlayers A (Str "Ann") (Str "Cat")
  /\ reachableByHost doublesStart
       (matchReducer doublesStart (INCREMENT B 21 9))
  /\ currentServer (matchReducer doublesStart (INCREMENT B 21 9))
     <> currentReceiver (matchReducer doublesStart (INCREMENT B 21 9)).
Proof.
  assert (HR : reachableByHost doublesStart
                 (matchReducer doublesStart (INCREMENT B 21 9))).
  { apply reach_step; [apply reach_start|].
    apply host_increment. reflexivity. }
  split; [exact doublesStart_valid|]. split; [exact HR|].
  exact (C8_server_differs_from_receiver initialState _ doublesPlayers A
           (Str "Ann") (Str "Cat") (Some 15) 0 doublesStart_valid HR).
Defined.

(** C8, as the specification has it, fails: after the valid doubles start,
    a sequence of [INCREMENT] events alone ends the first set 15-13 on a
    rally served by side B, then scores twice more for side B without a
    [CONTINUE_NEXT_SET] in between; Ann is then both server and receiver. *)
Lemma C8_any_sequence_counterexample :
  validStart doublesPlayers A (Str "Ann") (Str "Cat")
  /\ forallb isMatchEvent playedOn = true
  /\ setFinishData (replay doublesStart setWonOnReturn) <> None
  /\ currentServer (replay doublesStart playedOn) = Str "Ann"
  /\ currentReceiver (replay doublesStart playedOn) = Str "Ann".
Proof.
  split; [exact doublesStart_valid|].
  vm_compute. repeat split. discriminate.
Qed.

(** A [CONTINUE_NEXT_SET] naming one player twice stores that player as
    server and as receiver. *)
Lemma continueNextSet_same_player (s : MatchState) (time : Z) (v : jsval) :
  currentServer (matchReducer s (CONTINUE_NEXT_SET time v v))
  = currentReceiver (matchReducer s (CONTINUE_NEXT_SET time v v)).
Proof. reflexivity. Qed.

(* ================================================================== *)
(** * Further properties of the reducer *)
(* ================================================================== *)

(* ------------------------------------------------------------------ *)
(** ** Undo across several points and across the end of a set *)
(* ------------------------------------------------------------------ *)

Lemma undo_incrementInProgress (s : MatchState) (side : Side) :
  undo (incrementInProgress s side) = s.
Proof.
  unfold undo. cbn [currentSetPointHistory incrementInProgress].
  rewrite len_app.
  pose proof (len_nonneg (currentSetPointHistory s)) as Hlen.
  destruct (Z.eqb_spec (len (currentSetPointHistory s)
                        + len [createSnapshot s]) 0) as [E|_].
  - unfold len in E. simpl in E. unfold len in Hlen. lia.
  - unfold lastElem, slice_0_m1.
    rewrite last_last, removelast_last.
    apply restore_createSnapshot; reflexivity.
Qed.

Lemma increment_in_progress (s : MatchState) (side : Side) (cap time : Z) :
  ~ completionPredicate s side cap ->
  matchReducer s (INCREMENT side cap time) = incrementInProgress s side.
Proof.
  intros Hnot. apply isSetFinished_false in Hnot.
  simpl. unfold increment. now rewrite Hnot.
Qed.

Lemma increment_finished (s : MatchState) (side : Side) (cap time : Z) :
  completionPredicate s side cap ->
  matchReducer s (INCREMENT side cap time) = incrementFinished s side time.
Proof.
  intros Hfin. apply isSetFinished_spec in Hfin.
  simpl. unfold increment. now rewrite Hfin.
Qed.

Lemma replay_app (s : MatchState) (l1 l2 : list MatchAction) :
  replay s (l1 ++ l2) = replay (replay s l1) l2.
Proof. unfold replay. apply fold_left_app. Qed.

(** X1. The point that completes a set cannot be taken back: the finishing
    branch empties the undo stack, so the [UNDO] that follows returns the
    finished state as it is. *)
Theorem undo_after_set_finish (s : MatchState) (side : Side) (cap time : Z) :
  completionPredicate s side cap ->
  currentSetPointHistory (matchReducer s (INCREMENT side cap time)) = []
  /\ matchReducer (matchReducer s (INCREMENT side cap time)) UNDO
     = matchReducer s (INCREMENT side cap time).
Proof.
  intros Hfin. rewrite (increment_finished s side cap time Hfin).
  split; reflexivity.
Qed.

Lemma undo_after_set_finish_witness :
  completionPredicate beforeLastPointB B 21
  /\ matchReducer (matchReducer beforeLastPointB (INCREMENT B 21 60)) UNDO
     = matchReducer beforeLastPointB (INCREMENT B 21 60).
Proof.
  assert (HF : completionPredicate beforeLastPointB B 21).
  { apply isSetFinished_spec. vm_compute. reflexivity. }
  split; [exact HF|].
  exact (proj2 (undo_after_set_finish beforeLastPointB B 21 60 HF)).
Defined.

(** X2. The undo stack is last-in first-out over any number of points: after a
    run of rallies none of which completes the set, as many [UNDO]s as
    rallies give back the state the run started from. *)
Theorem undo_whole_run (s : MatchState) (cap : Z) (run : list (Side * Z)) :
  staysInProgress s cap run ->
  replay s (map (rallyAction cap) run ++ repeat UNDO (List.length run)) = s.
Proof.
  revert s. induction run as [|r rest IH]; intros s Hrun.
  - reflexivity.
  - destruct Hrun as [Hnot Hrest].
    cbn [map List.length app repeat]. rewrite repeat_cons, app_assoc.
    change (replay s (rallyAction cap r
                      :: (map (rallyAction cap) rest
                          ++ repeat UNDO (List.length rest)) ++ [UNDO]))
      with (replay (matchReducer s (rallyAction cap r))
              ((map (rallyAction cap) rest
                ++ repeat UNDO (List.length rest)) ++ [UNDO])).
    rewrite replay_app, (IH _ Hrest).
    unfold rallyAction.
    rewrite (increment_in_progress s (fst r) cap (snd r) Hnot).
    simpl. apply undo_incrementInProgress.
Qed.

Lemma undo_whole_run_witness :
  staysInProgress doublesStart 21 [(A, 5); (B, 9); (B, 14)]
  /\ replay doublesStart
       [INCREMENT A 21 5; INCREMENT B 21 9; INCREMENT B 21 14;
        UNDO; UNDO; UNDO]
     = doublesStart.
Proof.
  assert (H : staysInProgress doublesStart 21 [(A, 5); (B, 9); (B, 14)]).
  { cbn [staysInProgress]. repeat split;
      try (apply isSetFinished_false; vm_compute; reflexivity). }
  split; [exact H|].
  exact (undo_whole_run doublesStart 21 [(A, 5); (B, 9); (B, 14)] H).
Defined.

(* ------------------------------------------------------------------ *)
(** ** Defaults stored when a set finishes: the next server *)
(* ------------------------------------------------------------------ *)

Lemma last_cons_default {T : Type} (p d : T) (l : list T) :
  last (p :: l) d = last l p.
Proof.
  revert p d. induction l as [|q rest IH]; intros p d.
  - reflexivity.
  - change (last (p :: q :: rest) d) with (last (q :: rest) d).
    now rewrite (IH q d), (IH q p).
Qed.

Lemma winnersFrom_cons (prev p : PointSnapshot.t) (l : list PointSnapshot.t) :
  winnersFrom prev (p :: l) = winnersFrom prev [p] ++ winnersFrom p l.
Proof. cbn [winnersFrom]. now rewrite app_nil_r. Qed.

Lemma winnersFrom_app (prev q : PointSnapshot.t) (l : list PointSnapshot.t) :
  winnersFrom prev (l ++ [q])
  = winnersFrom prev l ++ winnersFrom (last l prev) [q].
Proof.
  revert prev. induction l as [|p rest IH]; intros prev.
  - reflexivity.
  - rewrite last_cons_default. cbn [app].
    rewrite (winnersFrom_cons prev p (rest ++ [q])).
    rewrite (winnersFrom_cons prev p rest).
    rewrite IH, <- app_assoc. reflexivity.
Qed.

Lemma winners_gameHistory (s : MatchState) (side : Side) :
  exists earlier : list Side,
    winners (gameHistory s side) = earlier ++ [side].
Proof.
  unfold gameHistory.
  replace (currentSetPointHistory s
           ++ [createSnapshot s; finalPointSnapshot s side])
    with ((currentSetPointHistory s ++ [createSnapshot s])
          ++ [finalPointSnapshot s side])
    by (rewrite <- app_assoc; reflexivity).
  assert (Hstep : winnersFrom (createSnapshot s) [finalPointSnapshot s side]
                  = [side]).
  { unfold winnersFrom, finalPointSnapshot, createSnapshot,
      newPointsA, newPointsB.
    cbn [PointSnapshot.pointsA PointSnapshot.pointsB].
    destruct side; cbn [side_eqb Side_eq_dec Side_rec Side_rect].
    - destruct (Z.gtb_spec (pointsA s + 1) (pointsA s)); [reflexivity|lia].
    - destruct (Z.gtb_spec (pointsA s) (pointsA s)); [lia|].
      destruct (Z.gtb_spec (pointsB s + 1) (pointsB s)); [reflexivity|lia]. }
  destruct (currentSetPointHistory s) as [|first rest].
  - exists []. exact Hstep.
  - cbn [app winners].
    exists (winnersFrom first (rest ++ [createSnapshot s])).
    rewrite winnersFrom_app, last_last. now rewrite Hstep.
Qed.

Lemma slice_m2_snoc (l : list Side) (x : Side) :
  slice_m2 (l ++ [x]) = [x] \/ exists y : Side, slice_m2 (l ++ [x]) = [y; x].
Proof.
  unfold slice_m2. rewrite length_app. cbn [List.length].
  destruct l as [|a rest] using rev_ind.
  - left. reflexivity.
  - right. exists a. rewrite length_app. cbn [List.length].
    replace (Datatypes.length rest + 1 + 1 - 2)%nat
      with (Datatypes.length rest + 0)%nat by lia.
    rewrite <- app_assoc. rewrite skipn_app, Nat.add_0_r.
    rewrite skipn_all, Nat.sub_diag. reflexivity.
Qed.

(** X3. The list of the last point winners kept at the end of a set has one or
    two entries, and its last entry is the side that scored the final
    point. *)
Theorem last_point_winners_end_with_scorer
    (s : MatchState) (side : Side) (cap time : Z) :
  completionPredicate s side cap ->
  let s' := matchReducer s (INCREMENT side cap time) in
  lastTwoPointWinners s' = [side]
  \/ exists previous : Side, lastTwoPointWinners s' = [previous; side].
Proof.
  intros Hfin s'. subst s'. rewrite (increment_finished s side cap time Hfin).
  cbn [incrementFinished lastTwoPointWinners].
  destruct (winners_gameHistory s side) as [earlier ->].
  apply slice_m2_snoc.
Qed.

Lemma last_point_winners_end_with_scorer_witness :
  completionPredicate beforeLastPointB B 21
  /\ lastTwoPointWinners (matchReducer beforeLastPointB (INCREMENT B 21 60))
     = [B; B].
Proof.
  assert (HF : completionPredicate beforeLastPointB B 21).
  { apply isSetFinished_spec. vm_compute. reflexivity. }
  split; [exact HF|].
  destruct (last_point_winners_end_with_scorer beforeLastPointB B 21 60 HF)
    as [H | [previous H]]; vm_compute in H |- *.
  - discriminate H.
  - reflexivity.
Defined.

(** X4. The default next server of a finished set is always a player of the
    winning side as it stood before the point; with an empty winning side
    it is [undefined]. *)
Theorem default_server_on_winning_side
    (s : MatchState) (side : Side) (cap time : Z) :
  completionPredicate s side cap ->
  let s' := matchReducer s (INCREMENT side cap time) in
  exists (g : GameSnapshot.t) (w : Side),
    setFinishData s' = Some g
    /\ GameSnapshot.winnerSide g = Some w
    /\ (teamOf w (players s) <> [] ->
        In (currentServer s') (teamOf w (players s)))
    /\ (teamOf w (players s) = [] -> currentServer s' = Undefined).
Proof.
  intros Hfin s'. subst s'. rewrite (increment_finished s side cap time Hfin).
  exists (finishData s side time), (winnerSide s side).
  cbn [incrementFinished setFinishData currentServer finishData
       GameSnapshot.winnerSide].
  split; [reflexivity|]. split; [reflexivity|].
  unfold defaultNextServer. cbv zeta.
  match goal with
  | |- context [includes ?team ?chosen] =>
      destruct (includes team chosen) eqn:Inc
  end; cbn [negb].
  - apply includes_In in Inc. split; [intros _; exact Inc|].
    intros Hempty. rewrite Hempty in Inc. destruct Inc.
  - split.
    + intros Hne. apply at_In.
      pose proof (len_nonneg (teamOf (winnerSide s side) (players s))).
      assert (len (teamOf (winnerSide s side) (players s)) <> 0)
        by (now rewrite len_zero).
      lia.
    + intros Hempty. rewrite Hempty. reflexivity.
Qed.

Lemma default_server_on_winning_side_witness :
  completionPredicate beforeLastPointB B 21
  /\ exists (g : GameSnapshot.t) (w : Side),
       setFinishData (matchReducer beforeLastPointB (INCREMENT B 21 60))
       = Some g
       /\ GameSnapshot.winnerSide g = Some w
       /\ (teamOf w (players beforeLastPointB) <> [] ->
           In (currentServer
                 (matchReducer beforeLastPointB (INCREMENT B 21 60)))
              (teamOf w (players beforeLastPointB)))
       /\ (teamOf w (players beforeLastPointB) = [] ->
           currentServer (matchReducer beforeLastPointB (INCREMENT B 21 60))
           = Undefined).
Proof.
  assert (HF : completionPredicate beforeLastPointB B 21).
  { apply isSetFinished_spec. vm_compute. reflexivity. }
  split; [exact HF|].
  exact (default_server_on_winning_side beforeLastPointB B 21 60 HF).
Defined.

(** X5. The server keeps the serve into the next set, unless the last two
    points were split: when the list of last point winners kept at the end
    of the set does not name two different sides, and the server of the
    final rally is a named player of the winning side, the default next
    server is that same player. *)
Theorem default_server_stays
    (s : MatchState) (side : Side) (cap time : Z) :
  completionPredicate s side cap ->
  let s' := matchReducer s (INCREMENT side cap time) in
  forall (g : GameSnapshot.t) (w : Side),
    setFinishData s' = Some g ->
    GameSnapshot.winnerSide g = Some w ->
    isName (currentServer s) ->
    In (currentServer s) (teamOf w (players s)) ->
    (forall x y : Side, lastTwoPointWinners s' = [x; y] -> x = y) ->
    currentServer s' = currentServer s.
Proof.
  intros Hfin s'. subst s'. rewrite (increment_finished s side cap time Hfin).
  cbn [incrementFinished setFinishData currentServer lastTwoPointWinners].
  intros g w Hg Hw Hname Hin Hsame.
  injection Hg as <-. cbn [finishData GameSnapshot.winnerSide] in Hw.
  injection Hw as <-.
  assert (Hnull : forall d : jsval,
            nullish (currentServer s) d = currentServer s).
  { intros d. destruct (currentServer s); [destruct Hname..|reflexivity]. }
  apply includes_In in Hin.
  unfold defaultNextServer. cbv zeta.
  set (lastTwo := slice_m2 (winners (gameHistory s side))) in *.
  match goal with
  | |- (if negb (includes _ ?chosen) then _ else _) = _ =>
      assert (Hchosen : chosen = currentServer s)
  end.
  { destruct ((len lastTwo =? 2) && (len (serveOrder s) >? 0)) eqn:Two;
      [|apply Hnull].
    apply andb_true_iff in Two. destruct Two as [Two _].
    destruct lastTwo as [|x [|y [|z rest]]]; try discriminate Two.
    - rewrite (Hsame x y eq_refl).
      assert (Hrefl : side_eqb y y = true) by now apply side_eqb_true.
      rewrite Hrefl. apply Hnull.
    - exfalso. apply Z.eqb_eq in Two. unfold len in Two.
      cbn [List.length] in Two. lia. }
  rewrite Hchosen, Hin. reflexivity.
Qed.

Lemma default_server_stays_witness :
  completionPredicate beforeLastPointB B 21
  /\ currentServer (matchReducer beforeLastPointB (INCREMENT B 21 60))
     = currentServer beforeLastPointB.
Proof.
  assert (HF : completionPredicate beforeLastPointB B 21).
  { apply isSetFinished_spec. vm_compute. reflexivity. }
  split; [exact HF|].
  eapply (default_server_stays beforeLastPointB B 21 60 HF).
  - vm_compute. reflexivity.
  - reflexivity.
  - vm_compute. exact I.
  - vm_compute. auto.
  - intros x y H. vm_compute in H. congruence.
Defined.

(* ------------------------------------------------------------------ *)
(** ** The position resolver: start of a set, conservation, stability *)
(* ------------------------------------------------------------------ *)

(** X6. At 0-0 in doubles both pairs are placed from the names passed in: the
    server and the receiver stand in the right court of their sides, their
    partners in the left court. *)
Theorem positions_at_love_all
    (sd : Side) (team : Players) (serverName receiverName : jsval) :
  doublesRoster team ->
  let pos := getTeamPositions (Some sd) team serverName receiverName 0 0 in
  let server := resolveName (teamOf sd team) serverName in
  let receiver := resolveName (teamOf (otherSide sd) team) receiverName in
  rightSlot sd pos = server
  /\ leftSlot sd pos = partnerOf (teamOf sd team) server
  /\ rightSlot (otherSide sd) pos = receiver
  /\ leftSlot (otherSide sd) pos
     = partnerOf (teamOf (otherSide sd) team) receiver.
Proof.
  intros [HA HB]. two_players team. clear HA HB.
  unfold getTeamPositions, resolveName, partnerOf, indexOf, includes.
  destruct sd; cbv beta zeta iota delta [teamOf otherSide teamA teamB];
    case_names; repeat split; congruence.
Qed.

Lemma positions_at_love_all_witness :
  doublesRoster doublesPlayers
  /\ getTeamPositions (Some B) doublesPlayers (Str "Dan") (Str "Ann") 0 0
     = mkPlayers [Str "Ben"; Str "Ann"] [Str "Dan"; Str "Cat"].
Proof.
  assert (HD : doublesRoster doublesPlayers) by (split; reflexivity).
  split; [exact HD|].
  pose proof (positions_at_love_all B doublesPlayers (Str "Dan") (Str "Ann")
                HD) as (H1 & H2 & H3 & H4).
  vm_compute in H1, H2, H3, H4. vm_compute. reflexivity.
Defined.

Lemma samePair_Permutation (t r : list jsval) :
  samePair t r -> Permutation t r.
Proof.
  intros [-> | ->]; [reflexivity|]. apply Permutation_sym, Permutation_rev.
Qed.

(** X7. In doubles the resolver only ever reorders a pair: whatever the serving
    side, the names and the score passed in, each side of the result holds
    the two players that side had, once each. *)
Theorem positions_keep_the_pairs
    (sd : option Side) (team : Players) (serverName receiverName : jsval)
    (ptsA ptsB : Z) :
  doublesRoster team ->
  let pos := getTeamPositions sd team serverName receiverName ptsA ptsB in
  Permutation (teamA pos) (teamA team)
  /\ Permutation (teamB pos) (teamB team).
Proof.
  intros HD pos.
  destruct (getTeamPositions_sameTeams sd team team serverName receiverName
              ptsA ptsB HD (sameTeams_refl team)) as [HA HB].
  split; now apply samePair_Permutation.
Qed.

Lemma positions_keep_the_pairs_witness :
  doublesRoster doublesPlayers
  /\ Permutation
       (teamA (getTeamPositions (Some A) doublesPlayers
                 (Str "Ann") (Str "Dan") 4 7))
       [Str "Ann"; Str "Ben"].
Proof.
  assert (HD : doublesRoster doublesPlayers) by (split; reflexivity).
  split; [exact HD|].
  exact (proj1 (positions_keep_the_pairs (Some A) doublesPlayers
                  (Str "Ann") (Str "Dan") 4 7 HD)).
Defined.

(** Case analysis on every name comparison of a goal that holds no number
    but literals: everything else is computed away first. *)
Ltac case_names_closed :=
  repeat (cbv -[strictEq];
          match goal with
          | |- context [strictEq ?x ?x] => rewrite (strictEq_refl x)
          | |- context [strictEq ?x ?y] =>
              let E := fresh "E" in
              destruct (strictEq x y) eqn:E;
              [apply strictEq_true in E; subst
              |apply strictEq_false in E]
          end);
  cbv.

(** X8. The resolver is stable: with the server on the serving pair and the
    receiver on the other pair, resolving the positions it has just
    returned, for the same server, receiver and score, returns them
    again. *)
Theorem positions_stable
    (sd : Side) (team : Players) (serverName receiverName : jsval)
    (ptsA ptsB : Z) :
  doublesRoster team ->
  In serverName (teamOf sd team) ->
  In receiverName (teamOf (otherSide sd) team) ->
  let pos := getTeamPositions (Some sd) team serverName receiverName
               ptsA ptsB in
  getTeamPositions (Some sd) pos serverName receiverName ptsA ptsB = pos.
Proof.
  intros [HA HB] Hsrv Hrcv. two_players team. clear HA HB.
  cbv beta zeta delta [getTeamPositions].
  generalize (isEven ptsA) (isEven ptsB) ((ptsA =? 0) && (ptsB =? 0)).
  intros evenA evenB zero. unfold indexOf.
  destruct zero.
  - destruct sd; cbn [teamOf otherSide teamA teamB In] in Hsrv, Hrcv;
      destruct Hsrv as [<- | [<- | []]], Hrcv as [<- | [<- | []]];
      case_names_closed; congruence.
  - destruct sd; cbn [teamOf otherSide teamA teamB In] in Hsrv, Hrcv;
      destruct Hsrv as [<- | [<- | []]]; clear Hrcv.
    1, 2: destruct evenA; case_names_closed; congruence.
    1, 2: destruct evenB; case_names_closed; congruence.
Qed.

Lemma positions_stable_witness :
  doublesRoster doublesPlayers
  /\ In (Str "Ben") (teamOf A doublesPlayers)
  /\ In (Str "Dan") (teamOf (otherSide A) doublesPlayers)
  /\ getTeamPositions (Some A)
       (getTeamPositions (Some A) doublesPlayers (Str "Ben") (Str "Dan") 5 3)
       (Str "Ben") (Str "Dan") 5 3
     = getTeamPositions (Some A) doublesPlayers (Str "Ben") (Str "Dan") 5 3.
Proof.
  assert (HD : doublesRoster doublesPlayers) by (split; reflexivity).
  assert (HS : In (Str "Ben") (teamOf A doublesPlayers)) by (simpl; auto).
  assert (HR : In (Str "Dan") (teamOf (otherSide A) doublesPlayers))
    by (simpl; auto).
  split; [exact HD|]. split; [exact HS|]. split; [exact HR|].
  exact (positions_stable A doublesPlayers (Str "Ben") (Str "Dan") 5 3
           HD HS HR).
Defined.

(* ------------------------------------------------------------------ *)
(** ** The rotation order built by [CONTINUE_NEXT_SET] *)
(* ------------------------------------------------------------------ *)

Lemma NoDup_app_apart (l1 l2 : list jsval) (v : jsval) :
  NoDup (l1 ++ l2) -> In v l1 -> In v l2 -> False.
Proof.
  intros Hnd H1 H2. apply in_split in H1. destruct H1 as (p1 & p2 & ->).
  rewrite <- app_assoc in Hnd. simpl in Hnd.
  apply NoDup_remove_2 in Hnd. apply Hnd.
  rewrite app_assoc. apply in_or_app. now right.
Qed.

Lemma nextServeOrder_doubles (s : MatchState) (x : Side)
    (server receiver : jsval) :
  doublesRoster (players s) ->
  NoDup (teamA (players s) ++ teamB (players s)) ->
  In server (teamOf x (players s)) ->
  In receiver (teamOf (otherSide x) (players s)) ->
  nextServeOrder s server receiver
  = [server; partnerOf (teamOf (otherSide x) (players s)) receiver;
     partnerOf (teamOf x (players s)) server; receiver]
  /\ Permutation (nextServeOrder s server receiver)
                 (teamA (players s) ++ teamB (players s)).
Proof.
  intros [HA HB] Hnd Hsrv Hrcv. unfold nextServeOrder.
  destruct (players s) as [tA tB]. cbn [teamA teamB] in *.
  destruct tA as [|a1 [|a2 [|? ?]]]; try discriminate.
  destruct tB as [|b1 [|b2 [|? ?]]]; try discriminate.
  clear HA HB.
  assert (Hdiff : a1 <> a2 /\ a1 <> b1 /\ a1 <> b2 /\ a2 <> b1 /\ a2 <> b2
                  /\ b1 <> b2).
  { cbn [app] in Hnd.
    inversion Hnd as [|? ? N1 Hnd1]; subst.
    inversion Hnd1 as [|? ? N2 Hnd2]; subst.
    inversion Hnd2 as [|? ? N3 _]; subst.
    cbn [In] in N1, N2, N3. intuition congruence. }
  destruct Hdiff as (D1 & D2 & D3 & D4 & D5 & D6).
  unfold partnerOf, indexOf, includes.
  destruct x; cbn [teamOf otherSide teamA teamB In] in Hsrv, Hrcv |- *;
    destruct Hsrv as [<- | [<- | []]], Hrcv as [<- | [<- | []]];
    case_names_closed; try congruence;
    (split; [reflexivity | perm_short]).
Qed.

(** X9. [CONTINUE_NEXT_SET] in doubles, with the chosen server on one pair and
    the chosen receiver on the other (all four names different), builds the
    same canonical order as [START_MATCH]:
    [[Server, PartnerOfReceiver, PartnerOfServer, Receiver]], the four
    players once each, entered at index 0 with the chosen server serving
    to the chosen receiver at 0-0. *)
Theorem continue_next_set_rotation
    (s : MatchState) (x : Side) (time : Z) (server receiver : jsval) :
  doublesRoster (players s) ->
  NoDup (teamA (players s) ++ teamB (players s)) ->
  In server (teamOf x (players s)) ->
  In receiver (teamOf (otherSide x) (players s)) ->
  let s' := matchReducer s (CONTINUE_NEXT_SET time server receiver) in
  serveOrder s'
  = [server; partnerOf (teamOf (otherSide x) (players s)) receiver;
     partnerOf (teamOf x (players s)) server; receiver]
  /\ Permutation (serveOrder s') (teamA (players s) ++ teamB (players s))
  /\ NoDup (serveOrder s')
  /\ serveIndex s' = 0
  /\ at_ (serveOrder s') (serveIndex s') = currentServer s'
  /\ currentServer s' = server
  /\ currentReceiver s' = receiver
  /\ serverSide s' = Some x
  /\ pointsA s' = 0 /\ pointsB s' = 0.
Proof.
  intros HD Hnd Hsrv Hrcv s'. subst s'.
  destruct (nextServeOrder_doubles s x server receiver HD Hnd Hsrv Hrcv)
    as [Horder Hperm].
  cbn [matchReducer continueNextSet serveOrder serveIndex currentServer
       currentReceiver serverSide pointsA pointsB].
  split; [exact Horder|]. split; [exact Hperm|].
  split; [exact (Permutation_NoDup (Permutation_sym Hperm) Hnd)|].
  split; [reflexivity|]. split; [rewrite Horder; reflexivity|].
  split; [reflexivity|]. split; [reflexivity|].
  split; [|split; reflexivity].
  f_equal. destruct (includes (teamA (players s)) server) eqn:Inc.
  - apply includes_In in Inc. destruct x; [reflexivity|].
    exfalso. cbn [teamOf] in Hsrv.
    exact (NoDup_app_apart _ _ server Hnd Inc Hsrv).
  - destruct x; [|reflexivity].
    apply includes_In in Hsrv. cbn [teamOf] in Hsrv. congruence.
Qed.

Lemma continue_next_set_rotation_witness :
  doublesRoster (players doublesStart)
  /\ serveOrder (matchReducer doublesStart
                   (CONTINUE_NEXT_SET 90 (Str "Dan") (Str "Ben")))
     = [Str "Dan"; Str "Ann"; Str "Cat"; Str "Ben"].
Proof.
  assert (HD : doublesRoster (players doublesStart)) by (split; reflexivity).
  assert (HN : NoDup (teamA (players doublesStart)
                      ++ teamB (players doublesStart))).
  { vm_compute. repeat constructor; simpl; intuition discriminate. }
  assert (HS : In (Str "Dan") (teamOf B (players doublesStart)))
    by (vm_compute; auto).
  assert (HR : In (Str "Ben") (teamOf (otherSide B) (players doublesStart)))
    by (vm_compute; auto).
  split; [exact HD|].
  exact (proj1 (continue_next_set_rotation doublesStart B 90
                  (Str "Dan") (Str "Ben") HD HN HS HR)).
Defined.

(* ------------------------------------------------------------------ *)
(** ** Numbering of the completed sets *)
(* ------------------------------------------------------------------ *)

Lemma countingFromOne_succ (n : nat) :
  countingFromOne (S n) = countingFromOne n ++ [Z.of_nat n + 1].
Proof.
  unfold countingFromOne. rewrite seq_S, map_app. cbn [map].
  do 2 f_equal. lia.
Qed.

Lemma gameNumbers_step (s : MatchState) (a : MatchAction) :
  map GameSnapshot.gameNumber (matchHistory s)
  = countingFromOne (List.length (matchHistory s)) ->
  map GameSnapshot.gameNumber (matchHistory (matchReducer s a))
  = countingFromOne (List.length (matchHistory (matchReducer s a))).
Proof.
  intros Hs. destruct a; cbn [matchReducer]; try exact Hs; try reflexivity.
  - unfold increment. destruct (isSetFinished s side maxPoint); [|exact Hs].
    cbn [incrementFinished matchHistory].
    rewrite map_app, length_app, Hs. cbn [map List.length finishData
                                          GameSnapshot.gameNumber].
    rewrite Nat.add_1_r, countingFromOne_succ. reflexivity.
  - unfold undo. destruct (len (currentSetPointHistory s) =? 0); exact Hs.
Qed.

(** X10. The completed sets are numbered 1, 2, 3, ... in the order they were
    played, whatever actions are replayed from [initialState];
    [START_MATCH] and [RESET_HISTORY] start the numbering again. *)
Theorem game_numbers_sequential (actions : list MatchAction) :
  map GameSnapshot.gameNumber (matchHistory (replay initialState actions))
  = countingFromOne
      (List.length (matchHistory (replay initialState actions))).
Proof.
  unfold replay.
  assert (Hinit : map GameSnapshot.gameNumber (matchHistory initialState)
                  = countingFromOne (List.length (matchHistory initialState)))
    by reflexivity.
  revert Hinit. generalize initialState as s.
  induction actions as [|a rest IH]; intros s Hs; cbn [fold_left].
  - exact Hs.
  - apply IH. now apply gameNumbers_step.
Qed.

(* ------------------------------------------------------------------ *)
(** ** The statistics of a set *)
(* ------------------------------------------------------------------ *)

Lemma statsLoopFrom_app (t : Z) (q : PointSnapshot.t)
    (l : list PointSnapshot.t) :
  forall (st : StatsLoop) (prev : PointSnapshot.t),
    statsLoopFrom t st prev (l ++ [q])
    = statsStep t (statsLoopFrom t st prev l) (last l prev) q.
Proof.
  induction l as [|p rest IH]; intros st prev.
  - reflexivity.
  - rewrite last_cons_default. cbn [app statsLoopFrom]. apply IH.
Qed.

Ltac split_comparisons :=
  repeat match goal with
         | |- context [?a >? ?b] => destruct (Z.gtb_spec a b)
         | |- context [?a <? ?b] => destruct (Z.ltb_spec a b)
         | |- context [?a =? ?b] => destruct (Z.eqb_spec a b)
         | |- context [?a >=? ?b] => destruct (Z.geb_spec a b)
         end.

Lemma statsStep_bound (t k : Z) (st : StatsLoop) (prev curr : PointSnapshot.t) :
  loopBound k st -> loopBound (k + 1) (statsStep t st prev curr).
Proof.
  unfold loopBound, statsStep, bump.
  cbn [stats currentStreakA currentStreakB mostConsecutivePointsA
       mostConsecutivePointsB gamePointsA gamePointsB].
  intros H. repeat split;
    split_comparisons; cbn [andb negb]; split_comparisons; lia.
Qed.

Lemma statsStep_grows (t : Z) (st : StatsLoop) (prev curr : PointSnapshot.t) :
  mostConsecutivePointsA (stats st)
    <= mostConsecutivePointsA (stats (statsStep t st prev curr))
  /\ mostConsecutivePointsB (stats st)
     <= mostConsecutivePointsB (stats (statsStep t st prev curr))
  /\ gamePointsA (stats st) <= gamePointsA (stats (statsStep t st prev curr))
  /\ gamePointsB (stats st) <= gamePointsB (stats (statsStep t st prev curr)).
Proof.
  unfold statsStep, bump.
  cbn [stats currentStreakA currentStreakB mostConsecutivePointsA
       mostConsecutivePointsB gamePointsA gamePointsB].
  repeat split; split_comparisons; cbn [andb negb]; split_comparisons; lia.
Qed.

Lemma statsLoopFrom_bound (t : Z) (rest : list PointSnapshot.t) :
  forall (k : Z) (st : StatsLoop) (prev : PointSnapshot.t),
    loopBound k st ->
    loopBound (k + len rest) (statsLoopFrom t st prev rest).
Proof.
  induction rest as [|curr tl IH]; intros k st prev Hst.
  - cbn [statsLoopFrom]. unfold len. cbn [List.length Z.of_nat].
    now rewrite Z.add_0_r.
  - cbn [statsLoopFrom].
    replace (k + len (curr :: tl)) with ((k + 1) + len tl)
      by (unfold len; cbn [List.length]; lia).
    apply IH. now apply statsStep_bound.
Qed.

(** X11. The longest streaks and the game-point counts of a set are never
    negative; a streak is never longer than the number of rallies the
    history records, and at most one game point is counted per rally, for
    the two sides together. *)
Theorem game_stats_bounds (g : GameSnapshot.t) (t : Z) :
  let st := calculateGameStats g t in
  0 <= mostConsecutivePointsA st <= ralliesRecorded g
  /\ 0 <= mostConsecutivePointsB st <= ralliesRecorded g
  /\ 0 <= gamePointsA st
  /\ 0 <= gamePointsB st
  /\ gamePointsA st + gamePointsB st <= ralliesRecorded g.
Proof.
  unfold calculateGameStats, ralliesRecorded.
  destruct (GameSnapshot.pointHistory g) as [|first rest].
  - cbn. lia.
  - match goal with
    | |- context [statsLoopFrom t ?init first rest] =>
        assert (Hinit : loopBound 0 init) by (unfold loopBound; cbn; lia);
        pose proof (statsLoopFrom_bound t rest 0 init first Hinit) as H
    end.
    unfold loopBound in H. cbv zeta.
    replace (len (first :: rest) - 1) with (0 + len rest)
      by (unfold len; cbn [List.length]; lia).
    pose proof (len_nonneg rest). lia.
Qed.

Lemma statsStep_sameCounters (t : Z) (x y : StatsLoop)
    (prev curr : PointSnapshot.t) :
  sameCounters x y ->
  sameCounters (statsStep t x prev curr) (statsStep t y prev curr).
Proof.
  intros (H1 & H2 & H3 & H4 & H5 & H6). unfold sameCounters, statsStep.
  cbn [stats currentStreakA currentStreakB mostConsecutivePointsA
       mostConsecutivePointsB gamePointsA gamePointsB].
  rewrite H1, H2, H3, H4, H5, H6. repeat split; reflexivity.
Qed.

Lemma statsLoopFrom_sameCounters (t : Z) (rest : list PointSnapshot.t) :
  forall (x y : StatsLoop) (prev : PointSnapshot.t),
    sameCounters x y ->
    sameCounters (statsLoopFrom t x prev rest) (statsLoopFrom t y prev rest).
Proof.
  induction rest as [|curr tl IH]; intros x y prev Hxy; cbn [statsLoopFrom].
  - exact Hxy.
  - apply IH. now apply statsStep_sameCounters.
Qed.

(** X12. Recording one more snapshot never lowers a statistic of the set: the
    longest streak of either side and both game-point counts can only grow
    as the history grows. *)
Theorem game_stats_monotone (g : GameSnapshot.t) (p : PointSnapshot.t)
    (t : Z) :
  let before := calculateGameStats g t in
  let after := calculateGameStats (extendGame g p) t in
  mostConsecutivePointsA before <= mostConsecutivePointsA after
  /\ mostConsecutivePointsB before <= mostConsecutivePointsB after
  /\ gamePointsA before <= gamePointsA after
  /\ gamePointsB before <= gamePointsB after.
Proof.
  unfold calculateGameStats, extendGame.
  cbn [GameSnapshot.pointHistory GameSnapshot.pointsA GameSnapshot.pointsB].
  destruct (GameSnapshot.pointHistory g) as [|first rest].
  - cbn. lia.
  - cbn [app]. cbv zeta. rewrite statsLoopFrom_app.
    match goal with
    | |- context [statsStep t (statsLoopFrom t ?i1 first rest) ?l p] =>
        pose proof (statsStep_grows t (statsLoopFrom t i1 first rest) l p)
          as Hgrow;
        match goal with
        | |- context [mostConsecutivePointsA
                        (stats (statsLoopFrom t ?i0 first rest)) <= _] =>
            assert (Hsame : sameCounters (statsLoopFrom t i0 first rest)
                                         (statsLoopFrom t i1 first rest))
              by (apply statsLoopFrom_sameCounters;
                  unfold sameCounters; cbn; repeat split; reflexivity)
        end
    end.
    destruct Hsame as (_ & _ & H3 & H4 & H5 & H6).
    rewrite H3, H4, H5, H6. exact Hgrow.
Qed.

(* ------------------------------------------------------------------ *)
(** ** The statistics of a match *)
(* ------------------------------------------------------------------ *)

Lemma statsLoopFrom_totals (t : Z) (rest : list PointSnapshot.t) :
  forall (st : StatsLoop) (prev : PointSnapshot.t),
    totalPointsWonA (stats (statsLoopFrom t st prev rest))
    = totalPointsWonA (stats st)
    /\ totalPointsWonB (stats (statsLoopFrom t st prev rest))
       = totalPointsWonB (stats st).
Proof.
  induction rest as [|curr tl IH]; intros st prev; cbn [statsLoopFrom].
  - split; reflexivity.
  - destruct (IH (statsStep t st prev curr) curr) as [-> ->].
    split; reflexivity.
Qed.

Lemma calculateGameStats_won (g : GameSnapshot.t) (t : Z) :
  totalPointsWonA (calculateGameStats g t) = GameSnapshot.pointsA g
  /\ totalPointsWonB (calculateGameStats g t) = GameSnapshot.pointsB g.
Proof.
  unfold calculateGameStats.
  destruct (GameSnapshot.pointHistory g) as [|first rest].
  - split; reflexivity.
  - match goal with
    | |- context [statsLoopFrom t ?init first rest] =>
        destruct (statsLoopFrom_totals t rest init first) as [-> ->]
    end.
    split; reflexivity.
Qed.

Lemma mergeStats_fold (l : list GameStats) :
  forall acc : GameStats,
    let r := fold_left mergeStats l acc in
    totalPointsWonA r = totalPointsWonA acc + sumOver totalPointsWonA l
    /\ totalPointsWonB r = totalPointsWonB acc + sumOver totalPointsWonB l
    /\ totalPointsPlayed r
       = totalPointsPlayed acc + sumOver totalPointsPlayed l
    /\ gamePointsA r = gamePointsA acc + sumOver gamePointsA l
    /\ gamePointsB r = gamePointsB acc + sumOver gamePointsB l
    /\ mostConsecutivePointsA r
       = fold_right Z.max (mostConsecutivePointsA acc)
                    (map mostConsecutivePointsA l)
    /\ mostConsecutivePointsB r
       = fold_right Z.max (mostConsecutivePointsB acc)
                    (map mostConsecutivePointsB l).
Proof.
  unfold sumOver.
  induction l as [|st rest IH]; intros acc; cbn [fold_left map fold_right].
  - cbv zeta. repeat split; try lia.
  - cbv zeta in IH |- *.
    destruct (IH (mergeStats acc st)) as (H1 & H2 & H3 & H4 & H5 & H6 & H7).
    rewrite H1, H2, H3, H4, H5, H6, H7.
    unfold mergeStats.
    cbn [totalPointsWonA totalPointsWonB totalPointsPlayed gamePointsA
         gamePointsB mostConsecutivePointsA mostConsecutivePointsB].
    assert (Hmax : forall (x y : Z) (tl : list Z),
              fold_right Z.max (if x >? y then x else y) tl
              = Z.max x (fold_right Z.max y tl)).
    { intros x y tl. induction tl as [|z tl IHtl]; cbn [fold_right].
      - destruct (Z.gtb_spec x y); lia.
      - rewrite IHtl. lia. }
    rewrite !Hmax. repeat split; lia.
Qed.

Lemma sumOver_map {T U : Type} (f : U -> Z) (h : T -> U) (l : list T) :
  sumOver f (map h l) = sumOver (fun x => f (h x)) l.
Proof. unfold sumOver. now rewrite map_map. Qed.

Lemma maxOver_map {T U : Type} (f : U -> Z) (h : T -> U) (l : list T) :
  maxOver f (map h l) = maxOver (fun x => f (h x)) l.
Proof. unfold maxOver. now rewrite map_map. Qed.

Lemma sumOver_ext {T : Type} (f h : T -> Z) (l : list T) :
  (forall x : T, f x = h x) -> sumOver f l = sumOver h l.
Proof.
  intros Hext. unfold sumOver. f_equal. apply map_ext. exact Hext.
Qed.

(** X13. The statistics of a match add up the sets: points won, snapshots
    counted as points played and game points are the sums over the sets,
    while the longest streak of a side is the longest of its streaks in any
    one set, not their sum, and 0 for a match without sets. *)
Theorem match_stats_aggregate (history : list GameSnapshot.t) (t : Z) :
  let m := calculateMatchStats history t in
  totalPointsWonA m = sumOver GameSnapshot.pointsA history
  /\ totalPointsWonB m = sumOver GameSnapshot.pointsB history
  /\ totalPointsPlayed m
     = sumOver (fun g => len (GameSnapshot.pointHistory g)) history
  /\ gamePointsA m
     = sumOver (fun g => gamePointsA (calculateGameStats g t)) history
  /\ gamePointsB m
     = sumOver (fun g => gamePointsB (calculateGameStats g t)) history
  /\ mostConsecutivePointsA m
     = maxOver (fun g => mostConsecutivePointsA (calculateGameStats g t))
               history
  /\ mostConsecutivePointsB m
     = maxOver (fun g => mostConsecutivePointsB (calculateGameStats g t))
               history.
Proof.
  unfold calculateMatchStats. cbv zeta.
  destruct (mergeStats_fold
              (map (fun game => calculateGameStats game t) history)
              emptyStats) as (H1 & H2 & H3 & H4 & H5 & H6 & H7).
  rewrite H1, H2, H3, H4, H5, H6, H7.
  cbn [emptyStats totalPointsWonA totalPointsWonB totalPointsPlayed
       gamePointsA gamePointsB mostConsecutivePointsA mostConsecutivePointsB].
  fold (maxOver mostConsecutivePointsA
          (map (fun game => calculateGameStats game t) history)).
  fold (maxOver mostConsecutivePointsB
          (map (fun game => calculateGameStats game t) history)).
  rewrite !sumOver_map, !maxOver_map, !Z.add_0_l.
  repeat split; try reflexivity.
  - apply sumOver_ext. intros g. apply calculateGameStats_won.
  - apply sumOver_ext. intros g. apply calculateGameStats_won.
  - apply sumOver_ext. intros g. apply calculateGameStats_total.
Qed.

(* ------------------------------------------------------------------ *)
(** ** The score invariant of a match driven by the host *)
(* ------------------------------------------------------------------ *)

Lemma getMaxPoint_range (t : Z) : 21 <= getMaxPoint t <= 30.
Proof.
  unfold getMaxPoint.
  destruct (t =? 15); [lia|]. destruct (t =? 21); lia.
Qed.

Lemma inPlay_love_all (t : Z) : inPlay t 0 0.
Proof.
  pose proof (getMaxPoint_range t). unfold inPlay, sideCompletes.
  repeat split; lia.
Qed.

Lemma chained_app (prev q : PointSnapshot.t) (l : list PointSnapshot.t) :
  chained prev (l ++ [q])
  <-> chained prev l /\ exists sd : Side, rallyWonBy sd (last l prev) q.
Proof.
  revert prev. induction l as [|p rest IH]; intros prev.
  - cbn [app chained last]. tauto.
  - rewrite last_cons_default. cbn [app chained]. rewrite IH. tauto.
Qed.

Lemma scoreTrail_app (l : list PointSnapshot.t) (p q : PointSnapshot.t) :
  scoreTrail ((l ++ [p]) ++ [q])
  <-> scoreTrail (l ++ [p]) /\ exists sd : Side, rallyWonBy sd p q.
Proof.
  destruct l as [|first rest].
  - cbn [app scoreTrail chained]. tauto.
  - cbn [app scoreTrail]. rewrite chained_app, last_last. tauto.
Qed.

Lemma createSnapshot_restore (s : MatchState) (p : PointSnapshot.t)
    (h : list PointSnapshot.t) :
  createSnapshot (restore s p h) = p.
Proof.
  unfold createSnapshot, restore. cbn. rewrite players_eta.
  now destruct p.
Qed.

Lemma scoreOk_startMatch (newPlayers : Players) (firstServe : Side)
    (firstServerName opponentReceiverName : jsval)
    (target : option Z) (startTime : Z) :
  scoreOk (startMatch newPlayers firstServe firstServerName
                      opponentReceiverName target startTime).
Proof.
  unfold scoreOk.
  cbn [startMatch setFinishData initialState pointsA pointsB scoringSystem
       currentSetPointHistory matchHistory].
  split; [|split; [|split]].
  - intros _. split; [apply inPlay_love_all|].
    cbn [app scoreTrail createSnapshot PointSnapshot.pointsA
         PointSnapshot.pointsB chained pointsA pointsB startMatch
         initialState].
    repeat split.
  - intros g Hg. discriminate Hg.
  - constructor.
  - constructor.
Qed.

(** Under the host the set is completed, if at all, by the side that won
    the rally. *)
Lemma winner_is_scorer (s : MatchState) (side : Side) :
  inPlay (scoringSystem s) (pointsA s) (pointsB s) ->
  completionPredicate s side (getMaxPoint (scoringSystem s)) ->
  winnerSide s side = side
  /\ sideCompletes (scoringSystem s) (getMaxPoint (scoringSystem s))
       (statePoints side s + 1) (statePoints (otherSide side) s).
Proof.
  unfold inPlay, completionPredicate, sideCompletes, winnerSide,
    newPointsA, newPointsB.
  intros Hplay Hfin.
  destruct side; cbn [side_eqb Side_eq_dec Side_rec Side_rect statePoints
                      otherSide] in *.
  - destruct (Z.gtb_spec (pointsA s + 1) (pointsB s)); split;
      try reflexivity; lia.
  - destruct (Z.gtb_spec (pointsA s) (pointsB s + 1)); split;
      try reflexivity; lia.
Qed.

Lemma rally_createSnapshot (s : MatchState) (side : Side) :
  rallyWonBy side (createSnapshot s)
             (createSnapshot (incrementInProgress s side))
  /\ rallyWonBy side (createSnapshot s) (finalPointSnapshot s side).
Proof.
  unfold rallyWonBy, createSnapshot, finalPointSnapshot, incrementInProgress,
    newPointsA, newPointsB.
  destruct side; cbn; repeat split; reflexivity.
Qed.

Lemma scoreOk_inProgress (s : MatchState) (side : Side) :
  scoreOk s -> setFinishData s = None ->
  ~ completionPredicate s side (getMaxPoint (scoringSystem s)) ->
  scoreOk (incrementInProgress s side).
Proof.
  intros (Hplay & _ & Hhist & Hgames) Hnone Hnot.
  destruct (Hplay Hnone) as [Hin Htrail].
  unfold scoreOk.
  cbn [incrementInProgress setFinishData pointsA pointsB scoringSystem
       currentSetPointHistory matchHistory].
  split; [|split; [|split]].
  - intros _. split.
    + unfold inPlay, completionPredicate, sideCompletes, newPointsA,
        newPointsB in *.
      destruct side; cbn [side_eqb Side_eq_dec Side_rec Side_rect] in *; lia.
    + apply scoreTrail_app. split; [exact Htrail|].
      exists side. apply rally_createSnapshot.
  - intros g Hg. rewrite Hnone in Hg. discriminate Hg.
  - apply Forall_app. split; [exact Hhist|].
    constructor; [exact Hin | constructor].
  - exact Hgames.
Qed.

Lemma gameOk_finishData (s : MatchState) (side : Side) (time : Z) :
  scoreOk s -> setFinishData s = None ->
  completionPredicate s side (getMaxPoint (scoringSystem s)) ->
  gameOk (scoringSystem s) (finishData s side time).
Proof.
  intros (Hplay & _) Hnone Hfin.
  destruct (Hplay Hnone) as [Hin Htrail].
  destruct (winner_is_scorer s side Hin Hfin) as [Hw Hcomplete].
  exists (currentSetPointHistory s), (createSnapshot s),
    (finalPointSnapshot s side), side.
  unfold finishData, gameHistory.
  cbn [GameSnapshot.pointHistory GameSnapshot.winnerSide gamePoints
       GameSnapshot.pointsA GameSnapshot.pointsB].
  split; [reflexivity|]. split.
  { change (currentSetPointHistory s
            ++ [createSnapshot s; finalPointSnapshot s side])
      with (currentSetPointHistory s
            ++ [createSnapshot s] ++ [finalPointSnapshot s side]).
    rewrite app_assoc. apply scoreTrail_app. split; [exact Htrail|].
    exists side. apply rally_createSnapshot. }
  split; [now rewrite Hw|].
  split; [apply rally_createSnapshot|].
  split; [reflexivity|]. split; [reflexivity|].
  split; [exact Hin|].
  unfold newPointsA, newPointsB.
  destruct side; cbn [side_eqb Side_eq_dec Side_rec Side_rect statePoints
                      otherSide gamePoints GameSnapshot.pointsA
                      GameSnapshot.pointsB] in *; exact Hcomplete.
Qed.

Lemma scoreOk_finished (s : MatchState) (side : Side) (time : Z) :
  scoreOk s -> setFinishData s = None ->
  completionPredicate s side (getMaxPoint (scoringSystem s)) ->
  scoreOk (incrementFinished s side time).
Proof.
  intros Hok Hnone Hfin.
  pose proof (gameOk_finishData s side time Hok Hnone Hfin) as Hgame.
  destruct Hok as (_ & _ & _ & Hgames).
  unfold scoreOk.
  cbn [incrementFinished setFinishData pointsA pointsB scoringSystem
       currentSetPointHistory matchHistory].
  split; [|split; [|split]].
  - intros H. discriminate H.
  - intros g Hg. injection Hg as <-. repeat split; try reflexivity.
    exact Hgame.
  - constructor.
  - apply Forall_app. split; [exact Hgames|].
    constructor; [exact Hgame | constructor].
Qed.

Lemma scoreOk_undo (s : MatchState) : scoreOk s -> scoreOk (undo s).
Proof.
  intros Hok. unfold undo.
  destruct (len (currentSetPointHistory s) =? 0) eqn:Empty; [exact Hok|].
  assert (Hne : currentSetPointHistory s <> []).
  { intros E. rewrite E in Empty. discriminate. }
  destruct Hok as (Hplay & Hslot & Hhist & Hgames).
  assert (Hnone : setFinishData s = None).
  { destruct (setFinishData s) as [g|] eqn:Slot; [|reflexivity].
    destruct (Hslot g eq_refl) as (_ & _ & _ & Hempty). contradiction. }
  destruct (Hplay Hnone) as [_ Htrail].
  destruct (exists_last Hne) as (rest & p0 & Hist).
  rewrite Hist in Hhist, Htrail |- *. clear Empty Hne Hist.
  apply Forall_app in Hhist. destruct Hhist as [Hrest Hlast].
  inversion Hlast as [|? ? Hin _]; subst.
  apply scoreTrail_app in Htrail. destruct Htrail as [Htrail _].
  unfold lastElem, slice_0_m1. rewrite last_last, removelast_last.
  unfold scoreOk. rewrite createSnapshot_restore.
  cbn [restore setFinishData pointsA pointsB scoringSystem
       currentSetPointHistory matchHistory].
  split; [|split; [|split]].
  - intros _. split; [exact Hin | exact Htrail].
  - intros g Hg. rewrite Hnone in Hg. discriminate Hg.
  - exact Hrest.
  - exact Hgames.
Qed.

Lemma scoreOk_continue (s : MatchState) (time : Z) (server receiver : jsval) :
  scoreOk s -> scoreOk (continueNextSet s time server receiver).
Proof.
  intros (_ & _ & _ & Hgames). unfold scoreOk.
  cbn [continueNextSet setFinishData pointsA pointsB scoringSystem
       currentSetPointHistory matchHistory].
  split; [|split; [|split]].
  - intros _. split; [apply inPlay_love_all|].
    cbn [app scoreTrail createSnapshot PointSnapshot.pointsA
         PointSnapshot.pointsB chained pointsA pointsB continueNextSet].
    repeat split.
  - intros g Hg. discriminate Hg.
  - constructor.
  - exact Hgames.
Qed.

Lemma scoreOk_step (s : MatchState) (a : MatchAction) :
  scoreOk s -> hookStep s a -> scoreOk (matchReducer s a).
Proof.
  intros Hok Hstep.
  destruct Hstep as [side time Hnone | | | time a Hact
                    | g v Hslot _ _ | g v Hslot _ _].
  - unfold handleIncrement. cbn [matchReducer]. unfold increment.
    destruct (isSetFinished s side (getMaxPoint (scoringSystem s))) eqn:Fin.
    + apply isSetFinished_spec in Fin. now apply scoreOk_finished.
    + apply isSetFinished_false in Fin. now apply scoreOk_inProgress.
  - now apply scoreOk_undo.
  - destruct Hok as (Hplay & Hslot & Hhist & _).
    split; [exact Hplay|]. split; [exact Hslot|].
    split; [exact Hhist | constructor].
  - unfold continueNextSetAction in Hact.
    destruct (setFinishData s); [|discriminate Hact].
    injection Hact as <-. now apply scoreOk_continue.
  - destruct Hok as (Hplay & Hfin & Hhist & Hgames).
    split; [|split; [exact Hfin | split; [exact Hhist | exact Hgames]]].
    intros H. cbn in H. rewrite Hslot in H. discriminate H.
  - destruct Hok as (Hplay & Hfin & Hhist & Hgames).
    split; [|split; [exact Hfin | split; [exact Hhist | exact Hgames]]].
    intros H. cbn in H. rewrite Hslot in H. discriminate H.
Qed.

Lemma scoreOk_reachable (start s : MatchState) :
  scoreOk start -> hookReachable start s -> scoreOk s.
Proof.
  intros Hstart Hreach. induction Hreach as [|s a _ IH Hstep].
  - exact Hstart.
  - now apply scoreOk_step.
Qed.

Lemma winnersFrom_rally (sd : Side) (p q : PointSnapshot.t) :
  rallyWonBy sd p q -> winnersFrom p [q] = [sd].
Proof.
  unfold rallyWonBy. intros [Hwon Hkept]. cbn [winnersFrom].
  destruct sd; cbn [snapPoints otherSide] in *.
  - destruct (Z.gtb_spec (PointSnapshot.pointsA q) (PointSnapshot.pointsA p));
      [reflexivity|lia].
  - destruct (Z.gtb_spec (PointSnapshot.pointsA q) (PointSnapshot.pointsA p));
      [lia|].
    destruct (Z.gtb_spec (PointSnapshot.pointsB q) (PointSnapshot.pointsB p));
      [reflexivity|lia].
Qed.

(** Along a chain every rally is found again by the loop over neighbouring
    snapshots, and the winners it lists account for the score reached. *)
Lemma chained_counts (rest : list PointSnapshot.t) :
  forall prev : PointSnapshot.t,
    chained prev rest ->
    List.length (winnersFrom prev rest) = List.length rest
    /\ (forall sd : Side,
          snapPoints sd (last rest prev)
          = snapPoints sd prev + ralliesWonBy sd (winnersFrom prev rest)).
Proof.
  induction rest as [|q tl IH]; intros prev Hchain.
  - cbn. split; [reflexivity|]. intros sd. unfold ralliesWonBy. cbn. lia.
  - destruct Hchain as [[w Hrally] Htl].
    destruct (IH q Htl) as [Hlen Hcount].
    rewrite last_cons_default, winnersFrom_cons.
    rewrite (winnersFrom_rally w prev q Hrally).
    split; [cbn [app List.length]; now rewrite Hlen|].
    intros sd. rewrite (Hcount sd). unfold ralliesWonBy.
    cbn [app count_occ]. destruct Hrally as [Hwon Hkept].
    destruct w, sd; cbn [snapPoints otherSide] in *;
      destruct (Side_eq_dec _ _) as [E|E]; try discriminate E;
      try (exfalso; apply E; reflexivity); lia.
Qed.

Lemma scoreTrail_counts (l : list PointSnapshot.t) (d : PointSnapshot.t) :
  scoreTrail l ->
  len l = Z.of_nat (List.length (pointWinners l)) + 1
  /\ (forall sd : Side,
        snapPoints sd (last l d) = ralliesWonBy sd (pointWinners l)).
Proof.
  destruct l as [|first rest]; [intros []|].
  intros (HA & HB & Hchain).
  destruct (chained_counts rest first Hchain) as [Hlen Hcount].
  rewrite last_cons_default. cbn [pointWinners].
  split; [unfold len; cbn [List.length]; rewrite Hlen; lia|].
  intros sd. rewrite (Hcount sd). destruct sd; cbn [snapPoints]; lia.
Qed.

Lemma ralliesWonBy_total (l : list Side) :
  ralliesWonBy A l + ralliesWonBy B l = Z.of_nat (List.length l).
Proof.
  unfold ralliesWonBy. induction l as [|x rest IH]; [reflexivity|].
  cbn [count_occ List.length].
  destruct x; destruct (Side_eq_dec _ _) as [E|E]; try discriminate E;
    destruct (Side_eq_dec _ _) as [E'|E']; try discriminate E';
    try (exfalso; apply E; reflexivity);
    try (exfalso; apply E'; reflexivity); lia.
Qed.

(** What the record of a completed set says, once it is known to be
    [gameOk]. *)
Lemma gameOk_facts (t : Z) (g : GameSnapshot.t) :
  gameOk t g ->
  exists w : Side,
    GameSnapshot.winnerSide g = Some w
    /\ 0 <= gamePoints (otherSide w) g < gamePoints w g
    /\ gamePoints w g <= getMaxPoint t
    /\ sideCompletes t (getMaxPoint t)
         (gamePoints w g) (gamePoints (otherSide w) g)
    /\ startsAtZero g
    /\ historyMatchesScore g
    /\ ralliesWonBy A (pointWinners (GameSnapshot.pointHistory g))
       = GameSnapshot.pointsA g
    /\ ralliesWonBy B (pointWinners (GameSnapshot.pointHistory g))
       = GameSnapshot.pointsB g
    /\ (exists earlier : list Side,
          pointWinners (GameSnapshot.pointHistory g) = earlier ++ [w]).
Proof.
  intros (l & p & q & w & Hhist & Htrail & Hw & Hrally & HgA & HgB
          & Hplay & Hcomplete).
  exists w. split; [exact Hw|].
  destruct (scoreTrail_counts (l ++ [p; q]) q Htrail) as [Hlen Hcount].
  assert (Hlast : last (l ++ [p; q]) q = q).
  { change (l ++ [p; q]) with (l ++ [p] ++ [q]).
    rewrite app_assoc. apply last_last. }
  rewrite Hlast in Hcount.
  pose proof (ralliesWonBy_total (pointWinners (l ++ [p; q]))) as Htotal.
  pose proof (Hcount A) as HcA. pose proof (Hcount B) as HcB.
  cbn [gamePoints snapPoints] in HgA, HgB, HcA, HcB.
  assert (Hbounds : 0 <= gamePoints (otherSide w) g < gamePoints w g
                    /\ gamePoints w g <= getMaxPoint t).
  { unfold inPlay, sideCompletes, rallyWonBy in *.
    destruct w; cbn [gamePoints otherSide snapPoints] in *; lia. }
  destruct Hbounds as [Hb1 Hb2].
  split; [exact Hb1|]. split; [exact Hb2|]. split; [exact Hcomplete|].
  split.
  { unfold startsAtZero. rewrite Hhist.
    destruct l as [|first rest]; cbn [app] in Htrail |- *;
      destruct Htrail as (H0A & H0B & _); now split. }
  split; [unfold historyMatchesScore; rewrite Hhist; lia|].
  rewrite Hhist. split; [lia|]. split; [lia|].
  destruct l as [|first rest].
  - exists []. cbn [app pointWinners]. now apply winnersFrom_rally.
  - cbn [app pointWinners].
    exists (winnersFrom first (rest ++ [p])).
    change (rest ++ [p; q]) with (rest ++ [p] ++ [q]).
    rewrite app_assoc, winnersFrom_app, last_last.
    now rewrite (winnersFrom_rally w p q Hrally).
Qed.

Lemma hookReachable_trans (start mid s : MatchState) :
  hookReachable start mid -> hookReachable mid s -> hookReachable start s.
Proof.
  intros Hmid Hs. induction Hs as [|s a _ IH Hstep].
  - exact Hmid.
  - now apply hook_next.
Qed.

Lemma hookPlay_reachable (sides : list Side) :
  forall s : MatchState,
    scoringAllowed s sides = true -> hookReachable s (hookPlay s sides).
Proof.
  induction sides as [|sd rest IH]; intros s Hallowed.
  - apply hook_start.
  - cbn [scoringAllowed] in Hallowed. cbn [hookPlay].
    destruct (setFinishData s) eqn:Slot; [discriminate Hallowed|].
    apply hookReachable_trans
      with (mid := matchReducer s (handleIncrement s sd 60)).
    + apply hook_next; [apply hook_start | now apply hook_point].
    + now apply IH.
Defined.

Lemma scoringSystem_step (s : MatchState) (a : MatchAction) :
  hookStep s a -> scoringSystem (matchReducer s a) = scoringSystem s.
Proof.
  intros Hstep.
  destruct Hstep as [side time Hnone | | | time a Hact
                    | g v Hslot _ _ | g v Hslot _ _]; try reflexivity.
  - unfold handleIncrement. cbn [matchReducer]. unfold increment.
    destruct (isSetFinished s side _); reflexivity.
  - cbn [handleUndo matchReducer]. unfold undo.
    destruct (len (currentSetPointHistory s) =? 0); reflexivity.
  - unfold continueNextSetAction in Hact.
    destruct (setFinishData s); [|discriminate Hact].
    injection Hact as <-. reflexivity.
Qed.

(** X14. Under the host the scores stay within the cap of the scoring system:
    after any [START_MATCH], whatever the host dispatches next, neither
    score is negative or above [getMaxPoint] of the target, and while a set
    is being played both are below it. *)
Theorem scores_within_cap
    (s0 s : MatchState) (newPlayers : Players) (firstServe : Side)
    (firstServerName opponentReceiverName : jsval) (target : option Z)
    (startTime : Z) :
  hookReachable
    (matchReducer s0 (START_MATCH newPlayers firstServe firstServerName
                                  opponentReceiverName target startTime)) s ->
  0 <= pointsA s <= getMaxPoint (scoringSystem s)
  /\ 0 <= pointsB s <= getMaxPoint (scoringSystem s)
  /\ (setFinishData s = None ->
      pointsA s < getMaxPoint (scoringSystem s)
      /\ pointsB s < getMaxPoint (scoringSystem s)).
Proof.
  intros Hreach.
  pose proof (scoreOk_reachable _ s
                (scoreOk_startMatch newPlayers firstServe firstServerName
                   opponentReceiverName target startTime) Hreach)
    as (Hplay & Hslot & _).
  destruct (setFinishData s) as [g|] eqn:Slot.
  - destruct (Hslot g eq_refl) as (Hgame & HA & HB & _).
    destruct (gameOk_facts _ g Hgame) as (w & _ & Hlow & Hhigh & _).
    rewrite HA, HB.
    split; [|split; [|intros H; discriminate H]];
      destruct w; cbn [gamePoints otherSide] in *; lia.
  - destruct (Hplay eq_refl) as [Hin _]. unfold inPlay in Hin.
    split; [lia|]. split; [lia|]. intros _. lia.
Qed.

Lemma scores_within_cap_witness :
  hookReachable doublesStart (hookPlay doublesStart [B; B; A])
  /\ pointsB (hookPlay doublesStart [B; B; A]) <= 21.
Proof.
  assert (HR : hookReachable doublesStart (hookPlay doublesStart [B; B; A]))
    by (apply hookPlay_reachable; reflexivity).
  split; [exact HR|].
  exact (proj2 (proj1 (proj2
           (scores_within_cap initialState _ doublesPlayers A (Str "Ann")
              (Str "Cat") (Some 15) 0 HR)))).
Defined.

(** X15. Under the host every completed set is recorded with the side that
    scored its last point as the winner; the winner has strictly more
    points than the loser, the final score satisfies the completion
    predicate for the winner and does not exceed the cap. *)
Theorem completed_set_winner
    (s0 s : MatchState) (newPlayers : Players) (firstServe : Side)
    (firstServerName opponentReceiverName : jsval) (target : option Z)
    (startTime : Z) (g : GameSnapshot.t) :
  hookReachable
    (matchReducer s0 (START_MATCH newPlayers firstServe firstServerName
                                  opponentReceiverName target startTime)) s ->
  In g (matchHistory s) \/ setFinishData s = Some g ->
  exists w : Side,
    GameSnapshot.winnerSide g = Some w
    /\ 0 <= gamePoints (otherSide w) g < gamePoints w g
    /\ gamePoints w g <= getMaxPoint (scoringSystem s)
    /\ sideCompletes (scoringSystem s) (getMaxPoint (scoringSystem s))
         (gamePoints w g) (gamePoints (otherSide w) g)
    /\ exists earlier : list Side,
         pointWinners (GameSnapshot.pointHistory g) = earlier ++ [w].
Proof.
  intros Hreach Hg.
  pose proof (scoreOk_reachable _ s
                (scoreOk_startMatch newPlayers firstServe firstServerName
                   opponentReceiverName target startTime) Hreach)
    as (_ & Hslot & _ & Hgames).
  assert (Hgame : gameOk (scoringSystem s) g).
  { destruct Hg as [Hin | Hs].
    - rewrite Forall_forall in Hgames. now apply Hgames.
    - now destruct (Hslot g Hs). }
  destruct (gameOk_facts _ g Hgame)
    as (w & Hw & Hlow & Hhigh & Hcomplete & _ & _ & _ & _ & Hlast).
  exists w. repeat split; try assumption; lia.
Qed.

Lemma completed_set_winner_witness :
  hookReachable singlesStart (hookPlay singlesStart (repeat A 21))
  /\ exists g : GameSnapshot.t,
       setFinishData (hookPlay singlesStart (repeat A 21)) = Some g
       /\ GameSnapshot.winnerSide g = Some A
       /\ GameSnapshot.pointsA g = 21 /\ GameSnapshot.pointsB g = 0.
Proof.
  assert (HR : hookReachable singlesStart
                 (hookPlay singlesStart (repeat A 21)))
    by (apply hookPlay_reachable; vm_compute; reflexivity).
  split; [exact HR|].
  eexists. split; [vm_compute; reflexivity|].
  match goal with
  | |- GameSnapshot.winnerSide ?g = _ /\ _ =>
      destruct (completed_set_winner initialState _ singlesPlayers A
                  (Str "Alice") (Str "Bob") (Some 21) 0 g HR)
        as (w & Hw & _)
  end.
  - right. vm_compute. reflexivity.
  - repeat split; reflexivity.
Defined.

(** X16. Under the host the history of every completed set starts at 0-0 and
    holds one snapshot more than the points of the final score; so the
    number the stats view shows as "Total Points Played" for a completed set
    is the sum of the two final scores, and the point-flow graph draws as
    many blocks for each side as that side scored. *)
Theorem completed_set_history
    (s0 s : MatchState) (newPlayers : Players) (firstServe : Side)
    (firstServerName opponentReceiverName : jsval) (target : option Z)
    (startTime : Z) (g : GameSnapshot.t) (t : Z) :
  hookReachable
    (matchReducer s0 (START_MATCH newPlayers firstServe firstServerName
                                  opponentReceiverName target startTime)) s ->
  In g (matchHistory s) \/ setFinishData s = Some g ->
  startsAtZero g
  /\ len (GameSnapshot.pointHistory g)
     = GameSnapshot.pointsA g + GameSnapshot.pointsB g + 1
  /\ displayedTotalPointsPlayed g t
     = GameSnapshot.pointsA g + GameSnapshot.pointsB g
  /\ ralliesWonBy A (pointWinners (GameSnapshot.pointHistory g))
     = GameSnapshot.pointsA g
  /\ ralliesWonBy B (pointWinners (GameSnapshot.pointHistory g))
     = GameSnapshot.pointsB g.
Proof.
  intros Hreach Hg.
  pose proof (scoreOk_reachable _ s
                (scoreOk_startMatch newPlayers firstServe firstServerName
                   opponentReceiverName target startTime) Hreach)
    as (_ & Hslot & _ & Hgames).
  assert (Hgame : gameOk (scoringSystem s) g).
  { destruct Hg as [Hin | Hs].
    - rewrite Forall_forall in Hgames. now apply Hgames.
    - now destruct (Hslot g Hs). }
  destruct (gameOk_facts _ g Hgame)
    as (w & Hw & _ & _ & _ & Hzero & Hlen & HfA & HfB & _).
  unfold historyMatchesScore in Hlen.
  split; [exact Hzero|]. split; [exact Hlen|].
  split; [|split; [exact HfA | exact HfB]].
  unfold displayedTotalPointsPlayed.
  rewrite calculateGameStats_total, Hw, Hlen. lia.
Qed.

Lemma completed_set_history_witness :
  hookReachable singlesStart (hookPlay singlesStart (repeat A 21))
  /\ exists g : GameSnapshot.t,
       setFinishData (hookPlay singlesStart (repeat A 21)) = Some g
       /\ len (GameSnapshot.pointHistory g) = 22
       /\ displayedTotalPointsPlayed g 21 = 21.
Proof.
  assert (HR : hookReachable singlesStart
                 (hookPlay singlesStart (repeat A 21)))
    by (apply hookPlay_reachable; vm_compute; reflexivity).
  split; [exact HR|].
  eexists. split; [vm_compute; reflexivity|].
  match goal with
  | |- len (GameSnapshot.pointHistory ?g) = _ /\ _ =>
      destruct (completed_set_history initialState _ singlesPlayers A
                  (Str "Alice") (Str "Bob") (Some 21) 0 g 21 HR)
        as (_ & Hlen & Hshown & _)
  end.
  - right. vm_compute. reflexivity.
  - split; [exact Hlen | exact Hshown].
Defined.

Lemma currentPointSnapshot_createSnapshot (s : MatchState) :
  currentPointSnapshot s = createSnapshot s.
Proof. reflexivity. Qed.

Lemma inProgress_counts (s : MatchState) :
  scoreOk s -> setFinishData s = None ->
  len (currentSetPointHistory s) = pointsA s + pointsB s
  /\ ralliesWonBy A (pointWinners (completePointHistory s)) = pointsA s
  /\ ralliesWonBy B (pointWinners (completePointHistory s)) = pointsB s.
Proof.
  intros (Hplay & _) Hnone. destruct (Hplay Hnone) as [_ Htrail].
  unfold completePointHistory. rewrite currentPointSnapshot_createSnapshot.
  destruct (scoreTrail_counts _ (createSnapshot s) Htrail) as [Hlen Hcount].
  rewrite last_last in Hcount.
  pose proof (ralliesWonBy_total
                (pointWinners (currentSetPointHistory s
                               ++ [createSnapshot s]))) as Htotal.
  pose proof (Hcount A) as HcA. pose proof (Hcount B) as HcB.
  cbn [snapPoints createSnapshot PointSnapshot.pointsA
       PointSnapshot.pointsB] in HcA, HcB.
  rewrite len_app in Hlen. unfold len in Hlen at 2.
  cbn [List.length] in Hlen.
  split; [lia|]. split; lia.
Qed.

(** X17. Under the host, while a set is being played, the undo stack holds one
    snapshot per point of the current score, and the point-flow graph of
    the set in progress draws as many blocks for each side as that side has
    scored.  The game handed to the stats view for the set in progress
    holds one snapshot more, and the view shows their number: one more than
    the points played. *)
Theorem set_in_progress_history
    (s0 s : MatchState) (newPlayers : Players) (firstServe : Side)
    (firstServerName opponentReceiverName : jsval) (target : option Z)
    (startTime : Z) :
  hookReachable
    (matchReducer s0 (START_MATCH newPlayers firstServe firstServerName
                                  opponentReceiverName target startTime)) s ->
  setFinishData s = None ->
  len (currentSetPointHistory s) = pointsA s + pointsB s
  /\ ralliesWonBy A (pointWinners (completePointHistory s)) = pointsA s
  /\ ralliesWonBy B (pointWinners (completePointHistory s)) = pointsB s
  /\ forall (time t : Z) (g : GameSnapshot.t),
       inProgressGame s time = Some g ->
       len (GameSnapshot.pointHistory g) = pointsA s + pointsB s + 1
       /\ displayedTotalPointsPlayed g t = pointsA s + pointsB s + 1.
Proof.
  intros Hreach Hnone.
  pose proof (scoreOk_reachable _ s
                (scoreOk_startMatch newPlayers firstServe firstServerName
                   opponentReceiverName target startTime) Hreach) as Hok.
  destruct (inProgress_counts s Hok Hnone) as (Hlen & HA & HB).
  split; [exact Hlen|]. split; [exact HA|]. split; [exact HB|].
  intros time t g Hgame. unfold inProgressGame in Hgame.
  destruct (isMatchStarted s && (len (currentSetPointHistory s) >? 0));
    [|discriminate Hgame].
  injection Hgame as <-.
  assert (Hcomplete : len (completePointHistory s)
                      = pointsA s + pointsB s + 1).
  { unfold completePointHistory. rewrite len_app, Hlen. reflexivity. }
  split; [exact Hcomplete|].
  unfold displayedTotalPointsPlayed.
  rewrite calculateGameStats_total.
  cbn [GameSnapshot.winnerSide GameSnapshot.pointHistory].
  rewrite Hcomplete.
  pose proof (len_nonneg (currentSetPointHistory s)).
  destruct (Z.gtb_spec (pointsA s + pointsB s + 1) 0); lia.
Qed.

Lemma set_in_progress_history_witness :
  hookReachable doublesStart (hookPlay doublesStart [B; B; A])
  /\ setFinishData (hookPlay doublesStart [B; B; A]) = None
  /\ len (currentSetPointHistory (hookPlay doublesStart [B; B; A])) = 3.
Proof.
  assert (HR : hookReachable doublesStart (hookPlay doublesStart [B; B; A]))
    by (apply hookPlay_reachable; reflexivity).
  assert (HN : setFinishData (hookPlay doublesStart [B; B; A]) = None)
    by reflexivity.
  split; [exact HR|]. split; [exact HN|].
  exact (proj1 (set_in_progress_history initialState _ doublesPlayers A
                  (Str "Ann") (Str "Cat") (Some 15) 0 HR HN)).
Defined.

Lemma sumOver_app {T : Type} (f : T -> Z) (l r : list T) :
  sumOver f (l ++ r) = sumOver f l + sumOver f r.
Proof.
  unfold sumOver. induction l as [|x rest IH]; cbn [app map fold_right].
  - reflexivity.
  - rewrite IH. lia.
Qed.

Lemma sumOver_lengths (l : list GameSnapshot.t) :
  Forall historyMatchesScore l ->
  sumOver (fun g => len (GameSnapshot.pointHistory g)) l
  = sumOver (fun g => GameSnapshot.pointsA g + GameSnapshot.pointsB g) l
    + len l.
Proof.
  unfold sumOver, len. induction 1 as [|g rest Hg _ IH];
    cbn [map fold_right List.length].
  - reflexivity.
  - rewrite IH. unfold historyMatchesScore, len in Hg. rewrite Hg. lia.
Qed.

Lemma historyForModal_matches (s : MatchState) (time : Z) :
  scoreOk s -> Forall historyMatchesScore (historyForModal s time).
Proof.
  intros Hok.
  assert (Hdone : Forall historyMatchesScore (matchHistory s)).
  { destruct Hok as (_ & _ & _ & Hgames).
    rewrite Forall_forall in Hgames |- *. intros g Hin.
    now destruct (gameOk_facts _ g (Hgames g Hin))
      as (w & _ & _ & _ & _ & _ & Hlen & _). }
  unfold historyForModal, inProgressGame.
  destruct (isMatchStarted s && (len (currentSetPointHistory s) >? 0))
    eqn:Shown; [|exact Hdone].
  apply Forall_app. split; [exact Hdone|].
  constructor; [|constructor].
  apply andb_true_iff in Shown. destruct Shown as [_ Hsome].
  apply Z.gtb_lt in Hsome.
  assert (Hnone : setFinishData s = None).
  { destruct Hok as (_ & Hslot & _).
    destruct (setFinishData s) as [g|]; [|reflexivity].
    destruct (Hslot g eq_refl) as (_ & _ & _ & Hempty).
    rewrite Hempty in Hsome. unfold len in Hsome. cbn in Hsome. lia. }
  destruct (inProgress_counts s Hok Hnone) as (Hlen & _).
  unfold historyMatchesScore, completePointHistory.
  cbn [GameSnapshot.pointHistory GameSnapshot.pointsA GameSnapshot.pointsB].
  rewrite len_app, Hlen. reflexivity.
Qed.

Lemma matchStats_totalPointsPlayed (history : list GameSnapshot.t) (t : Z) :
  totalPointsPlayed (calculateMatchStats history t)
  = sumOver (fun g => len (GameSnapshot.pointHistory g)) history.
Proof.
  unfold calculateMatchStats.
  destruct (mergeStats_fold
              (map (fun game => calculateGameStats game t) history)
              emptyStats) as (_ & _ & H3 & _).
  cbv zeta in H3. rewrite H3, sumOver_map.
  cbn [emptyStats totalPointsPlayed]. rewrite Z.add_0_l.
  apply sumOver_ext. intros g. apply calculateGameStats_total.
Qed.

(** X18. Under the host, the number the match tab of the history modal shows as
    "Total Points Played" is the sum of the scores of the sets it lists
    (the completed ones and the one in progress), plus the number of these
    sets, minus one: it is the number of points played for a single set,
    and one too many for every further set. *)
Theorem match_total_points_shown
    (s0 s : MatchState) (newPlayers : Players) (firstServe : Side)
    (firstServerName opponentReceiverName : jsval) (target : option Z)
    (startTime time t : Z) :
  hookReachable
    (matchReducer s0 (START_MATCH newPlayers firstServe firstServerName
                                  opponentReceiverName target startTime)) s ->
  displayedMatchTotalPointsPlayed (historyForModal s time) t
  = sumOver (fun g => GameSnapshot.pointsA g + GameSnapshot.pointsB g)
            (historyForModal s time)
    + (len (historyForModal s time) - 1).
Proof.
  intros Hreach.
  pose proof (scoreOk_reachable _ s
                (scoreOk_startMatch newPlayers firstServe firstServerName
                   opponentReceiverName target startTime) Hreach) as Hok.
  unfold displayedMatchTotalPointsPlayed.
  rewrite matchStats_totalPointsPlayed.
  rewrite (sumOver_lengths _ (historyForModal_matches s time Hok)). lia.
Qed.

(* ------------------------------------------------------------------ *)
(** ** The rotation invariant of a match driven by the host *)
(* ------------------------------------------------------------------ *)

Lemma orElse_cases (v d : jsval) : orElse v d = v \/ orElse v d = d.
Proof. destruct v as [| |[|c rest]]; cbn; auto. Qed.

Lemma at_cases (l : list jsval) (k : Z) :
  In (at_ l k) l \/ at_ l k = Undefined.
Proof.
  destruct (Z.ltb_spec k 0) as [Hneg | Hpos].
  - right. unfold at_. destruct (Z.ltb_spec k 0); [reflexivity|lia].
  - destruct (Z.ltb_spec k (len l)) as [Hin | Hout].
    + left. apply at_In. lia.
    + right. now apply at_outside.
Qed.

Lemma winnerTeamOf_teamOf (g : GameSnapshot.t) (w : Side) (p : Players) :
  GameSnapshot.winnerSide g = Some w ->
  winnerTeamOf g p = teamOf w p /\ loserTeamOf g p = teamOf (otherSide w) p.
Proof.
  intros Hw. unfold winnerTeamOf, loserTeamOf. rewrite Hw.
  destruct w; split; reflexivity.
Qed.

Lemma next_index_parity (idx n : Z) :
  Z.even n = true -> 0 <= idx < n ->
  0 <= Z.rem (idx + 1) n < n
  /\ Z.even (Z.rem (idx + 1) n) = negb (Z.even idx).
Proof.
  intros Heven Hidx. split; [apply rem_range; lia|].
  rewrite rem_is_mod by lia.
  destruct (Z.eq_dec (idx + 1) n) as [Hwrap | Hstay].
  - rewrite Hwrap, Z.mod_same by lia.
    replace idx with (Z.pred n) by lia.
    rewrite Z.even_pred, <- Z.negb_even, Heven. reflexivity.
  - rewrite Z.mod_small by lia.
    rewrite Z.add_1_r, Z.even_succ, <- Z.negb_even. reflexivity.
Qed.

Lemma otherSide_involutive (sd : Side) : otherSide (otherSide sd) = sd.
Proof. now destruct sd. Qed.

Lemma side_unique (r : Players) (x y : Side) (v : jsval) :
  validRosters r -> In v (teamOf x r) -> In v (teamOf y r) -> x = y.
Proof.
  intros Hvalid Hx Hy. destruct x, y; try reflexivity; exfalso.
  - exact (sides_disjoint r A v v Hvalid Hx Hy eq_refl).
  - exact (sides_disjoint r B v v Hvalid Hx Hy eq_refl).
Qed.

(** The rally winner serves next: in a state of the rotation invariant
    with a set being played, the new serving side is the side that won the
    rally, and the new server is one of its players. *)
Lemma rally_winner_serves (r : Players) (s : MatchState) (side : Side) :
  validRosters r -> rotationOk r s -> setFinishData s = None ->
  newServerSide s side = side
  /\ In (newServer s side) (teamOf side r)
  /\ newServer s side = at_ (serveOrder s) (newServeIndex s side).
Proof.
  intros Hvalid (Hok & [x [Heven Halt]] & _ & Hcur & _) Hnone.
  specialize (Hcur Hnone).
  destruct Hok as (HT & _ & Hside & Hord & Hidx & _).
  specialize (Hside Hnone).
  destruct (serverSide s) as [y|] eqn:Serving; [|destruct Hside].
  cbn [onSide] in Hside.
  unfold newServerSide, newServer, newServeIndex.
  destruct (rotates s side) eqn:Rot.
  - assert (Hy : y = otherSide side).
    { unfold rotates in Rot. rewrite Serving in Rot. cbn [isSide] in Rot.
      apply andb_true_iff in Rot. destruct Rot as [Rot _].
      apply negb_true_iff in Rot. unfold side_eqb in Rot.
      destruct (Side_eq_dec y side); [discriminate Rot|].
      destruct y, side; try reflexivity; congruence. }
    destruct (next_index_parity (serveIndex s) (len (serveOrder s))
                Heven Hidx) as [Hrange Hflip].
    pose proof (Halt _ Hidx) as Hold. rewrite <- Hcur in Hold.
    pose proof (Halt _ Hrange) as Hnew. rewrite Hflip in Hnew.
    assert (Hnew' : In (at_ (serveOrder s)
                          (Z.rem (serveIndex s + 1) (len (serveOrder s))))
                       (teamOf side r)).
    { pose proof (side_unique r _ _ _ Hvalid Hold Hside) as Hpx.
      destruct (Z.even (serveIndex s)); cbn [negb] in Hnew.
      - rewrite Hpx, Hy, otherSide_involutive in Hnew. exact Hnew.
      - assert (Hx : x = side).
        { rewrite <- (otherSide_involutive x), Hpx, Hy.
          apply otherSide_involutive. }
        now rewrite Hx in Hnew. }
    split; [|split; [exact Hnew' | reflexivity]].
    pose proof (side_of_player r (players s) _ HT
                  (teamOf_app r side _ Hnew')) as Hcomputed.
    cbn [onSide] in Hcomputed.
    exact (side_unique r _ _ _ Hvalid Hcomputed Hnew').
  - assert (Hy : y = side).
    { unfold rotates in Rot. rewrite Serving in Rot. cbn [isSide] in Rot.
      apply andb_false_iff in Rot. destruct Rot as [Rot | Rot].
      - apply negb_false_iff in Rot. now apply side_eqb_true in Rot.
      - destruct (Z.gtb_spec (len (serveOrder s)) 0);
          [discriminate Rot | lia]. }
    subst y. rewrite Serving.
    split; [reflexivity|]. split; [exact Hside | exact Hcur].
Qed.

Lemma rotationOk_inProgress (r : Players) (s : MatchState) (side : Side) :
  validRosters r -> rotationOk r s -> setFinishData s = None ->
  rotationOk r (incrementInProgress s side).
Proof.
  intros Hvalid Hrot Hnone.
  destruct (rally_winner_serves r s side Hvalid Hrot Hnone)
    as (_ & _ & Hnew).
  destruct Hrot as (Hok & Halt & Hperm & Hcur & Hhist & _).
  split; [now apply incrementInProgress_ok|].
  cbn [incrementInProgress serveOrder setFinishData currentServer serveIndex
       currentSetPointHistory].
  split; [exact Halt|]. split; [exact Hperm|].
  split; [intros _; exact Hnew|]. split.
  - apply Forall_app. split; [exact Hhist|].
    constructor; [|constructor]. cbn. now apply Hcur.
  - intros g Hg. rewrite Hnone in Hg. discriminate Hg.
Qed.

Lemma rotationOk_finished (r : Players) (s : MatchState) (side : Side)
    (time : Z) :
  validRosters r -> rotationOk r s ->
  rotationOk r (incrementFinished s side time).
Proof.
  intros Hvalid (Hok & Halt & Hperm & _).
  pose proof Hok as (HT & _).
  split; [now apply incrementFinished_ok|].
  cbn [incrementFinished serveOrder setFinishData currentServer serveIndex
       currentReceiver currentSetPointHistory].
  split; [exact Halt|]. split; [exact Hperm|].
  split; [intros H; discriminate H|]. split; [constructor|].
  intros g Hg. injection Hg as <-.
  exists (winnerSide s side). split; [reflexivity|].
  split; [now apply defaultNextServer_winner|]. split; [|reflexivity].
  cbn [incrementFinished currentReceiver].
  unfold defaultNextReceiver. cbv zeta.
  destruct (side_eqb (winnerSide s side) A); cbv iota;
    match goal with
    | |- In (at_ ?team ?k) _ \/ _ =>
        destruct (at_cases team k) as [Hin | Hout]; [left | now right]
    end;
    now apply (sameTeams_In (players s) r _ _ HT).
Qed.

Lemma rotationOk_undo (r : Players) (s : MatchState) :
  rotationOk r s -> rotationOk r (undo s).
Proof.
  intros Hrot. pose proof Hrot as (Hok & Halt & Hperm & Hcur & Hhist & Hwait).
  split; [now apply undo_ok|].
  unfold undo.
  destruct (len (currentSetPointHistory s) =? 0) eqn:Empty.
  { split; [exact Halt|]. split; [exact Hperm|].
    split; [exact Hcur|]. split; [exact Hhist | exact Hwait]. }
  assert (Hne : currentSetPointHistory s <> []).
  { intros E. rewrite E in Empty. discriminate. }
  assert (Hnone : setFinishData s = None).
  { destruct (setFinishData s) as [g|] eqn:Slot; [|reflexivity].
    destruct (Hwait g eq_refl) as (w & _ & _ & _ & Hempty). contradiction. }
  destruct (exists_last Hne) as (rest & p0 & Hist).
  rewrite Hist in Hhist |- *. clear Empty Hne Hist.
  apply Forall_app in Hhist. destruct Hhist as [Hrest Hlast].
  inversion Hlast as [|? ? Hp0 _]; subst.
  unfold lastElem, slice_0_m1. rewrite last_last, removelast_last.
  cbn [restore serveOrder setFinishData currentServer serveIndex
       currentSetPointHistory].
  split; [exact Halt|]. split; [exact Hperm|].
  split; [intros _; exact Hp0|]. split; [exact Hrest|].
  intros g Hg. rewrite Hnone in Hg. discriminate Hg.
Qed.

Lemma partnerOf_In (team : list jsval) (v : jsval) :
  List.length team = 2%nat -> In (partnerOf team v) team.
Proof.
  intros L2. destruct team as [|x [|y [|? ?]]]; try discriminate.
  unfold partnerOf. destruct (strictEq x v); cbn; auto.
Qed.

Lemma resolveName_In (team : list jsval) (v : jsval) :
  team <> [] -> In (resolveName team v) team.
Proof.
  intros Hne. unfold resolveName.
  destruct (includes team v) eqn:Inc; [now apply includes_In|].
  apply at_In. pose proof (len_nonneg team).
  assert (len team <> 0) by (now rewrite len_zero). lia.
Qed.

Lemma resolveName_own (team : list jsval) (v : jsval) :
  In v team -> resolveName team v = v.
Proof.
  intros Hin. unfold resolveName. apply includes_In in Hin. now rewrite Hin.
Qed.

Lemma sameTeams_Permutation (p r : Players) :
  sameTeams p r ->
  Permutation (teamA p ++ teamB p) (teamA r ++ teamB r).
Proof.
  intros [HA HB]. apply Permutation_app; now apply samePair_Permutation.
Qed.

(** Four entries taken in turn from the two pairs alternate. *)
Lemma alternates_four (r : Players) (x : Side) (o0 o1 o2 o3 : jsval) :
  In o0 (teamOf x r) -> In o1 (teamOf (otherSide x) r) ->
  In o2 (teamOf x r) -> In o3 (teamOf (otherSide x) r) ->
  alternates r x [o0; o1; o2; o3].
Proof.
  intros H0 H1 H2 H3. split; [reflexivity|].
  intros k Hk. unfold len in Hk. cbn [List.length] in Hk.
  assert (Hcases : k = 0 \/ k = 1 \/ k = 2 \/ k = 3) by lia.
  destruct Hcases as [-> | [-> | [-> | ->]]]; cbn; assumption.
Qed.

Lemma alternates_two (r : Players) (x : Side) (o0 o1 : jsval) :
  In o0 (teamOf x r) -> In o1 (teamOf (otherSide x) r) ->
  alternates r x [o0; o1].
Proof.
  intros H0 H1. split; [reflexivity|].
  intros k Hk. unfold len in Hk. cbn [List.length] in Hk.
  assert (Hcases : k = 0 \/ k = 1) by lia.
  destruct Hcases as [-> | ->]; cbn; assumption.
Qed.

Lemma singles_pair_Permutation (r : Players) (x : Side) (o0 o1 : jsval) :
  singlesRoster r ->
  In o0 (teamOf x r) -> In o1 (teamOf (otherSide x) r) ->
  Permutation [o0; o1] (teamA r ++ teamB r).
Proof.
  intros [LA LB] H0 H1. destruct r as [tA tB]. cbn [teamA teamB] in *.
  destruct tA as [|a [|? ?]]; try discriminate.
  destruct tB as [|b [|? ?]]; try discriminate.
  destruct x; cbn [teamOf otherSide teamA teamB In] in H0, H1;
    destruct H0 as [<- | []], H1 as [<- | []]; cbn [app].
  - apply Permutation_refl.
  - apply perm_swap.
Qed.

Lemma nextServeOrder_rotation (r : Players) (s : MatchState) (w : Side)
    (server receiver : jsval) :
  validRosters r -> sameTeams (players s) r ->
  In server (teamOf w r) -> In receiver (teamOf (otherSide w) r) ->
  alternates r w (nextServeOrder s server receiver)
  /\ Permutation (nextServeOrder s server receiver) (teamA r ++ teamB r)
  /\ at_ (nextServeOrder s server receiver) 0 = server.
Proof.
  intros Hvalid HT Hsrv Hrcv.
  destruct (roster_shape (players s) r Hvalid HT) as [[Hone HS] | [Hone HD]].
  - unfold nextServeOrder. cbv zeta. rewrite Hone.
    split; [now apply alternates_two|].
    split; [now apply singles_pair_Permutation with w | reflexivity].
  - pose proof (sameTeams_doubles (players s) r HT HD) as HD'.
    pose proof (sameTeams_Permutation (players s) r HT) as Hperm.
    assert (Hnd : NoDup (teamA (players s) ++ teamB (players s))).
    { destruct Hvalid as (_ & _ & Hnd).
      exact (Permutation_NoDup (Permutation_sym Hperm) Hnd). }
    apply (sameTeams_In (players s) r w server HT) in Hsrv.
    apply (sameTeams_In (players s) r (otherSide w) receiver HT) in Hrcv.
    destruct (nextServeOrder_doubles s w server receiver HD' Hnd Hsrv Hrcv)
      as [Horder Hperm'].
    rewrite Horder in Hperm' |- *.
    split; [|split; [|reflexivity]].
    + destruct HD' as [LA LB].
      apply alternates_four;
        apply (sameTeams_In (players s) r _ _ HT);
        try assumption; apply partnerOf_In; destruct w; assumption.
    + exact (Permutation_trans Hperm' Hperm).
Qed.

Lemma rotationOk_continue (r : Players) (s : MatchState) (time : Z)
    (a : MatchAction) :
  validRosters r -> rotationOk r s ->
  continueNextSetAction s time = Some a ->
  rotationOk r (matchReducer s a).
Proof.
  intros Hvalid (Hok & _ & _ & _ & _ & Hwait) Hact.
  pose proof Hok as (HT & _).
  unfold continueNextSetAction in Hact.
  destruct (setFinishData s) as [g|] eqn:Slot; [|discriminate Hact].
  destruct (Hwait g eq_refl) as (w & Hw & Hsrv & Hrcv & _).
  destruct (winnerTeamOf_teamOf g w (players s) Hw) as [Hwin Hlose].
  cbv zeta in Hact. rewrite Hwin, Hlose in Hact. injection Hact as <-.
  set (server := orElse (currentServer s) (at_ (teamOf w (players s)) 0)).
  set (receiver := orElse (currentReceiver s)
                          (at_ (teamOf (otherSide w) (players s)) 0)).
  assert (Hfirst : forall sd : Side,
            In (at_ (teamOf sd (players s)) 0) (teamOf sd r)).
  { intros sd. apply at_samePair; [now apply sameTeams_teamOf|].
    pose proof (roster_nonempty r sd Hvalid). lia. }
  assert (Hserver : In server (teamOf w r)).
  { subst server.
    destruct (orElse_cases (currentServer s) (at_ (teamOf w (players s)) 0))
      as [-> | ->]; [exact Hsrv | apply Hfirst]. }
  assert (Hreceiver : In receiver (teamOf (otherSide w) r)).
  { subst receiver. destruct Hrcv as [Hrcv | Hnone].
    - destruct (orElse_cases (currentReceiver s)
                  (at_ (teamOf (otherSide w) (players s)) 0))
        as [-> | ->]; [exact Hrcv | apply Hfirst].
    - rewrite Hnone. cbn [orElse]. apply Hfirst. }
  destruct (nextServeOrder_rotation r s w server receiver Hvalid HT
              Hserver Hreceiver) as (Halt & Hperm & Hzero).
  split.
  - apply continueNextSet_ok; try assumption.
    + exact (sides_disjoint r w _ _ Hvalid Hserver Hreceiver).
    + apply (members_same (players s) r _ HT). now apply teamOf_app with w.
    + apply (members_same (players s) r _ HT).
      now apply teamOf_app with (otherSide w).
  - cbn [matchReducer continueNextSet serveOrder setFinishData currentServer
         serveIndex currentSetPointHistory].
    split; [now exists w|]. split; [exact Hperm|].
    split; [intros _; now rewrite Hzero|]. split; [constructor|].
    intros g' Hg'. discriminate Hg'.
Qed.

Lemma rotationOk_pick_server (r : Players) (s : MatchState)
    (g : GameSnapshot.t) (v : jsval) :
  validRosters r -> rotationOk r s ->
  setFinishData s = Some g -> In v (winnerTeamOf g (players s)) ->
  rotationOk r (setNextServer s v).
Proof.
  intros Hvalid (Hok & Halt & Hperm & Hcur & Hhist & Hwait) Hslot Hin.
  destruct (Hwait g Hslot) as (w & Hw & _ & Hrcv & Hempty).
  destruct (winnerTeamOf_teamOf g w (players s) Hw) as [Hwin _].
  rewrite Hwin in Hin.
  destruct Hok as (HT & _ & _ & Hord & Hidx & Hsnaps).
  apply (sameTeams_In (players s) r w v HT) in Hin.
  split; [|split; [exact Halt | split; [exact Hperm|]]].
  - split; [exact HT|]. split; [|split; [|split; [exact Hord|]]].
    + cbn [setNextServer currentServer currentReceiver].
      destruct Hrcv as [Hrcv | Hnone].
      * exact (sides_disjoint r w _ _ Hvalid Hin Hrcv).
      * rewrite Hnone. pose proof (roster_isName r w v Hvalid Hin) as Hname.
        intros ->. exact Hname.
    + intros H. cbn in H. rewrite Hslot in H. discriminate H.
    + split; [exact Hidx | exact Hsnaps].
  - split; [|split; [exact Hhist|]].
    + intros H. cbn in H. rewrite Hslot in H. discriminate H.
    + intros g' Hg'. cbn in Hg'. rewrite Hslot in Hg'. injection Hg' as <-.
      exists w. split; [exact Hw|]. split; [exact Hin|].
      split; [exact Hrcv | exact Hempty].
Qed.

Lemma rotationOk_pick_receiver (r : Players) (s : MatchState)
    (g : GameSnapshot.t) (v : jsval) :
  validRosters r -> rotationOk r s ->
  setFinishData s = Some g -> In v (loserTeamOf g (players s)) ->
  rotationOk r (setNextReceiver s v).
Proof.
  intros Hvalid (Hok & Halt & Hperm & Hcur & Hhist & Hwait) Hslot Hin.
  destruct (Hwait g Hslot) as (w & Hw & Hsrv & _ & Hempty).
  destruct (winnerTeamOf_teamOf g w (players s) Hw) as [_ Hlose].
  rewrite Hlose in Hin.
  destruct Hok as (HT & _ & _ & Hord & Hidx & Hsnaps).
  apply (sameTeams_In (players s) r (otherSide w) v HT) in Hin.
  split; [|split; [exact Halt | split; [exact Hperm|]]].
  - split; [exact HT|]. split; [|split; [|split; [exact Hord|]]].
    + cbn [setNextReceiver currentServer currentReceiver].
      exact (sides_disjoint r w _ _ Hvalid Hsrv Hin).
    + intros H. cbn in H. rewrite Hslot in H. discriminate H.
    + split; [exact Hidx | exact Hsnaps].
  - split; [|split; [exact Hhist|]].
    + intros H. cbn in H. rewrite Hslot in H. discriminate H.
    + intros g' Hg'. cbn in Hg'. rewrite Hslot in Hg'. injection Hg' as <-.
      exists w. split; [exact Hw|]. split; [exact Hsrv|].
      split; [now left | exact Hempty].
Qed.

Lemma rotationOk_step (r : Players) (s : MatchState) (a : MatchAction) :
  validRosters r -> rotationOk r s -> hookStep s a ->
  rotationOk r (matchReducer s a).
Proof.
  intros Hvalid Hrot Hstep.
  destruct Hstep as [side time Hnone | | | time a Hact
                    | g v Hslot _ Hin | g v Hslot _ Hin].
  - unfold handleIncrement. cbn [matchReducer]. unfold increment.
    destruct (isSetFinished s side (getMaxPoint (scoringSystem s))).
    + now apply rotationOk_finished.
    + now apply rotationOk_inProgress.
  - now apply rotationOk_undo.
  - exact Hrot.
  - now apply rotationOk_continue with time.
  - now apply rotationOk_pick_server with g.
  - now apply rotationOk_pick_receiver with g.
Qed.

Lemma rotationOk_startMatch (r : Players) (firstServe : Side)
    (firstServerName firstReceiverName : jsval)
    (target : option Z) (startTime : Z) :
  validStart r firstServe firstServerName firstReceiverName ->
  rotationOk r (startMatch r firstServe firstServerName firstReceiverName
                           target startTime).
Proof.
  intros Hstart.
  pose proof (startMatch_ok r firstServe firstServerName firstReceiverName
                target startTime Hstart) as Hok.
  destruct Hstart as (Hvalid & Hsrv & Hrcv).
  split; [exact Hok|].
  cbn [startMatch serveOrder setFinishData currentServer serveIndex
       currentSetPointHistory initialState].
  fold (indexOf (startRotation r firstServe firstServerName firstReceiverName)
                firstServerName).
  assert (Hne : forall sd : Side, teamOf sd r <> []).
  { intros sd E. pose proof (roster_nonempty r sd Hvalid) as Hpos.
    rewrite E in Hpos. unfold len in Hpos. cbn in Hpos. lia. }
  destruct (roster_shape r r Hvalid (sameTeams_refl r)) as [[Hone HS] | [Hone HD]].
  - destruct (startRotation_singles r firstServe firstServerName
                firstReceiverName HS) as [Hnamed Horder].
    assert (Hserver : at_ (teamOf firstServe r) 0 = firstServerName).
    { destruct HS as [LA LB]. destruct r as [tA tB]. cbn [teamA teamB] in *.
      destruct tA as [|a [|? ?]]; try discriminate.
      destruct tB as [|b [|? ?]]; try discriminate.
      destruct firstServe; cbn [teamOf teamA teamB In] in Hsrv |- *;
        destruct Hsrv as [<- | []]; reflexivity. }
    rewrite Hone, Horder.
    assert (Hfirst : forall sd : Side, In (at_ (teamOf sd r) 0) (teamOf sd r)).
    { intros sd. apply at_In. pose proof (roster_nonempty r sd Hvalid). lia. }
    split; [exists firstServe; apply alternates_two; apply Hfirst|].
    split; [apply singles_pair_Permutation with firstServe;
            [exact HS | apply Hfirst | apply Hfirst]|].
    split; [|split; [constructor | intros g Hg; discriminate Hg]].
    intros _. rewrite Hserver. unfold indexOf. cbn [findIndex].
    rewrite strictEq_refl. cbn.
    destruct firstServe; cbn [side_eqb Side_eq_dec Side_rec Side_rect];
      cbn [teamOf] in Hserver; exact Hserver.
  - destruct (startRotation_doubles r firstServe firstServerName
                firstReceiverName HD) as [Horder Hperm].
    cbv zeta in Horder.
    rewrite (resolveName_own _ _ Hsrv), (resolveName_own _ _ Hrcv) in Horder.
    rewrite Hone.
    split.
    { exists firstServe. rewrite Horder. destruct HD as [LA LB].
      apply alternates_four; try assumption;
        apply partnerOf_In; destruct firstServe; assumption. }
    split; [exact Hperm|].
    split; [|split; [constructor | intros g Hg; discriminate Hg]].
    intros _.
    assert (Hin : In firstServerName
                     (startRotation r firstServe firstServerName
                                    firstReceiverName))
      by (rewrite Horder; now left).
    destruct (indexOf_found _ _ Hin) as (Hrange & Hat & _).
    destruct (Z.geb_spec (indexOf (startRotation r firstServe firstServerName
                                                 firstReceiverName)
                                  firstServerName) 0); [|lia].
    now rewrite Hat.
Qed.

Lemma rotationOk_reachable (r : Players) (start s : MatchState) :
  validRosters r -> rotationOk r start -> hookReachable start s ->
  rotationOk r s.
Proof.
  intros Hvalid Hstart Hreach. induction Hreach as [|s a _ IH Hstep].
  - exact Hstart.
  - now apply rotationOk_step.
Qed.

(* ------------------------------------------------------------------ *)
(** ** Serving and receiving under the host *)
(* ------------------------------------------------------------------ *)

Lemma server_slot_in_play (sd : Side) (team : Players)
    (serverName receiverName : jsval) (ptsA ptsB : Z) :
  doublesRoster team ->
  In serverName (teamOf sd team) ->
  ~ (ptsA = 0 /\ ptsB = 0) ->
  slotByParity (isEven (match sd with A => ptsA | B => ptsB end)) sd
    (getTeamPositions (Some sd) team serverName receiverName ptsA ptsB)
  = serverName.
Proof.
  intros [HA HB] Hsrv Hplay. two_players team. clear HA HB.
  cbv beta zeta delta [getTeamPositions].
  destruct ((ptsA =? 0) && (ptsB =? 0)) eqn:Zero.
  { exfalso. apply Hplay. apply andb_true_iff in Zero.
    rewrite !Z.eqb_eq in Zero. exact Zero. }
  clear Zero Hplay. unfold indexOf, slotByParity.
  destruct sd; cbn [teamOf teamA teamB In] in Hsrv;
    destruct Hsrv as [<- | [<- | []]].
  1, 2: destruct (isEven ptsA); case_names_closed; congruence.
  1, 2: destruct (isEven ptsB); case_names_closed; congruence.
Qed.

Lemma receiver_slot_in_play (s : MatchState) (side : Side) :
  (len (teamA (players s)) =? 1) = false ->
  newServerSide s side = side ->
  currentReceiver (incrementInProgress s side)
  = slotByParity (isEven (statePoints side (incrementInProgress s side)))
      (otherSide side) (players (incrementInProgress s side)).
Proof.
  intros Hdoubles Hside.
  destruct side.
  - change (statePoints A (incrementInProgress s A)) with (newPointsA s A).
    cbn [incrementInProgress currentReceiver players].
    rewrite Hdoubles, Hside. unfold slotByParity.
    cbn [side_eqb Side_eq_dec Side_rec Side_rect andb otherSide rightSlot
         leftSlot].
    destruct (isEven (newPointsA s A)); reflexivity.
  - change (statePoints B (incrementInProgress s B)) with (newPointsB s B).
    cbn [incrementInProgress currentReceiver players].
    rewrite Hdoubles, Hside. unfold slotByParity.
    cbn [side_eqb Side_eq_dec Side_rec Side_rect andb otherSide rightSlot
         leftSlot].
    destruct (isEven (newPointsB s B)); reflexivity.
Qed.

(** X19. Under the host, after a valid start, the side that wins a rally serves
    the next one: after a point that does not complete the set the serving
    side is the side that scored, the server is one of its players and the
    receiver a player of the other side.  In doubles the server stands in
    the right court on an even score of the serving side and in the left
    court on an odd one, and the receiver stands in the same court of the
    other side. *)
Theorem rally_winner_serves_next
    (s0 s : MatchState) (r : Players) (firstServe : Side)
    (firstServerName firstReceiverName : jsval) (target : option Z)
    (startTime : Z) (side : Side) (time : Z) :
  validStart r firstServe firstServerName firstReceiverName ->
  hookReachable
    (matchReducer s0 (START_MATCH r firstServe firstServerName
                                  firstReceiverName target startTime)) s ->
  setFinishData s = None ->
  ~ completionPredicate s side (getMaxPoint (scoringSystem s)) ->
  let s' := matchReducer s (handleIncrement s side time) in
  serverSide s' = Some side
  /\ In (currentServer s') (teamOf side r)
  /\ In (currentReceiver s') (teamOf (otherSide side) r)
  /\ (doublesRoster r ->
      currentServer s'
      = slotByParity (Z.even (statePoints side s')) side (players s')
      /\ currentReceiver s'
         = slotByParity (Z.even (statePoints side s')) (otherSide side)
             (players s')).
Proof.
  intros Hstart Hreach Hnone Hnot s'.
  assert (Hvalid : validRosters r) by now destruct Hstart.
  pose proof (rotationOk_reachable r _ s Hvalid
                (rotationOk_startMatch r firstServe firstServerName
                   firstReceiverName target startTime Hstart) Hreach)
    as Hrot.
  pose proof (scoreOk_reachable _ s
                (scoreOk_startMatch r firstServe firstServerName
                   firstReceiverName target startTime) Hreach)
    as (Hplay & _).
  destruct (Hplay Hnone) as [Hin _].
  assert (Hs' : s' = incrementInProgress s side).
  { subst s'. unfold handleIncrement. now apply increment_in_progress. }
  rewrite Hs'. clear s' Hs'.
  destruct (rally_winner_serves r s side Hvalid Hrot Hnone)
    as (Hside & Hserver & _).
  pose proof Hrot as (Hok & _).
  destruct (newReceiver_otherSide r s side Hvalid Hok) as [HT' Hreceiver].
  rewrite Hside in Hreceiver.
  split; [cbn [incrementInProgress serverSide]; now rewrite Hside|].
  split; [exact Hserver|]. split; [exact Hreceiver|].
  intros HD. rewrite <- !isEven_even.
  pose proof Hok as (HT & _).
  destruct (roster_shape (players s) r Hvalid HT) as [[_ HS] | [Hone _]].
  { destruct HS as [LA _], HD as [LA' _]. congruence. }
  split; [|now apply receiver_slot_in_play].
  cbn [incrementInProgress currentServer players]. rewrite Hone.
  symmetry.
  assert (Hscore : statePoints side (incrementInProgress s side)
                   = match side with
                     | A => newPointsA s side
                     | B => newPointsB s side
                     end) by now destruct side.
  rewrite Hscore.
  apply server_slot_in_play.
  - exact (sameTeams_doubles (players s) r HT HD).
  - now apply (sameTeams_In (players s) r side _ HT).
  - unfold inPlay in Hin. unfold newPointsA, newPointsB.
    destruct side; cbn [side_eqb Side_eq_dec Side_rec Side_rect]; lia.
Qed.

Lemma rally_winner_serves_next_witness :
  validStart doublesPlayers A (Str "Ann") (Str "Cat")
  /\ hookReachable doublesStart doublesStart
  /\ setFinishData doublesStart = None
  /\ ~ completionPredicate doublesStart B
         (getMaxPoint (scoringSystem doublesStart))
  /\ serverSide (matchReducer doublesStart (handleIncrement doublesStart B 9))
     = Some B.
Proof.
  assert (HR : hookReachable doublesStart doublesStart) by apply hook_start.
  assert (HN : setFinishData doublesStart = None) by reflexivity.
  assert (HC : ~ completionPredicate doublesStart B
                 (getMaxPoint (scoringSystem doublesStart))).
  { apply isSetFinished_false. vm_compute. reflexivity. }
  split; [exact doublesStart_valid|]. split; [exact HR|].
  split; [exact HN|]. split; [exact HC|].
  exact (proj1 (rally_winner_serves_next initialState doublesStart
                  doublesPlayers A (Str "Ann") (Str "Cat") (Some 15) 0 B 9
                  doublesStart_valid HR HN HC)).
Defined.

(** X20. Under the host, after a valid start, the receiver never equals the
    server, also while the set-finish modal is up and its pickers are used;
    the positions hold the players of the rosters, no one changing sides. *)
Theorem server_and_receiver_differ_under_host
    (s0 s : MatchState) (r : Players) (firstServe : Side)
    (firstServerName firstReceiverName : jsval) (target : option Z)
    (startTime : Z) :
  validStart r firstServe firstServerName firstReceiverName ->
  hookReachable
    (matchReducer s0 (START_MATCH r firstServe firstServerName
                                  firstReceiverName target startTime)) s ->
  currentServer s <> currentReceiver s
  /\ Permutation (teamA (players s)) (teamA r)
  /\ Permutation (teamB (players s)) (teamB r).
Proof.
  intros Hstart Hreach.
  assert (Hvalid : validRosters r) by now destruct Hstart.
  pose proof (rotationOk_reachable r _ s Hvalid
                (rotationOk_startMatch r firstServe firstServerName
                   firstReceiverName target startTime Hstart) Hreach)
    as (Hok & _).
  destruct Hok as (HT & Hneq & _). destruct HT as [HA HB].
  split; [exact Hneq|]. split; now apply samePair_Permutation.
Qed.

Lemma server_and_receiver_differ_under_host_witness :
  validStart doublesPlayers A (Str "Ann") (Str "Cat")
  /\ hookReachable doublesStart (hookPlay doublesStart [B; B; A])
  /\ currentServer (hookPlay doublesStart [B; B; A])
     <> currentReceiver (hookPlay doublesStart [B; B; A]).
Proof.
  assert (HR : hookReachable doublesStart (hookPlay doublesStart [B; B; A]))
    by (apply hookPlay_reachable; reflexivity).
  split; [exact doublesStart_valid|]. split; [exact HR|].
  exact (proj1 (server_and_receiver_differ_under_host initialState _
                  doublesPlayers A (Str "Ann") (Str "Cat") (Some 15) 0
                  doublesStart_valid HR)).
Defined.

(** X21. Under the host, after a valid start, the serve order always lists the
    players of the match once each (two entries in singles, four in
    doubles), alternating between the sides, and the rotation index always
    points into it; while a set is being played the entry it points at is
    the current server, a player of the serving side. *)
Theorem serve_order_invariant
    (s0 s : MatchState) (r : Players) (firstServe : Side)
    (firstServerName firstReceiverName : jsval) (target : option Z)
    (startTime : Z) :
  validStart r firstServe firstServerName firstReceiverName ->
  hookReachable
    (matchReducer s0 (START_MATCH r firstServe firstServerName
                                  firstReceiverName target startTime)) s ->
  Permutation (serveOrder s) (teamA r ++ teamB r)
  /\ NoDup (serveOrder s)
  /\ len (serveOrder s) = len (teamA r) + len (teamB r)
  /\ (exists x : Side, alternates r x (serveOrder s))
  /\ 0 <= serveIndex s < len (serveOrder s)
  /\ (setFinishData s = None ->
      at_ (serveOrder s) (serveIndex s) = currentServer s
      /\ exists sd : Side,
           serverSide s = Some sd /\ In (currentServer s) (teamOf sd r)).
Proof.
  intros Hstart Hreach.
  assert (Hvalid : validRosters r) by now destruct Hstart.
  pose proof (rotationOk_reachable r _ s Hvalid
                (rotationOk_startMatch r firstServe firstServerName
                   firstReceiverName target startTime Hstart) Hreach)
    as (Hok & Halt & Hperm & Hcur & _).
  destruct Hok as (_ & _ & Hside & _ & Hidx & _).
  split; [exact Hperm|].
  split; [destruct Hvalid as (_ & _ & Hnd);
          exact (Permutation_NoDup (Permutation_sym Hperm) Hnd)|].
  split; [unfold len; rewrite (Permutation_length Hperm), length_app; lia|].
  split; [exact Halt|]. split; [exact Hidx|].
  intros Hnone. split; [symmetry; now apply Hcur|].
  specialize (Hside Hnone).
  destruct (serverSide s) as [sd|]; [|destruct Hside].
  exists sd. split; [reflexivity | exact Hside].
Qed.

Lemma serve_order_invariant_witness :
  validStart doublesPlayers A (Str "Ann") (Str "Cat")
  /\ hookReachable doublesStart (hookPlay doublesStart [B; B; A])
  /\ len (serveOrder (hookPlay doublesStart [B; B; A])) = 4.
Proof.
  assert (HR : hookReachable doublesStart (hookPlay doublesStart [B; B; A]))
    by (apply hookPlay_reachable; reflexivity).
  split; [exact doublesStart_valid|]. split; [exact HR|].
  exact (proj1 (proj2 (proj2
           (serve_order_invariant initialState _ doublesPlayers A
              (Str "Ann") (Str "Cat") (Some 15) 0 doublesStart_valid HR)))).
Defined.

Lemma match_total_points_shown_witness :
  hookReachable doublesStart (hookPlay doublesStart [B; B; A])
  /\ displayedMatchTotalPointsPlayed
       (historyForModal (hookPlay doublesStart [B; B; A]) 75) 15
     = 3.
Proof.
  assert (HR : hookReachable doublesStart (hookPlay doublesStart [B; B; A]))
    by (apply hookPlay_reachable; reflexivity).
  split; [exact HR|].
  exact (match_total_points_shown initialState _ doublesPlayers A
           (Str "Ann") (Str "Cat") (Some 15) 0 75 15 HR).
Defined.

(* ------------------------------------------------------------------ *)
(** ** The default next server under the host *)
(* ------------------------------------------------------------------ *)

Lemma servedChain_app (prev q : PointSnapshot.t) (l : list PointSnapshot.t) :
  servedChain prev (l ++ [q])
  <-> servedChain prev l /\ servedBy (last l prev) q.
Proof.
  revert prev. induction l as [|p rest IH]; intros prev.
  - cbn [app servedChain last]. tauto.
  - rewrite last_cons_default. cbn [app servedChain]. rewrite IH. tauto.
Qed.

Lemma servedTrail_app (l : list PointSnapshot.t) (p q : PointSnapshot.t) :
  servedTrail ((l ++ [p]) ++ [q]) <-> servedTrail (l ++ [p]) /\ servedBy p q.
Proof.
  destruct l as [|first rest].
  - cbn [app servedTrail servedChain]. tauto.
  - cbn [app servedTrail]. rewrite servedChain_app, last_last. tauto.
Qed.

Lemma servingOk_step (r : Players) (s : MatchState) (a : MatchAction) :
  validRosters r -> rotationOk r s -> servingOk s -> hookStep s a ->
  servingOk (matchReducer s a).
Proof.
  intros Hvalid Hrot Hserved Hstep.
  destruct Hstep as [side time Hnone | | | time a Hact
                    | g v Hslot _ _ | g v Hslot _ _].
  - unfold handleIncrement. cbn [matchReducer]. unfold increment.
    destruct (isSetFinished s side (getMaxPoint (scoringSystem s))).
    + intros H. discriminate H.
    + intros _.
      cbn [incrementInProgress currentSetPointHistory].
      apply servedTrail_app. split; [now apply Hserved|].
      exists side. split; [|apply rally_createSnapshot].
      destruct (rally_winner_serves r s side Hvalid Hrot Hnone)
        as (Hside & _).
      cbn. now rewrite Hside.
  - cbn [handleUndo matchReducer]. unfold undo.
    destruct (len (currentSetPointHistory s) =? 0) eqn:Empty;
      [exact Hserved|].
    assert (Hne : currentSetPointHistory s <> []).
    { intros E. rewrite E in Empty. discriminate. }
    destruct Hrot as (_ & _ & _ & _ & _ & Hwait).
    assert (Hnone : setFinishData s = None).
    { destruct (setFinishData s) as [g|] eqn:Slot; [|reflexivity].
      destruct (Hwait g eq_refl) as (w & _ & _ & _ & Hempty).
      contradiction. }
    specialize (Hserved Hnone).
    destruct (exists_last Hne) as (rest & p0 & Hist).
    rewrite Hist in Hserved |- *.
    apply servedTrail_app in Hserved. destruct Hserved as [Htrail _].
    unfold lastElem, slice_0_m1. rewrite last_last, removelast_last.
    intros _. rewrite createSnapshot_restore. exact Htrail.
  - exact Hserved.
  - unfold continueNextSetAction in Hact.
    destruct (setFinishData s); [|discriminate Hact].
    injection Hact as <-. intros _. exact I.
  - intros H. cbn in H. rewrite Hslot in H. discriminate H.
  - intros H. cbn in H. rewrite Hslot in H. discriminate H.
Qed.

Lemma servingOk_reachable (r : Players) (start s : MatchState) :
  validRosters r -> rotationOk r start -> servingOk start ->
  hookReachable start s -> rotationOk r s /\ servingOk s.
Proof.
  intros Hvalid Hrot Hserved Hreach.
  induction Hreach as [|s a _ [IHrot IHserved] Hstep].
  - now split.
  - split; [now apply rotationOk_step | now apply servingOk_step with r].
Qed.

Lemma slice_m2_two (l : list Side) (x y : Side) :
  slice_m2 ((l ++ [x]) ++ [y]) = [x; y].
Proof.
  unfold slice_m2. rewrite !length_app. cbn [List.length].
  replace (Datatypes.length l + 1 + 1 - 2)%nat
    with (Datatypes.length l + 0)%nat by lia.
  rewrite <- !app_assoc. rewrite skipn_app, Nat.add_0_r.
  rewrite skipn_all, Nat.sub_diag. reflexivity.
Qed.

(** The last point winners kept at the end of a set, under the serving
    invariant: the side serving the final rally, then the scorer; the
    scorer alone when the set had no earlier rally. *)
Lemma lastTwo_at_finish (s : MatchState) (side y : Side) :
  servedTrail (currentSetPointHistory s ++ [createSnapshot s]) ->
  serverSide s = Some y ->
  slice_m2 (winners (gameHistory s side))
  = match currentSetPointHistory s with
    | [] => [side]
    | _ :: _ => [y; side]
    end.
Proof.
  intros Htrail Hserving.
  assert (Hstep : winnersFrom (createSnapshot s) [finalPointSnapshot s side]
                  = [side])
    by (apply winnersFrom_rally; apply rally_createSnapshot).
  unfold gameHistory.
  destruct (currentSetPointHistory s) as [|first rest].
  - cbn [app winners]. now rewrite Hstep.
  - cbn [app winners servedTrail] in Htrail |- *.
    change (rest ++ [createSnapshot s; finalPointSnapshot s side])
      with (rest ++ [createSnapshot s] ++ [finalPointSnapshot s side]).
    rewrite app_assoc, winnersFrom_app, last_last, Hstep.
    apply servedChain_app in Htrail. destruct Htrail as [_ Hlast].
    destruct Hlast as (sd & Hsd & Hrally).
    cbn [createSnapshot PointSnapshot.serverSide] in Hsd.
    rewrite Hserving in Hsd. injection Hsd as <-.
    rewrite winnersFrom_app, (winnersFrom_rally y _ _ Hrally).
    apply slice_m2_two.
Qed.

Lemma partner_index_parity (idx n : Z) :
  Z.even n = true -> 0 <= idx < n ->
  0 <= Z.rem (idx + 2) n < n
  /\ Z.even (Z.rem (idx + 2) n) = Z.even idx.
Proof.
  intros Heven Hidx. rewrite rem_is_mod by lia.
  split; [apply Z.mod_pos_bound; lia|].
  assert (Hone : n <> 1) by (intros E; rewrite E in Heven; discriminate).
  destruct (Z.lt_ge_cases (idx + 2) n) as [Hsmall | Hwrap].
  - rewrite Z.mod_small by lia.
    rewrite Z.even_add. destruct (Z.even idx); reflexivity.
  - replace (idx + 2) with ((idx + 2 - n) + 1 * n) by lia.
    rewrite Z.mod_add by lia. rewrite Z.mod_small by lia.
    rewrite Z.even_sub, Z.even_add, Heven.
    destruct (Z.even idx); reflexivity.
Qed.

Lemma servingOk_startMatch (newPlayers : Players) (firstServe : Side)
    (firstServerName firstReceiverName : jsval)
    (target : option Z) (startTime : Z) :
  servingOk (startMatch newPlayers firstServe firstServerName
                        firstReceiverName target startTime).
Proof. intros _. exact I. Qed.

(** The guard that closes the choice of the default next server: a player
    of the side [y] is kept when [y] won the set, and replaced by the
    winning pair's first entry otherwise. *)
Lemma winning_side_guard (r : Players) (s : MatchState) (side y : Side)
    (chosen : jsval) :
  validRosters r -> sameTeams (players s) r -> In chosen (teamOf y r) ->
  (if negb (includes (teamOf side (players s)) chosen)
   then at_ (teamOf side (players s)) 0 else chosen)
  = if isSide (Some y) side then chosen
    else at_ (teamOf side (players s)) 0.
Proof.
  intros Hvalid HT Hin. cbn [isSide]. unfold side_eqb.
  destruct (Side_eq_dec y side) as [-> | Hneq].
  - assert (Hinc : includes (teamOf side (players s)) chosen = true).
    { apply includes_In. now apply (sameTeams_In (players s) r side _ HT). }
    now rewrite Hinc.
  - destruct (includes (teamOf side (players s)) chosen) eqn:Hinc;
      [|reflexivity].
    exfalso. apply Hneq.
    apply includes_In in Hinc.
    apply (sameTeams_In (players s) r side _ HT) in Hinc.
    exact (side_unique r y side chosen Hvalid Hin Hinc).
Qed.

(** X22. Under the host, the point that ends a set leaves as default next
    server the player who served it when the serving side won the set, and
    the first entry of the winning pair when the receiving side won it. *)
Theorem default_next_server_under_host
    (s0 s : MatchState) (r : Players) (firstServe : Side)
    (firstServerName firstReceiverName : jsval) (target : option Z)
    (startTime : Z) (side : Side) (time : Z) :
  validStart r firstServe firstServerName firstReceiverName ->
  hookReachable
    (matchReducer s0 (START_MATCH r firstServe firstServerName
                                  firstReceiverName target startTime)) s ->
  setFinishData s = None ->
  completionPredicate s side (getMaxPoint (scoringSystem s)) ->
  let s' := matchReducer s (handleIncrement s side time) in
  currentServer s'
  = if isSide (serverSide s) side then currentServer s
    else at_ (teamOf side (players s)) 0.
Proof.
  intros Hstart Hreach Hnone Hfin s'.
  assert (Hvalid : validRosters r) by now destruct Hstart.
  destruct (servingOk_reachable r _ s Hvalid
              (rotationOk_startMatch r firstServe firstServerName
                 firstReceiverName target startTime Hstart)
              (servingOk_startMatch r firstServe firstServerName
                 firstReceiverName target startTime) Hreach)
    as [Hrot Hserved].
  pose proof (scoreOk_reachable _ s
                (scoreOk_startMatch r firstServe firstServerName
                   firstReceiverName target startTime) Hreach)
    as (Hplay & _).
  destruct (Hplay Hnone) as [Hin _].
  destruct (winner_is_scorer s side Hin Hfin) as [Hw _].
  subst s'. unfold handleIncrement.
  rewrite (increment_finished s side _ time Hfin).
  cbn [incrementFinished currentServer].
  destruct Hrot as (Hok & (x & Heven & Halt) & _ & Hcur & _).
  destruct Hok as (HT & _ & Hside & _ & Hidx & _).
  specialize (Hside Hnone). specialize (Hcur Hnone).
  destruct (serverSide s) as [y|] eqn:Serving; [|destruct Hside].
  cbn [onSide] in Hside.
  assert (Hnull : forall d : jsval,
            nullish (currentServer s) d = currentServer s).
  { intros d. pose proof (roster_isName r y _ Hvalid Hside) as Hname.
    destruct (currentServer s); [destruct Hname..|reflexivity]. }
  unfold defaultNextServer. cbv zeta.
  rewrite Hw, (lastTwo_at_finish s side y (Hserved Hnone) Serving).
  assert (Hlen : (len (serveOrder s) >? 0) = true)
    by (apply Z.gtb_lt; lia).
  destruct (currentSetPointHistory s) as [|first rest].
  - change (len [side] =? 2) with false. cbn [andb].
    rewrite Hnull. now apply winning_side_guard with r.
  - change (len [y; side] =? 2) with true. rewrite Hlen. cbn [andb].
    destruct (side_eqb y side) eqn:Same.
    + rewrite Hnull. now apply winning_side_guard with r.
    + assert (Hmember : In (currentServer s) (serveOrder s))
        by (rewrite Hcur; now apply at_In).
      destruct (indexOf_found _ _ Hmember) as (Hrange & Hat & _).
      set (idx := indexOf (serveOrder s) (currentServer s)) in *.
      assert (Hfound : negb (idx =? -1) = true).
      { apply negb_true_iff, Z.eqb_neq. lia. }
      rewrite Hfound.
      destruct (partner_index_parity idx _ Heven Hrange) as [Hk Hparity].
      pose proof (Halt idx Hrange) as Hserver.
      rewrite Hat in Hserver.
      pose proof (side_unique r _ y _ Hvalid Hserver Hside) as Hy.
      pose proof (Halt _ Hk) as Hpartner.
      rewrite Hparity, Hy in Hpartner.
      rewrite (winning_side_guard r s side y _ Hvalid HT Hpartner).
      cbn [isSide]. now rewrite Same.
Qed.

Lemma default_next_server_under_host_witness :
  validStart doublesPlayers A (Str "Ann") (Str "Cat")
  /\ hookReachable doublesStart
       (hookPlay doublesStart (repeat B 14 ++ [A]))
  /\ setFinishData (hookPlay doublesStart (repeat B 14 ++ [A])) = None
  /\ completionPredicate (hookPlay doublesStart (repeat B 14 ++ [A])) B
       (getMaxPoint
          (scoringSystem (hookPlay doublesStart (repeat B 14 ++ [A]))))
  /\ currentServer
       (matchReducer (hookPlay doublesStart (repeat B 14 ++ [A]))
          (handleIncrement (hookPlay doublesStart (repeat B 14 ++ [A]))
             B 60))
     = Str "Dan".
Proof.
  assert (HR : hookReachable doublesStart
                 (hookPlay doublesStart (repeat B 14 ++ [A])))
    by (apply hookPlay_reachable; vm_compute; reflexivity).
  assert (HN : setFinishData (hookPlay doublesStart (repeat B 14 ++ [A]))
               = None) by (vm_compute; reflexivity).
  assert (HC : completionPredicate
                 (hookPlay doublesStart (repeat B 14 ++ [A])) B
                 (getMaxPoint
                    (scoringSystem
                       (hookPlay doublesStart (repeat B 14 ++ [A]))))).
  { apply isSetFinished_spec. vm_compute. reflexivity. }
  split; [exact doublesStart_valid|]. split; [exact HR|].
  split; [exact HN|]. split; [exact HC|].
  pose proof (default_next_server_under_host initialState _ doublesPlayers A
                (Str "Ann") (Str "Cat") (Some 15) 0 B 60
                doublesStart_valid HR HN HC) as Hdefault.
  cbv zeta in Hdefault. rewrite Hdefault. vm_compute. reflexivity.
Defined.

(* ------------------------------------------------------------------ *)
(** ** The new-match wizard *)
(* ------------------------------------------------------------------ *)

(** X23. When the new-match wizard starts a match, a serving side and a
    non-zero target were chosen and the dispatched [START_MATCH] carries
    the rosters built from the form; provided the names (after defaults)
    are pairwise different and, in doubles, the picked server and receiver
    are among the names the pickers offer for the form as it stands, the
    start is a valid one: one or two named players per side, the server on
    the serving side and the receiver on the other. *)
Theorem new_match_modal_valid_start
    (mode : NewMatchModal.Mode) (firstServe : option Side)
    (scoringSystem : option Z) (formData : NewMatchModal.FormData)
    (firstServerName firstReceiverName : string) (a : MatchAction) :
  NewMatchModal.handleStart mode firstServe scoringSystem formData
    firstServerName firstReceiverName = Some a ->
  NoDup (teamA (NewMatchModal.formPlayers mode formData)
         ++ teamB (NewMatchModal.formPlayers mode formData)) ->
  (mode = NewMatchModal.ganda ->
   In firstServerName (NewMatchModal.serverOptions firstServe formData)
   /\ In firstReceiverName
        (NewMatchModal.receiverOptions firstServe formData)) ->
  exists (side : Side) (n : Z) (server receiver : jsval),
    firstServe = Some side
    /\ scoringSystem = Some n /\ n <> 0
    /\ a = START_MATCH (NewMatchModal.formPlayers mode formData) side
             server receiver (Some n) 0
    /\ validStart (NewMatchModal.formPlayers mode formData) side
         server receiver.
Proof.
  unfold NewMatchModal.handleStart. intros Hstart Hdistinct Hpicked.
  destruct firstServe as [side|]; [|discriminate Hstart].
  destruct scoringSystem as [n|]; [|discriminate Hstart].
  cbn [NewMatchModal.noScoring] in Hstart.
  destruct (Z.eqb_spec n 0) as [|Hn]; [discriminate Hstart|].
  exists side, n.
  assert (Hvalid : validRosters (NewMatchModal.formPlayers mode formData)).
  { split; [|split; [|exact Hdistinct]].
    - destruct mode; [left | right]; split; reflexivity.
    - destruct mode; cbn; repeat constructor. }
  destruct mode.
  - cbv zeta in Hstart. injection Hstart as <-.
    eexists. eexists. split; [reflexivity|]. split; [reflexivity|].
    split; [exact Hn|]. split; [reflexivity|].
    split; [exact Hvalid|].
    destruct side; cbn; auto.
  - cbv zeta in Hstart.
    destruct (NewMatchModal.isBlank firstServerName
              || NewMatchModal.isBlank firstReceiverName);
      [discriminate Hstart|].
    injection Hstart as <-.
    exists (Str firstServerName), (Str firstReceiverName).
    split; [reflexivity|]. split; [reflexivity|].
    split; [exact Hn|]. split; [reflexivity|].
    split; [exact Hvalid|].
    destruct (Hpicked eq_refl) as [Hserver Hreceiver].
    unfold NewMatchModal.serverOptions in Hserver.
    unfold NewMatchModal.receiverOptions in Hreceiver.
    destruct side; cbn in Hserver, Hreceiver |- *;
      intuition (subst; auto).
Qed.

Lemma new_match_modal_valid_start_witness :
  validStart
    (NewMatchModal.formPlayers NewMatchModal.ganda
       (NewMatchModal.mkFormData "Ann" "Ben" "Cat" EmptyString))
    A (Str "Ann") (Str "Team B.2").
Proof.
  destruct (new_match_modal_valid_start NewMatchModal.ganda (Some A)
              (Some 21)
              (NewMatchModal.mkFormData "Ann" "Ben" "Cat" EmptyString)
              "Ann" "Team B.2"
              (START_MATCH
                 (NewMatchModal.formPlayers NewMatchModal.ganda
                    (NewMatchModal.mkFormData "Ann" "Ben" "Cat"
                       EmptyString))
                 A (Str "Ann") (Str "Team B.2") (Some 21) 0))
    as (side & n & server & receiver & Hside & _ & _ & Haction & Hvalid).
  - reflexivity.
  - cbn. repeat constructor; cbn; intuition discriminate.
  - intros _. cbn. auto.
  - injection Hside as <-.
    injection Haction as <- <- _. exact Hvalid.
Defined.

(* ------------------------------------------------------------------ *)
(** ** The clock *)
(* ------------------------------------------------------------------ *)

Lemma padded_two_digits (n : Z) :
  0 <= n < 100 ->
  padStart 2 "0" (jsString n)
  = String (digitChar (n / 10)) (String (digitChar (n mod 10)) EmptyString).
Proof.
  intros Hn.
  assert (Hnat : forall k : nat,
            (k < 100)%nat ->
            padStart 2 "0" (jsString (Z.of_nat k))
            = String (digitChar (Z.of_nat k / 10))
                (String (digitChar (Z.of_nat k mod 10)) EmptyString)).
  { intros k Hk.
    do 100 (destruct k as [|k]; [vm_compute; reflexivity|]). lia. }
  rewrite <- (Z2Nat.id n) by lia. apply Hnat. lia.
Qed.

Lemma twoDigits_digitChar (n : Z) :
  0 <= n < 100 ->
  twoDigits (digitChar (n / 10)) (digitChar (n mod 10)) = Some n.
Proof.
  intros Hn.
  assert (Hdigit : forall d : Z,
            0 <= d < 10 -> digitValue (digitChar d) = Some d).
  { intros d Hd.
    assert (Hcases : d = 0 \/ d = 1 \/ d = 2 \/ d = 3 \/ d = 4 \/ d = 5
                     \/ d = 6 \/ d = 7 \/ d = 8 \/ d = 9) by lia.
    repeat (destruct Hcases as [-> | Hcases]; [reflexivity|]).
    now subst d. }
  unfold twoDigits.
  rewrite !Hdigit by (Z.div_mod_to_equations; lia).
  f_equal. Z.div_mod_to_equations. lia.
Qed.

(** X24. Below a hundred hours the clock shows eight characters,
    [HH:MM:SS], which read back as the number of seconds it was given; the
    duration shown in the match history is the same string without its
    seconds. *)
Theorem clock_round_trip (seconds : Z) :
  0 <= seconds < 360000 ->
  String.length (formatTime seconds) = 8%nat
  /\ readClock (formatTime seconds) = Some seconds
  /\ formatDuration seconds = substring 0 5 (formatTime seconds).
Proof.
  intros Hrange. unfold formatTime, formatDuration. cbv zeta.
  rewrite !Z.rem_mod_nonneg by lia.
  assert (Hh : 0 <= seconds / 3600 < 100)
    by (Z.div_mod_to_equations; lia).
  assert (Hm : 0 <= seconds mod 3600 / 60 < 100)
    by (Z.div_mod_to_equations; lia).
  assert (Hs : 0 <= seconds mod 60 < 100)
    by (Z.div_mod_to_equations; lia).
  rewrite !padded_two_digits by assumption.
  split; [reflexivity|]. split; [|reflexivity].
  cbn [append readClock Ascii.eqb Bool.eqb andb].
  rewrite !twoDigits_digitChar by assumption.
  f_equal. Z.div_mod_to_equations. lia.
Qed.

Lemma clock_round_trip_witness :
  0 <= 4000 < 360000 /\ formatTime 4000 = "01:06:40"%string
  /\ readClock (formatTime 4000) = Some 4000.
Proof.
  split; [lia|]. split; [vm_compute; reflexivity|].
  exact (proj1 (proj2 (clock_round_trip 4000 ltac:(lia)))).
Defined.

(* ------------------------------------------------------------------ *)
(** ** The set counters and the match history *)
(* ------------------------------------------------------------------ *)

Lemma setsWonBy_snoc (sd w : Side) (history : list GameSnapshot.t)
    (g : GameSnapshot.t) :
  GameSnapshot.winnerSide g = Some w ->
  setsWonBy sd (history ++ [g])
  = setsWonBy sd history + (if side_eqb w sd then 1 else 0).
Proof.
  intros Hw. unfold setsWonBy. rewrite filter_app, len_app.
  cbn [filter]. rewrite Hw. cbn [isSide].
  destruct (side_eqb w sd); reflexivity.
Qed.

Lemma setsWonBy_nonneg (sd : Side) (history : list GameSnapshot.t) :
  0 <= setsWonBy sd history.
Proof. unfold setsWonBy. apply len_nonneg. Qed.

Lemma setsLedger_step (exact : bool) (s : MatchState) (a : MatchAction) :
  (exact = true -> isReset a = false) ->
  setsLedger exact s -> setsLedger exact (matchReducer s a).
Proof.
  intros Hreset (Hsets & Htotal & Hstack).
  destruct a; cbn [matchReducer].
  - split; [|split; [reflexivity | constructor]].
    destruct exact; split; reflexivity.
  - unfold increment. destruct (isSetFinished s side maxPoint).
    + unfold setsLedger.
      cbn [incrementFinished setsA setsB matchHistory
           currentSetPointHistory].
      rewrite !(setsWonBy_snoc _ (winnerSide s side))
        by reflexivity.
      rewrite len_app. change (len [finishData s side time]) with 1.
      split; [|split; [|constructor]].
      * destruct exact; destruct Hsets; split; lia.
      * destruct (winnerSide s side); cbn; lia.
    + split; [exact Hsets|]. split; [exact Htotal|].
      cbn [incrementInProgress currentSetPointHistory setsA setsB].
      apply Forall_app. split; [exact Hstack|].
      constructor; [split; reflexivity | constructor].
  - split; [exact Hsets|]. split; [exact Htotal | constructor].
  - unfold undo.
    destruct (len (currentSetPointHistory s) =? 0) eqn:Empty;
      [now repeat split|].
    assert (Hne : currentSetPointHistory s <> []).
    { intros E. rewrite E in Empty. discriminate. }
    destruct (exists_last Hne) as (rest & p & Hist).
    rewrite Hist in Hstack |- *.
    unfold lastElem, slice_0_m1. rewrite last_last, removelast_last.
    apply Forall_app in Hstack. destruct Hstack as [Hrest Hp].
    inversion Hp as [|? ? [HA HB] _]. subst.
    unfold setsLedger.
    cbn [restore setsA setsB matchHistory currentSetPointHistory].
    rewrite HA, HB. now repeat split.
  - destruct exact; [discriminate (Hreset eq_refl)|].
    destruct Hsets as [HA HB].
    pose proof (setsWonBy_nonneg A (matchHistory s)).
    pose proof (setsWonBy_nonneg B (matchHistory s)).
    split; [|split; [reflexivity | exact Hstack]].
    cbn [resetHistory setsA setsB matchHistory setsLedger].
    change (setsWonBy A []) with 0. change (setsWonBy B []) with 0.
    split; lia.
  - now repeat split.
  - split; [exact Hsets|]. split; [exact Htotal | constructor].
  - now repeat split.
  - now repeat split.
Qed.

Lemma setsLedger_replay (exact : bool) (actions : list MatchAction) :
  forall s : MatchState,
    (exact = true -> forallb (fun a => negb (isReset a)) actions = true) ->
    setsLedger exact s -> setsLedger exact (replay s actions).
Proof.
  unfold replay.
  induction actions as [|a rest IH]; intros s Hreset Hs; cbn [fold_left].
  - exact Hs.
  - apply IH.
    + intros E. specialize (Hreset E). cbn [forallb] in Hreset.
      now apply andb_true_iff in Hreset.
    + apply setsLedger_step; [|exact Hs].
      intros E. specialize (Hreset E). cbn [forallb] in Hreset.
      apply andb_true_iff in Hreset. now apply negb_true_iff.
Qed.

Lemma setsLedger_initialState (exact : bool) : setsLedger exact initialState.
Proof.
  split; [|split; [reflexivity | constructor]].
  destruct exact; split; reflexivity.
Qed.

(** X25. Whatever actions are replayed from [initialState], every recorded
    game has a winner and each set counter is at least the number of
    recorded games won by its side; as long as the history is not reset the
    two are equal: no [UNDO] takes a set back, and nothing but a completed
    set moves a counter. *)
Theorem set_counters_follow_history (actions : list MatchAction) :
  let s := replay initialState actions in
  setsWonBy A (matchHistory s) <= setsA s
  /\ setsWonBy B (matchHistory s) <= setsB s
  /\ setsWonBy A (matchHistory s) + setsWonBy B (matchHistory s)
     = len (matchHistory s)
  /\ (forallb (fun a => negb (isReset a)) actions = true ->
      setsA s = setsWonBy A (matchHistory s)
      /\ setsB s = setsWonBy B (matchHistory s)).
Proof.
  intros s. subst s.
  destruct (setsLedger_replay false actions initialState
              (fun E => ltac:(discriminate E))
              (setsLedger_initialState false))
    as ((HA & HB) & Htotal & _).
  split; [exact HA|]. split; [exact HB|]. split; [exact Htotal|].
  intros Hreset.
  destruct (setsLedger_replay true actions initialState
              (fun _ => Hreset) (setsLedger_initialState true))
    as (Hsets & _).
  exact Hsets.
Qed.

Lemma set_counters_follow_history_witness :
  forallb (fun a => negb (isReset a)) setCounterRun = true
  /\ setsA (replay initialState setCounterRun)
     = setsWonBy A
         (matchHistory (replay initialState setCounterRun)).
Proof.
  assert (Hreset : forallb (fun a => negb (isReset a)) setCounterRun = true)
    by (vm_compute; reflexivity).
  split; [exact Hreset|].
  exact (proj1 (proj2 (proj2 (proj2
           (set_counters_follow_history setCounterRun))) Hreset)).
Defined.
